(** * The SQL syntax-tree nodes of [src/parser/node.h]

    A shallow embedding of the node classes, of the intrusive singly linked
    node list [SQLNodeList] and of the debug printer, followed by the
    properties of the repository's specification stated over them.

    Two views of the same classes are used.
    - [Store]: objects live at addresses, pointer fields hold addresses, and
      the methods that mutate or free memory ([PushFront], [AppendNodeList],
      the destructors) are state transformers.  Aliasing between lists is
      visible here.
    - [Ast]: the object graph read by the [const] printing methods, as a
      tree whose pointer fields are null, indeterminate or a child. *)

From Stdlib Require Import ZArith NArith String Ascii DecimalString.
From Stdlib Require Import DecimalPos DecimalZ.
From stdpp Require Import gmap list.

(** ** [enum SQLNodeType] *)

Inductive SQLNodeType : Set :=
| kSelectStmt | kExpr | kResTarget | kTable | kFunc | kWindowDef
| kFrameBound | kFrames | kColumn | kConst | kLimit | kAll | kList
| kOrderBy
| kNull | kInt | kBigInt | kFloat | kDouble | kString
| kDesc | kAsc
| kFrameRange | kFrameRows
| kPreceding | kFollowing | kCurrent | kUnknow.

(** [size_t] arithmetic: 64 bits, wrapping. *)
Definition wrap64 (n : N) : N := (n mod 2 ^ 64)%N.

(** * The store view *)

Module Store.

(** A pointer value.  [Indeterminate] is the value of a pointer member that
    no constructor initialiser has written. *)
Inductive ptr : Set :=
| NULL
| Indeterminate
| At (l : positive).

#[global] Instance ptr_eq_dec : EqDecision ptr.
Proof. solve_decision. Defined.

(** The pointer members of each class, in declaration order.  The classes
    whose destructor frees nothing ([LimitNode], [SQLExprNode],
    [ColumnRefNode], [TableNode], [ConstNode], [OtherSqlNode],
    [UnknowSqlNode]) are one constructor: their data members are not
    pointers to owned objects. *)
Inductive object : Set :=
| SelectStmt (limit_ptr_ select_list_ptr_ tableref_list_ptr_
              where_clause_ptr_ group_clause_ptr_ having_clause_ptr_
              order_clause_ptr_ window_list_ptr_ : ptr)
| ResTarget (indirection_ val_ : ptr)
| WindowDefNode (partition_list_ptr_ order_list_ptr_ frame_ptr : ptr)
| FrameBound (offset_ : ptr)
| FrameNode (start_ end_ : ptr)
| OrderByNode (order_by_ : ptr)
| FuncNode (args_ over_ : ptr)
| LeafNode (type_ : SQLNodeType)
| SQLLinkedNode (node_ptr_ next_ : ptr)
| SQLNodeList (head_ tail_ : ptr) (size_ : N).

(** The free store: the live objects and the next unused address.  An
    address is never handed out twice, so a freed object stays absent. *)
Record store : Type := mkStore {
  live : gmap positive object;
  brk : positive
}.

Definition empty_store : store := mkStore ∅ 1%positive.

(** Outcome of running a piece of code. *)
Inductive outcome (A : Type) : Type :=
| Done (a : A) (s : store)
| Undefined            (* undefined behaviour *)
| OutOfFuel.           (* the bound on the recursion depth was too small *)
Arguments Done {A} a s.
Arguments Undefined {A}.
Arguments OutOfFuel {A}.

Definition M (A : Type) : Type := store -> outcome A.

Definition ret {A} (a : A) : M A := fun s => Done a s.
Definition bind {A B} (m : M A) (k : A -> M B) : M B :=
  fun s => match m s with
           | Done a s' => k a s'
           | Undefined => Undefined
           | OutOfFuel => OutOfFuel
           end.
Definition undefined {A} : M A := fun _ => Undefined.
Definition out_of_fuel {A} : M A := fun _ => OutOfFuel.

Notation "'let*' x ':=' m 'in' k" := (bind m (fun x => k))
  (at level 10, x pattern, m at level 100, k at level 200).
Notation "m ;; k" := (bind m (fun _ => k))
  (at level 100, k at level 200, right associativity).

(** [new T(...)] *)
Definition new (o : object) : M ptr :=
  fun s => Done (At (brk s))
                (mkStore (<[brk s := o]> (live s)) (Pos.succ (brk s))).

(** Reading through a pointer; anything but the address of a live object is
    undefined. *)
Definition load (p : ptr) : M object :=
  fun s => match p with
           | At l => match live s !! l with
                     | Some o => Done o s
                     | None => Undefined
                     end
           | _ => Undefined
           end.

Definition store_at (p : ptr) (o : object) : M unit :=
  fun s => match p with
           | At l => match live s !! l with
                     | Some _ => Done tt (mkStore (<[l := o]> (live s)) (brk s))
                     | None => Undefined
                     end
           | _ => Undefined
           end.

(** Releasing the memory of an object. *)
Definition release (p : ptr) : M unit :=
  fun s => match p with
           | At l => match live s !! l with
                     | Some _ => Done tt (mkStore (delete l (live s)) (brk s))
                     | None => Undefined
                     end
           | _ => Undefined
           end.

(** *** [struct SQLLinkedNode] *)

(** [SQLLinkedNode(SQLNode *node_ptr)] *)
Definition SQLLinkedNode_new (node_ptr : ptr) : M ptr :=
  new (SQLLinkedNode node_ptr NULL).

Definition get_node_ptr (p : ptr) : M ptr :=
  let* o := load p in
  match o with SQLLinkedNode np _ => ret np | _ => undefined end.

Definition get_next (p : ptr) : M ptr :=
  let* o := load p in
  match o with SQLLinkedNode _ nx => ret nx | _ => undefined end.

Definition set_next (p v : ptr) : M unit :=
  let* o := load p in
  match o with
  | SQLLinkedNode np _ => store_at p (SQLLinkedNode np v)
  | _ => undefined
  end.

(** *** [class SQLNodeList] *)

Definition get_head (this : ptr) : M ptr :=
  let* o := load this in
  match o with SQLNodeList h _ _ => ret h | _ => undefined end.

Definition get_tail (this : ptr) : M ptr :=
  let* o := load this in
  match o with SQLNodeList _ t _ => ret t | _ => undefined end.

Definition get_size (this : ptr) : M N :=
  let* o := load this in
  match o with SQLNodeList _ _ n => ret n | _ => undefined end.

Definition set_head (this v : ptr) : M unit :=
  let* o := load this in
  match o with
  | SQLNodeList _ t n => store_at this (SQLNodeList v t n)
  | _ => undefined
  end.

Definition set_tail (this v : ptr) : M unit :=
  let* o := load this in
  match o with
  | SQLNodeList h _ n => store_at this (SQLNodeList h v n)
  | _ => undefined
  end.

Definition set_size (this : ptr) (v : N) : M unit :=
  let* o := load this in
  match o with
  | SQLNodeList h t _ => store_at this (SQLNodeList h t v)
  | _ => undefined
  end.

(** [SQLNodeList()] *)
Definition SQLNodeList_new : M ptr := new (SQLNodeList NULL NULL 0).

(** [SQLNodeList(head, tail, size)] *)
Definition SQLNodeList_new3 (head tail : ptr) (size : N) : M ptr :=
  new (SQLNodeList head tail size).

(** [const size_t Size()] *)
Definition Size (this : ptr) : M N := get_size this.

(** [SQLLinkedNode *GetHead()] *)
Definition GetHead (this : ptr) : M ptr := get_head this.

(** [void PushFront(SQLNode *node_ptr)] *)
Definition PushFront (this node_ptr : ptr) : M unit :=
  let* linked_node_ptr := SQLLinkedNode_new node_ptr in
  let* h := get_head this in
  set_next linked_node_ptr h ;;
  set_head this linked_node_ptr ;;
  let* n := get_size this in
  set_size this (wrap64 (n + 1)) ;;
  let* t := get_tail this in
  if decide (NULL = t) then
    let* h := get_head this in set_tail this h
  else ret tt.

(** [void AppendNodeList(SQLNodeList *node_list_ptr)] *)
Definition AppendNodeList (this node_list_ptr : ptr) : M unit :=
  if decide (NULL = node_list_ptr) then ret tt
  else
    let* t := get_tail this in
    if decide (NULL = t) then
      let* h := get_head node_list_ptr in
      set_head this h ;;
      let* h := get_head this in
      set_tail this h ;;
      let* n := get_size node_list_ptr in
      set_size this n
    else
      let* h := get_head node_list_ptr in
      set_next t h ;;
      let* t' := get_tail node_list_ptr in
      set_tail this t' ;;
      let* n := get_size this in
      let* m := get_size node_list_ptr in
      set_size this (wrap64 (n + m)).

(** Front-to-back iteration from a head pointer, as the loops of [Print]
    and of the destructor do it: the cells met, each with its [node_ptr_].
    [None] when a cell is not live or when [fuel] cells did not reach the
    null pointer. *)
Fixpoint chain (fuel : nat) (h : gmap positive object) (p : ptr)
  : option (list (positive * ptr)) :=
  match p with
  | NULL => Some []
  | Indeterminate => None
  | At l =>
      match fuel with
      | O => None
      | S fuel' =>
          match h !! l with
          | Some (SQLLinkedNode np nx) =>
              option_map (cons (l, np)) (chain fuel' h nx)
          | _ => None
          end
      end
  end.

(** A chain that ends visits no cell twice, so [size h] cells are enough
    to reach the end of any chain that has one. *)
Definition traverse (s : store) (p : ptr) : option (list ptr) :=
  option_map (map snd) (chain (size (live s)) (live s) p).

(** The elements of the list object at [this], front to back. *)
Definition elements (s : store) (this : ptr) : option (list ptr) :=
  match get_head this s with
  | Done h _ => traverse s h
  | _ => None
  end.

Definition reported_size (s : store) (this : ptr) : option N :=
  match Size this s with
  | Done n _ => Some n
  | _ => None
  end.

(** The private member [tail_] of the list object at [this]. *)
Definition tail_field (s : store) (this : ptr) : option ptr :=
  match get_tail this s with
  | Done t _ => Some t
  | _ => None
  end.

(** The address of the last cell of a chain, null for the empty chain. *)
Definition last_cell (cells : list (positive * ptr)) : ptr :=
  match last cells with
  | Some (c, _) => At c
  | None => NULL
  end.

(** The list object at [a] is sound for the chain [cells]: [head_] leads
    through exactly these cells to the null pointer, [tail_] is the last of
    them and [size_] is their number. *)
Definition sound_list (s : store) (a : positive)
    (cells : list (positive * ptr)) : Prop :=
  exists h k,
    live s !! a = Some (SQLNodeList h (last_cell cells)
                                    (N.of_nat (length cells))) /\
    chain k (live s) h = Some cells.

(** Ownership.  [owns m p F]: in the memory [m] the node pointer [p] is
    null, or the address of a node whose pointer members are determinate
    and, in turn, own their objects; [F] lists the addresses of all these
    objects in the order the destructors release them.  [owns_list] is the
    same for a pointer to a list object and [owns_cells] for a chain of
    cells. *)
Inductive owns (m : gmap positive object) : ptr -> list positive -> Prop :=
| owns_null : owns m NULL []
| owns_leaf a t :
    m !! a = Some (LeafNode t) -> owns m (At a) [a]
| owns_select a lim sel tab wh gr hv ord win
              Flim Ftab Fsel Fwh Fgr Fhv Ford Fwin :
    m !! a = Some (SelectStmt lim sel tab wh gr hv ord win) ->
    owns m lim Flim -> owns_list m tab Ftab -> owns_list m sel Fsel ->
    owns m wh Fwh -> owns m gr Fgr -> owns m hv Fhv -> owns m ord Ford ->
    owns_list m win Fwin ->
    owns m (At a)
         (Flim ++ Ftab ++ Fsel ++ Fwh ++ Fgr ++ Fhv ++ Ford ++ Fwin ++ [a])
| owns_result_target a ind val Fval Find :
    m !! a = Some (ResTarget ind val) ->
    owns m val Fval -> owns_list m ind Find ->
    owns m (At a) (Fval ++ Find ++ [a])
| owns_window a pl ol fr Fpl Fol Ffr :
    m !! a = Some (WindowDefNode pl ol fr) ->
    owns_list m pl Fpl -> owns_list m ol Fol -> owns m fr Ffr ->
    owns m (At a) (Fpl ++ Fol ++ Ffr ++ [a])
| owns_bound a off Foff :
    m !! a = Some (FrameBound off) ->
    owns m off Foff ->
    owns m (At a) (Foff ++ [a])
| owns_frame a st en Fst Fen :
    m !! a = Some (FrameNode st en) ->
    owns m st Fst -> owns m en Fen ->
    owns m (At a) (Fst ++ Fen ++ [a])
| owns_order_by a ob Fob :
    m !! a = Some (OrderByNode ob) ->
    owns m ob Fob ->
    owns m (At a) (Fob ++ [a])
| owns_func a args over Fargs Fover :
    m !! a = Some (FuncNode args over) ->
    owns_list m args Fargs -> owns m over Fover ->
    owns m (At a) (Fargs ++ Fover ++ [a])
with owns_list (m : gmap positive object) : ptr -> list positive -> Prop :=
| owns_list_null : owns_list m NULL []
| owns_list_object l h t n F :
    m !! l = Some (SQLNodeList h t n) ->
    owns_cells m h F ->
    owns_list m (At l) (F ++ [l])
with owns_cells (m : gmap positive object) : ptr -> list positive -> Prop :=
| owns_cells_null : owns_cells m NULL []
| owns_cells_cell c np nx Fnode Fcells :
    m !! c = Some (SQLLinkedNode np nx) ->
    owns m np Fnode -> owns_cells m nx Fcells ->
    owns_cells m (At c) (Fnode ++ [c] ++ Fcells).

Scheme owns_ind' := Minimality for owns Sort Prop
  with owns_list_ind' := Minimality for owns_list Sort Prop
  with owns_cells_ind' := Minimality for owns_cells Sort Prop.
Combined Scheme owns_mutind from owns_ind', owns_list_ind', owns_cells_ind'.

(** The memory without the objects at the addresses [F]. *)
Definition remove_all (F : list positive) (m : gmap positive object)
  : gmap positive object :=
  foldl (fun m a => delete a m) m F.

(** [frees c m F]: in every store that holds the objects of [m] at the
    addresses [F], the code [c] completes and releases exactly [F]. *)
Definition frees (c : M unit) (m : gmap positive object) (F : list positive)
  : Prop :=
  forall m' b, (forall a, a ∈ F -> m' !! a = m !! a) ->
               c (mkStore m' b) = Done tt (mkStore (remove_all F m') b).

(** [releases a c]: whenever the code [c] completes, the object at the
    address [a] is no longer allocated. *)
Definition releases (a : positive) (c : M unit) : Prop :=
  forall s s', c s = Done tt s' -> live s' !! a = None.

(** The store a program leaves, started in the empty store. *)
Definition final_store {A} (m : M A) : store :=
  match m empty_store with
  | Done _ s => s
  | _ => empty_store
  end.

(** *** Constructors of the node classes (their pointer members) *)

(** [SelectStmt()] *)
Definition SelectStmt_new : M ptr :=
  new (SelectStmt NULL NULL NULL NULL NULL NULL NULL NULL).

(** [friend void FillSelectAttributions(...)] *)
Definition FillSelectAttributions
    (node_ptr select_list_ptr tableref_list_ptr window_list_ptr limit_ptr : ptr)
  : M unit :=
  let* o := load node_ptr in
  match o with
  | SelectStmt _ _ _ wh gr hv ord _ =>
      store_at node_ptr
        (SelectStmt limit_ptr select_list_ptr tableref_list_ptr
                    wh gr hv ord window_list_ptr)
  | _ => undefined
  end.

(** [ResTarget()]: neither pointer member is initialised. *)
Definition ResTarget_new : M ptr :=
  new (ResTarget Indeterminate Indeterminate).
(** [ResTarget(name, val)]: [indirection_] is not initialised. *)
Definition ResTarget_new_val (val : ptr) : M ptr :=
  new (ResTarget Indeterminate val).
(** [ResTarget(line_num, location)]: [val_] is not initialised. *)
Definition ResTarget_new_pos : M ptr :=
  new (ResTarget NULL Indeterminate).

(** [WindowDefNode()] *)
Definition WindowDefNode_new : M ptr := new (WindowDefNode NULL NULL NULL).

(** [friend void FillWindowSpection(...)] *)
Definition FillWindowSpection (node_ptr partitions orders frame : ptr)
  : M unit :=
  let* o := load node_ptr in
  match o with
  | WindowDefNode _ _ _ => store_at node_ptr (WindowDefNode partitions orders frame)
  | _ => undefined
  end.

(** [FrameBound()] *)
Definition FrameBound_new : M ptr := new (FrameBound NULL).
(** [FrameBound(bound_type)]: [offset_] is not initialised. *)
Definition FrameBound_new_type : M ptr := new (FrameBound Indeterminate).
(** [FrameBound(bound_type, offset)] *)
Definition FrameBound_new_offset (offset : ptr) : M ptr :=
  new (FrameBound offset).

(** [FrameNode()] and [FrameNode(frame_type, start, end)] *)
Definition FrameNode_new : M ptr := new (FrameNode NULL NULL).
Definition FrameNode_new3 (start end_ : ptr) : M ptr :=
  new (FrameNode start end_).

(** [OrderByNode(order)] *)
Definition OrderByNode_new (order : ptr) : M ptr := new (OrderByNode order).

(** [FuncNode(function_name)] and [FuncNode(function_name, args, over)] *)
Definition FuncNode_new : M ptr := new (FuncNode NULL NULL).
Definition FuncNode_new3 (args over : ptr) : M ptr := new (FuncNode args over).

(** [LimitNode(cnt)], [ConstNode(...)], [ColumnRefNode(...)], ... *)
Definition LeafNode_new (type : SQLNodeType) : M ptr := new (LeafNode type).

(** *** Destructors

    [delete p] on a null pointer does nothing; on the address of a live
    object it runs the destructor of the object's class and releases the
    object; on anything else (an indeterminate pointer, an address already
    released) it is undefined.  [fuel] bounds the nesting of the calls. *)

Fixpoint delete_node (fuel : nat) (p : ptr) {struct fuel} : M unit :=
  match p with
  | NULL => ret tt
  | Indeterminate => undefined
  | At _ =>
      match fuel with
      | O => out_of_fuel
      | S fuel' =>
          let* o := load p in
          match o with
          | SelectStmt limit_ptr_ select_list_ptr_ tableref_list_ptr_
                       where_clause_ptr_ group_clause_ptr_ having_clause_ptr_
                       order_clause_ptr_ window_list_ptr_ =>
              delete_node fuel' limit_ptr_ ;;
              delete_list fuel' tableref_list_ptr_ ;;
              delete_list fuel' select_list_ptr_ ;;
              delete_node fuel' where_clause_ptr_ ;;
              delete_node fuel' group_clause_ptr_ ;;
              delete_node fuel' having_clause_ptr_ ;;
              delete_node fuel' order_clause_ptr_ ;;
              delete_list fuel' window_list_ptr_ ;;
              release p
          | ResTarget indirection_ val_ =>
              delete_node fuel' val_ ;;
              delete_list fuel' indirection_ ;;
              release p
          | WindowDefNode partition_list_ptr_ order_list_ptr_ frame_ptr =>
              delete_list fuel' partition_list_ptr_ ;;
              delete_list fuel' order_list_ptr_ ;;
              delete_node fuel' frame_ptr ;;
              release p
          | FrameBound offset_ =>
              delete_node fuel' offset_ ;;
              release p
          | FrameNode start_ end_ =>
              delete_node fuel' start_ ;;
              delete_node fuel' end_ ;;
              release p
          | OrderByNode order_by_ =>
              delete_node fuel' order_by_ ;;
              release p
          | FuncNode args_ over_ =>
              delete_list fuel' args_ ;;
              delete_node fuel' over_ ;;
              release p
          | LeafNode _ => release p
          | SQLLinkedNode _ _ | SQLNodeList _ _ _ => undefined
          end
      end
  end

(** [~SQLNodeList()] and the release of the list object *)
with delete_list (fuel : nat) (p : ptr) {struct fuel} : M unit :=
  match p with
  | NULL => ret tt
  | Indeterminate => undefined
  | At _ =>
      match fuel with
      | O => out_of_fuel
      | S fuel' =>
          set_tail p NULL ;;
          let* head_ := get_head p in
          (if decide (NULL <> head_) then
             let pre := head_ in
             let* p' := get_next pre in
             delete_cells fuel' pre p'
           else ret tt) ;;
          release p
      end
  end

(** [while (NULL != p) { delete pre; pre = p; p = p->next_; } delete pre;] *)
with delete_cells (fuel : nat) (pre p : ptr) {struct fuel} : M unit :=
  match fuel with
  | O => out_of_fuel
  | S fuel' =>
      if decide (NULL <> p) then
        delete_linked fuel' pre ;;
        let pre := p in
        let* p := get_next p in
        delete_cells fuel' pre p
      else delete_linked fuel' pre
  end

(** [~SQLLinkedNode()] and the release of the cell *)
with delete_linked (fuel : nat) (p : ptr) {struct fuel} : M unit :=
  match p with
  | NULL => ret tt
  | Indeterminate => undefined
  | At _ =>
      match fuel with
      | O => out_of_fuel
      | S fuel' =>
          let* node_ptr_ := get_node_ptr p in
          delete_node fuel' node_ptr_ ;;
          release p
      end
  end.

End Store.

(** * The tree view, for the printing and accessor methods *)

Module Ast.
#[local] Open Scope string_scope.

(** The horizontal tab and the line feed written by the printer. *)
Definition TAB : string := String (ascii_of_nat 9) "".
Definition NL : string := String (ascii_of_nat 10) "".

Definition SPACE_ST : string := "+".
Definition SPACE_ED : string := "".

(** The anonymous union [val_] of [ConstNode].  One member is active once a
    constructor has written it; [ConstNode()] writes none.  [int] and
    [long] values are integers of Z, [float] and [double] values are their
    32- and 64-bit representations, a [const char *] is the address of a
    character array. *)
Inductive literal : Set :=
| no_member
| vint (v : Z)
| vlong (v : Z)
| vstr (v : positive)
| vfloat (v : N)
| vdouble (v : N).

(** An object of class [SQLNode]: the members of the base class and the
    members of the dynamic class.  A [SQLNode *] ([ptr]) and a
    [SQLNodeList *] ([lptr]) are null, indeterminate (never written by a
    constructor) or point to an object; a [SQLLinkedNode *] ([linked]) is
    null ([End]) or points to a cell. *)
Inductive SQLNode : Type :=
| Node (type_ : SQLNodeType) (line_num_ location_ : N) (self : derived)
with derived : Type :=
| SelectStmt (distinct_opt_ : Z) (limit_ptr_ : ptr)
             (select_list_ptr_ tableref_list_ptr_ : lptr)
             (where_clause_ptr_ group_clause_ptr_ having_clause_ptr_
              order_clause_ptr_ : ptr)
             (window_list_ptr_ : lptr)
| ResTarget (indirection_ : lptr) (val_ : ptr) (name_ : string)
| WindowDefNode (window_name_ : string)
                (partition_list_ptr_ order_list_ptr_ : lptr) (frame_ptr : ptr)
| FrameBound (bound_type_ : SQLNodeType) (offset_ : ptr)
| FrameNode (frame_type_ : SQLNodeType) (start_ end_ : ptr)
| LimitNode (limit_cnt_ : Z)
| SQLExprNode
| ColumnRefNode (column_name_ relation_name_ : string)
| OrderByNode (sort_type_ : SQLNodeType) (order_by_ : ptr)
| TableNode (org_table_name_ alias_table_name_ : string)
| FuncNode (function_name_ : string) (args_ : lptr) (over_ : ptr)
| ConstNode (val_ : literal)
| OtherSqlNode
| UnknowSqlNode
with ptr : Type :=
| NULL
| Indeterminate
| To (n : SQLNode)
with lptr : Type :=
| LNULL
| LIndeterminate
| ToList (l : SQLNodeList)
with SQLNodeList : Type :=
| NodeList (size_ : N) (head_ : linked)
with linked : Type :=
| End
| Linked (node_ptr_ : ptr) (next_ : linked).

Scheme SQLNode_mut := Induction for SQLNode Sort Prop
  with derived_mut := Induction for derived Sort Prop
  with ptr_mut := Induction for ptr Sort Prop
  with lptr_mut := Induction for lptr Sort Prop
  with SQLNodeList_mut := Induction for SQLNodeList Sort Prop
  with linked_mut := Induction for linked Sort Prop.

Combined Scheme ast_mutind from SQLNode_mut, derived_mut, ptr_mut, lptr_mut,
  SQLNodeList_mut, linked_mut.

(** [const size_t Size()] *)
Definition Size (l : SQLNodeList) : N :=
  match l with NodeList size_ _ => size_ end.

(** [SQLNodeType GetType() const] *)
Definition GetType (n : SQLNode) : SQLNodeType :=
  match n with Node type_ _ _ _ => type_ end.

(** *** Constructors *)

Definition SelectStmt_new : SQLNode :=
  Node kSelectStmt 0 0
       (SelectStmt 0 NULL LNULL LNULL NULL NULL NULL NULL LNULL).

(** [friend void FillSelectAttributions(...)] *)
Definition FillSelectAttributions (node : SQLNode)
    (select_list_ptr tableref_list_ptr window_list_ptr : lptr)
    (limit_ptr : ptr) : SQLNode :=
  match node with
  | Node t ln loc (SelectStmt d _ _ _ wh gr hv ord _) =>
      Node t ln loc
           (SelectStmt d limit_ptr select_list_ptr tableref_list_ptr
                       wh gr hv ord window_list_ptr)
  | _ => node
  end.

Definition ResTarget_new : SQLNode :=
  Node kResTarget 0 0 (ResTarget LIndeterminate Indeterminate "").
Definition ResTarget_new_val (name : string) (val : ptr) : SQLNode :=
  Node kResTarget 0 0 (ResTarget LIndeterminate val name).
Definition ResTarget_new_pos (line_num location : N) : SQLNode :=
  Node kResTarget line_num location (ResTarget LNULL Indeterminate "").

Definition WindowDefNode_new : SQLNode :=
  Node kWindowDef 0 0 (WindowDefNode "" LNULL LNULL NULL).

(** [void SetName(const std::string &name)] *)
Definition SetName (node : SQLNode) (name : string) : SQLNode :=
  match node with
  | Node t ln loc (WindowDefNode _ p o f) => Node t ln loc (WindowDefNode name p o f)
  | _ => node
  end.

(** [friend void FillWindowSpection(...)] *)
Definition FillWindowSpection (node : SQLNode) (partitions orders : lptr)
    (frame : ptr) : SQLNode :=
  match node with
  | Node t ln loc (WindowDefNode nm _ _ _) =>
      Node t ln loc (WindowDefNode nm partitions orders frame)
  | _ => node
  end.

Definition FrameBound_new : SQLNode :=
  Node kFrameBound 0 0 (FrameBound kPreceding NULL).
Definition FrameBound_new_type (bound_type : SQLNodeType) : SQLNode :=
  Node kFrameBound 0 0 (FrameBound bound_type Indeterminate).
Definition FrameBound_new_offset (bound_type : SQLNodeType) (offset : ptr)
  : SQLNode :=
  Node kFrameBound 0 0 (FrameBound bound_type offset).

Definition FrameNode_new : SQLNode :=
  Node kFrames 0 0 (FrameNode kFrameRange NULL NULL).
Definition FrameNode_new3 (frame_type : SQLNodeType) (start end_ : ptr)
  : SQLNode :=
  Node kFrames 0 0 (FrameNode frame_type start end_).

(** [void SetFrameType(SQLNodeType frame_type)] *)
Definition SetFrameType (node : SQLNode) (frame_type : SQLNodeType) : SQLNode :=
  match node with
  | Node t ln loc (FrameNode _ s e) => Node t ln loc (FrameNode frame_type s e)
  | _ => node
  end.

Definition LimitNode_new (cnt : Z) : SQLNode :=
  Node kLimit 0 0 (LimitNode cnt).

Definition SQLExprNode_new : SQLNode := Node kExpr 0 0 SQLExprNode.
Definition SQLExprNode_new_pos (line_num location : N) : SQLNode :=
  Node kExpr line_num location SQLExprNode.

Definition ColumnRefNode_new (column_name : string) : SQLNode :=
  Node kColumn 0 0 (ColumnRefNode column_name "").
Definition ColumnRefNode_new2 (column_name relation_name : string) : SQLNode :=
  Node kColumn 0 0 (ColumnRefNode column_name relation_name).

Definition OrderByNode_new (order : ptr) : SQLNode :=
  Node kOrderBy 0 0 (OrderByNode kDesc order).

Definition TableNode_new (name alias : string) : SQLNode :=
  Node kTable 0 0 (TableNode name alias).

Definition FuncNode_new (function_name : string) : SQLNode :=
  Node kFunc 0 0 (FuncNode function_name LNULL NULL).
Definition FuncNode_new3 (function_name : string) (args : lptr) (over : ptr)
  : SQLNode :=
  Node kFunc 0 0 (FuncNode function_name args over).

Definition ConstNode_new : SQLNode := Node kNull 0 0 (ConstNode no_member).
Definition ConstNode_int (val : Z) : SQLNode :=
  Node kInt 0 0 (ConstNode (vint val)).
Definition ConstNode_long (val : Z) : SQLNode :=
  Node kBigInt 0 0 (ConstNode (vlong val)).
Definition ConstNode_float (val : N) : SQLNode :=
  Node kFloat 0 0 (ConstNode (vfloat val)).
Definition ConstNode_double (val : N) : SQLNode :=
  Node kDouble 0 0 (ConstNode (vdouble val)).
(** [ConstNode(const char *val)] *)
Definition ConstNode_cstr (val : positive) : SQLNode :=
  Node kString 0 0 (ConstNode (vstr val)).

Definition OtherSqlNode_new (type : SQLNodeType) : SQLNode :=
  Node type 0 0 OtherSqlNode.
Definition OtherSqlNode_new_pos (type : SQLNodeType) (line_num location : N)
  : SQLNode :=
  Node type line_num location OtherSqlNode.
Definition UnknowSqlNode_new : SQLNode := Node kUnknow 0 0 UnknowSqlNode.
Definition UnknowSqlNode_new_pos (line_num location : N) : SQLNode :=
  Node kUnknow line_num location UnknowSqlNode.

(** *** [class ConstNode]: accessors

    Reading a member of the union that is not the active one is undefined:
    [None]. *)

Definition GetInt (n : SQLNode) : option Z :=
  match n with Node _ _ _ (ConstNode (vint v)) => Some v | _ => None end.
Definition GetLong (n : SQLNode) : option Z :=
  match n with Node _ _ _ (ConstNode (vlong v)) => Some v | _ => None end.
Definition GetStr (n : SQLNode) : option positive :=
  match n with Node _ _ _ (ConstNode (vstr v)) => Some v | _ => None end.
Definition GetFloat (n : SQLNode) : option N :=
  match n with Node _ _ _ (ConstNode (vfloat v)) => Some v | _ => None end.
Definition GetDouble (n : SQLNode) : option N :=
  match n with Node _ _ _ (ConstNode (vdouble v)) => Some v | _ => None end.

(** [int GetLimitCount() const] *)
Definition GetLimitCount (n : SQLNode) : option Z :=
  match n with Node _ _ _ (LimitNode c) => Some c | _ => None end.

(** *** Character arrays and [std::string]

    The memory of character arrays maps the address of a live array to its
    text.  A [std::string] owns one array, the one [c_str()] returns; the
    array dies with the string. *)

Record std_string : Set := { c_str : positive }.

Definition std_string_new (text : string) (m : gmap positive string)
  : std_string * gmap positive string :=
  let a := fresh (dom m) in ({| c_str := a |}, <[a := text]> m).

Definition std_string_delete (s : std_string) (m : gmap positive string)
  : gmap positive string :=
  delete (c_str s) m.

(** A text read as a C string: the characters before the first NUL. *)
Fixpoint until_nul (text : string) : string :=
  match text with
  | String c text' =>
      if Ascii.eqb c Ascii.zero then EmptyString
      else String c (until_nul text')
  | EmptyString => EmptyString
  end.

Fixpoint has_nul (text : string) : bool :=
  match text with
  | String c text' => Ascii.eqb c Ascii.zero || has_nul text'
  | EmptyString => false
  end.

(** The text a [const char *] addresses, read as a C string; undefined once
    the array is dead. *)
Definition read_chars (m : gmap positive string) (p : positive)
  : option string := until_nul <$> m !! p.

(** [ConstNode(const std::string &val)]: [val_.vstr = val.c_str()] *)
Definition ConstNode_string (val : std_string) : SQLNode :=
  Node kString 0 0 (ConstNode (vstr (c_str val))).

(** A text literal built from a temporary [std::string], as in
    [new ConstNode(std::string(text))]: the temporary is destroyed at the
    end of the full expression. *)
Definition ConstNode_of_temporary (text : string) (m : gmap positive string)
  : SQLNode * gmap positive string :=
  let '(tmp, m1) := std_string_new text m in
  let node := ConstNode_string tmp in
  (node, std_string_delete tmp m1).

(** The same from a string that outlives the node. *)
Definition ConstNode_of_string (text : string) (m : gmap positive string)
  : SQLNode * gmap positive string :=
  let '(str, m1) := std_string_new text m in
  (ConstNode_string str, m1).

(** The text read back from a text literal. *)
Definition GetStr_text (m : gmap positive string) (n : SQLNode)
  : option string :=
  match GetStr n with
  | Some p => read_chars m p
  | None => None
  end.

(** *** The debug printer

    A printing method returns the text it writes to the stream, or [None]
    when it reads an indeterminate pointer, dereferences a null pointer or
    reads a dead character array. *)

(** [operator<<] on an [int] or a [long]: the decimal digits. *)
Definition decimal (z : Z) : string := NilZero.string_of_int (Z.to_int z).

Definition emit (s : string) : option string := Some s.

Definition cat (a b : option string) : option string :=
  match a, b with
  | Some x, Some y => Some (x ++ y)
  | _, _ => None
  end.

Infix "+++" := cat (at level 60, right associativity).

Section Printer.

(** [std::string NameOfSQLNodeType(const SQLNodeType &type)] is declared in
    the header and defined elsewhere. *)
Variable NameOfSQLNodeType : SQLNodeType -> string.

(** The text [operator<<] writes for a [float] and for a [double]. *)
Variable show_float : N -> string.
Variable show_double : N -> string.

(** [friend std::ostream &operator<<(std::ostream &, const SQLNode &)] is
    declared in the header and defined elsewhere. *)
Variable insert_SQLNode : SQLNode -> option string.

(** The character arrays alive when the printer runs. *)
Variable chars : gmap positive string.

(** [SQLNode::Print(std::ostream &output, const std::string &tab)] *)
Definition SQLNode_Print (type_ : SQLNodeType) (tab : string) : string :=
  tab ++ SPACE_ED ++ NameOfSQLNodeType type_.

(** The body of [ConstNode::Print] after the tab: [switch (type_)]. *)
Definition ConstNode_value (type_ : SQLNodeType) (val_ : literal)
  : option string :=
  match type_ with
  | kInt =>
      match val_ with vint v => emit ("value: " ++ decimal v) | _ => None end
  | kBigInt =>
      match val_ with vlong v => emit ("value: " ++ decimal v) | _ => None end
  | kString =>
      match val_ with
      | vstr p => emit "value: " +++ read_chars chars p
      | _ => None
      end
  | kFloat =>
      match val_ with vfloat v => emit ("value: " ++ show_float v) | _ => None end
  | kDouble =>
      match val_ with vdouble v => emit ("value: " ++ show_double v) | _ => None end
  | _ => emit "value: unknow"
  end.

(** [virtual void Print(std::ostream &output, const std::string &tab) const]
    with its overrides, [SQLNodeList::Print(output, tab)] and the loop of
    the latter over the cells. *)
Fixpoint Print (n : SQLNode) (orgTab : string) {struct n} : option string :=
  match n with
  | Node type_ _ _ self =>
    match self with
    | SelectStmt _ limit_ptr_ select_list_ptr_ tableref_list_ptr_
                 where_clause_ptr_ group_clause_ptr_ having_clause_ptr_
                 order_clause_ptr_ window_list_ptr_ =>
        let tab := orgTab ++ TAB in
        let space := tab ++ TAB in
        emit (SQLNode_Print type_ orgTab) +++
        emit NL +++
        match select_list_ptr_ with
        | LNULL => emit (tab ++ "select_list_ptr_: NULL" ++ NL)
        | ToList l =>
            emit (tab ++ "select_list: " ++ NL) +++
            PrintList l space +++ emit NL
        | LIndeterminate => None
        end +++
        match tableref_list_ptr_ with
        | LNULL => emit (tab ++ "tableref_list_ptr_: NULL" ++ NL)
        | ToList l =>
            emit (tab ++ "tableref_list_ptr_: " ++ NL) +++
            PrintList l space +++ emit NL
        | LIndeterminate => None
        end +++
        match where_clause_ptr_ with
        | NULL => emit (tab ++ "where_clause_: NULL" ++ NL)
        | To c =>
            emit (tab ++ "where_clause_: " ++ NL) +++
            Print c tab +++ emit NL
        | Indeterminate => None
        end +++
        match group_clause_ptr_ with
        | NULL => emit (tab ++ "group_clause_: NULL" ++ NL)
        | To c =>
            emit (tab ++ "group_clause_: " ++ NL) +++
            Print c tab +++ emit NL
        | Indeterminate => None
        end +++
        match having_clause_ptr_ with
        | NULL => emit (tab ++ "having_clause_: NULL" ++ NL)
        | To c =>
            emit (tab ++ "having_clause_: ") +++
            insert_SQLNode c +++ emit NL
        | Indeterminate => None
        end +++
        match order_clause_ptr_ with
        | NULL => emit (tab ++ "order_clause_: NULL" ++ NL)
        | To c =>
            emit (tab ++ "order_clause_: ") +++
            insert_SQLNode c +++ emit NL
        | Indeterminate => None
        end +++
        match window_list_ptr_ with
        | LNULL => emit (tab ++ "window_list_ptr_: NULL" ++ NL)
        | ToList l =>
            emit (tab ++ "window_list_ptr_: " ++ NL) +++
            PrintList l space +++ emit NL
        | LIndeterminate => None
        end +++
        match limit_ptr_ with
        | NULL => emit (tab ++ "limit_clause_: NULL" ++ NL)
        | To c =>
            emit (tab ++ "limit_clause_: " ++ NL) +++
            Print c tab +++ emit NL
        | Indeterminate => None
        end
    | ResTarget _ val_ name_ =>
        let tab := orgTab ++ TAB ++ SPACE_ED in
        let space := orgTab ++ TAB ++ TAB in
        emit (SQLNode_Print type_ orgTab) +++
        emit NL +++
        emit (tab ++ "val: " ++ NL) +++
        match val_ with
        | To c => Print c space
        | _ => None
        end +++
        emit NL +++
        emit (tab ++ "name: " ++ NL) +++
        emit (space ++ name_)
    | WindowDefNode window_name_ partition_list_ptr_ order_list_ptr_
                    frame_ptr =>
        let tab := orgTab ++ TAB in
        let space := tab ++ TAB in
        emit (SQLNode_Print type_ orgTab) +++
        emit NL +++
        emit (tab ++ "window_name: " ++ window_name_ ++ NL) +++
        match partition_list_ptr_ with
        | LNULL => emit (tab ++ "partition_list_ptr_: NULL" ++ NL)
        | ToList l =>
            emit (tab ++ "partition_list_ptr_: " ++ NL) +++
            PrintList l space +++ emit NL
        | LIndeterminate => None
        end +++
        match order_list_ptr_ with
        | LNULL => emit (tab ++ "order_list_ptr_: NULL" ++ NL)
        | ToList l =>
            emit (tab ++ "order_list_ptr_: " ++ NL) +++
            PrintList l space +++ emit NL
        | LIndeterminate => None
        end +++
        match frame_ptr with
        | NULL => emit (tab ++ "frame_ptr: NULL")
        | To c => emit (tab ++ "frame_ptr: " ++ NL) +++ Print c space
        | Indeterminate => None
        end
    | FrameBound bound_type_ offset_ =>
        let tab := orgTab ++ TAB in
        let space := tab ++ TAB in
        emit (SQLNode_Print type_ orgTab) +++
        emit NL +++
        emit (tab ++ "bound: " ++ NameOfSQLNodeType bound_type_ ++ NL) +++
        match offset_ with
        | NULL => emit (space ++ "UNBOUNDED")
        | To c => Print c space
        | Indeterminate => None
        end
    | FrameNode frame_type_ start_ end_ =>
        let tab := orgTab ++ TAB in
        let space := tab ++ TAB in
        emit (SQLNode_Print type_ orgTab) +++
        emit NL +++
        emit (tab ++ "frames_type_ : " ++ NameOfSQLNodeType frame_type_ ++ NL) +++
        match start_ with
        | NULL => emit (tab ++ "start: UNBOUNDED: " ++ NL)
        | To c => emit (tab ++ "start: " ++ NL) +++ Print c space +++ emit NL
        | Indeterminate => None
        end +++
        match end_ with
        | NULL => emit (tab ++ "end: UNBOUNDED")
        | To c => emit (tab ++ "end: " ++ NL) +++ Print c space
        | Indeterminate => None
        end
    | ColumnRefNode column_name_ relation_name_ =>
        let tab := orgTab ++ TAB ++ SPACE_ED in
        emit (SQLNode_Print type_ orgTab) +++
        emit NL +++
        emit (tab ++ "column_ref: " ++ "{relation_name: "
                  ++ relation_name_ ++ "," ++ " column_name: "
                  ++ column_name_ ++ "}")
    | OrderByNode sort_type_ order_by_ =>
        let tab := orgTab ++ TAB ++ SPACE_ED in
        let space := orgTab ++ TAB ++ TAB ++ SPACE_ED in
        emit (SQLNode_Print type_ orgTab) +++
        emit NL +++
        emit (tab ++ "sort_type_: " ++ NameOfSQLNodeType sort_type_ ++ NL) +++
        match order_by_ with
        | NULL => emit (tab ++ "order_by_: NULL" ++ NL)
        | To c => emit (tab ++ "order_by_: " ++ NL) +++ Print c space +++ emit NL
        | Indeterminate => None
        end
    | TableNode org_table_name_ alias_table_name_ =>
        let tab := orgTab ++ TAB ++ SPACE_ED in
        emit (SQLNode_Print type_ orgTab) +++
        emit NL +++
        emit (tab ++ "table: " ++ org_table_name_ ++ ", alias: "
                  ++ alias_table_name_)
    | FuncNode function_name_ args_ over_ =>
        let tab := orgTab ++ TAB ++ SPACE_ED in
        let space := orgTab ++ TAB ++ TAB in
        emit (SQLNode_Print type_ orgTab) +++
        emit NL +++
        emit (tab ++ "function_name: " ++ function_name_) +++
        emit NL +++
        emit (tab ++ "args: " ++ NL) +++
        match args_ with
        | LNULL => emit (space ++ "[]")
        | ToList l =>
            if (0 =? Size l)%N then emit (space ++ "[]")
            else PrintList l space
        | LIndeterminate => None
        end +++
        emit NL +++
        match over_ with
        | NULL => emit (tab ++ "over: NULL" ++ NL)
        | To c => emit (tab ++ "over: " ++ NL) +++ Print c space
        | Indeterminate => None
        end
    | ConstNode val_ =>
        let tab := orgTab ++ TAB in
        emit (SQLNode_Print type_ orgTab) +++
        emit NL +++
        emit tab +++
        ConstNode_value type_ val_
    | LimitNode _ | SQLExprNode | OtherSqlNode | UnknowSqlNode =>
        emit (SQLNode_Print type_ orgTab)
    end
  end

with PrintList (l : SQLNodeList) (tab : string) {struct l} : option string :=
  match l with
  | NodeList size_ head_ =>
      match head_ with
      | End => emit (tab ++ "[]")
      | Linked node_ptr_ next_ =>
          if (0 =? size_)%N then emit (tab ++ "[]")
          else
            let space := tab ++ TAB in
            emit (tab ++ "[" ++ NL) +++
            match node_ptr_ with
            | To c => Print c space
            | _ => None
            end +++
            emit NL +++
            PrintCells next_ space +++
            emit (tab ++ "]")
      end
  end

with PrintCells (p : linked) (space : string) {struct p} : option string :=
  match p with
  | End => emit ""
  | Linked node_ptr_ next_ =>
      match node_ptr_ with
      | To c => Print c space
      | _ => None
      end +++
      emit NL +++
      PrintCells next_ space
  end.

(** [virtual void Print(std::ostream &output) const] *)
Definition Print_top (n : SQLNode) : option string := Print n SPACE_ST.

(** The trees the printer is defined on: every pointer it dereferences
    points to an object, it reads no indeterminate pointer, the array of
    every text literal is alive and [operator<<] is defined where it is
    used. *)
Fixpoint printable (n : SQLNode) : bool :=
  match n with
  | Node type_ _ _ self =>
    match self with
    | SelectStmt _ limit_ptr_ select_list_ptr_ tableref_list_ptr_
                 where_clause_ptr_ group_clause_ptr_ having_clause_ptr_
                 order_clause_ptr_ window_list_ptr_ =>
        printable_lptr select_list_ptr_ &&
        printable_lptr tableref_list_ptr_ &&
        printable_ptr where_clause_ptr_ &&
        printable_ptr group_clause_ptr_ &&
        match having_clause_ptr_ with
        | NULL => true
        | To c => bool_decide (is_Some (insert_SQLNode c))
        | Indeterminate => false
        end &&
        match order_clause_ptr_ with
        | NULL => true
        | To c => bool_decide (is_Some (insert_SQLNode c))
        | Indeterminate => false
        end &&
        printable_lptr window_list_ptr_ &&
        printable_ptr limit_ptr_
    | ResTarget _ val_ _ => printable_target val_
    | WindowDefNode _ partition_list_ptr_ order_list_ptr_ frame_ptr =>
        printable_lptr partition_list_ptr_ &&
        printable_lptr order_list_ptr_ &&
        printable_ptr frame_ptr
    | FrameBound _ offset_ => printable_ptr offset_
    | FrameNode _ start_ end_ => printable_ptr start_ && printable_ptr end_
    | OrderByNode _ order_by_ => printable_ptr order_by_
    | FuncNode _ args_ over_ =>
        match args_ with
        | LNULL => true
        | ToList l =>
            if (0 =? Size l)%N then true else printable_list l
        | LIndeterminate => false
        end &&
        printable_ptr over_
    | ConstNode val_ => bool_decide (is_Some (ConstNode_value type_ val_))
    | LimitNode _ | SQLExprNode | ColumnRefNode _ _ | TableNode _ _
    | OtherSqlNode | UnknowSqlNode => true
    end
  end

(** a pointer that is tested against null before it is dereferenced *)
with printable_ptr (p : ptr) : bool :=
  match p with
  | NULL => true
  | Indeterminate => false
  | To c => printable c
  end

(** a pointer that is dereferenced without a test *)
with printable_target (p : ptr) : bool :=
  match p with
  | To c => printable c
  | _ => false
  end

with printable_lptr (p : lptr) : bool :=
  match p with
  | LNULL => true
  | LIndeterminate => false
  | ToList l => printable_list l
  end

with printable_list (l : SQLNodeList) : bool :=
  match l with
  | NodeList size_ head_ =>
      match head_ with
      | End => true
      | Linked node_ptr_ next_ =>
          if (0 =? size_)%N then true
          else printable_target node_ptr_ && printable_cells next_
      end
  end

with printable_cells (p : linked) : bool :=
  match p with
  | End => true
  | Linked node_ptr_ next_ =>
      printable_target node_ptr_ && printable_cells next_
  end.

(** [void SQLNodeList::Print(std::ostream &output) const] *)
Definition PrintList_top (l : SQLNodeList) : option string := PrintList l "".

End Printer.

(** *** Accessors

    An accessor of a derived class is called on objects of that class
    only; on an object of another class it has no value. *)

(** [uint32_t GetLineNum() const] and [uint32_t GetLocation() const] *)
Definition GetLineNum (n : SQLNode) : N :=
  match n with Node _ line_num_ _ _ => line_num_ end.
Definition GetLocation (n : SQLNode) : N :=
  match n with Node _ _ location_ _ => location_ end.

(** [class SelectStmt]: [GetSelectList], [GetLimit], [GetTableRefList],
    [GetWindowList] *)
Definition GetSelectList (n : SQLNode) : option lptr :=
  match n with
  | Node _ _ _ (SelectStmt _ _ select_list_ptr_ _ _ _ _ _ _) =>
      Some select_list_ptr_
  | _ => None
  end.
Definition GetLimit (n : SQLNode) : option ptr :=
  match n with
  | Node _ _ _ (SelectStmt _ limit_ptr_ _ _ _ _ _ _ _) => Some limit_ptr_
  | _ => None
  end.
Definition GetTableRefList (n : SQLNode) : option lptr :=
  match n with
  | Node _ _ _ (SelectStmt _ _ _ tableref_list_ptr_ _ _ _ _ _) =>
      Some tableref_list_ptr_
  | _ => None
  end.
Definition GetWindowList (n : SQLNode) : option lptr :=
  match n with
  | Node _ _ _ (SelectStmt _ _ _ _ _ _ _ _ window_list_ptr_) =>
      Some window_list_ptr_
  | _ => None
  end.

(** [class WindowDefNode]: [GetName], [GetPartitions], [GetOrders],
    [GetFrame] *)
Definition WindowDefNode_GetName (n : SQLNode) : option string :=
  match n with
  | Node _ _ _ (WindowDefNode window_name_ _ _ _) => Some window_name_
  | _ => None
  end.
Definition GetPartitions (n : SQLNode) : option lptr :=
  match n with
  | Node _ _ _ (WindowDefNode _ partition_list_ptr_ _ _) =>
      Some partition_list_ptr_
  | _ => None
  end.
Definition GetOrders (n : SQLNode) : option lptr :=
  match n with
  | Node _ _ _ (WindowDefNode _ _ order_list_ptr_ _) => Some order_list_ptr_
  | _ => None
  end.
Definition GetFrame (n : SQLNode) : option ptr :=
  match n with
  | Node _ _ _ (WindowDefNode _ _ _ frame_ptr) => Some frame_ptr
  | _ => None
  end.

(** [class FrameNode]: [GetFrameType], [GetStart], [GetEnd] *)
Definition GetFrameType (n : SQLNode) : option SQLNodeType :=
  match n with
  | Node _ _ _ (FrameNode frame_type_ _ _) => Some frame_type_
  | _ => None
  end.
Definition GetStart (n : SQLNode) : option ptr :=
  match n with
  | Node _ _ _ (FrameNode _ start_ _) => Some start_
  | _ => None
  end.
Definition GetEnd (n : SQLNode) : option ptr :=
  match n with
  | Node _ _ _ (FrameNode _ _ end_) => Some end_
  | _ => None
  end.


End Ast.

(** * Vocabulary of the properties *)

(** ** Programs over the store *)

Module Scenario.
Import Store.

(** A store is fresh when no object lives at or above its break. *)
Definition fresh_store (s : store) : Prop :=
  forall l, (brk s <= l)%positive -> live s !! l = None.

(** Building a list by front insertion, last element first, so that the
    traversal yields [xs]. *)
Fixpoint push_all (this : ptr) (xs : list ptr) : M unit :=
  match xs with
  | [] => ret tt
  | x :: xs' => push_all this xs' ;; PushFront this x
  end.

Definition list_of (xs : list ptr) : M ptr :=
  let* this := SQLNodeList_new in
  push_all this xs ;;
  ret this.

(** Two lists built by front insertion, the second appended onto the
    first. *)
Definition append_of (xs ys : list ptr) : M ptr :=
  let* a := list_of xs in
  let* b := list_of ys in
  AppendNodeList a b ;;
  ret a.

(** [B = {n1, n2}] and [C = {n3}] built by [PushFront]; a fresh list [A]
    adopts [B].  The caller goes on to append [C] onto [A]. *)
Definition adopt_two : M (ptr * ptr * (ptr * ptr * ptr)) :=
  let* n1 := LeafNode_new kColumn in
  let* n2 := LeafNode_new kColumn in
  let* n3 := LeafNode_new kColumn in
  let* b := SQLNodeList_new in
  PushFront b n2 ;;
  PushFront b n1 ;;
  let* c := SQLNodeList_new in
  PushFront c n3 ;;
  let* a := SQLNodeList_new in
  AppendNodeList a b ;;
  ret (a, c, (n1, n2, n3)).

(** The whole sequence on [A]: create empty, append [B], append [C]. *)
Definition adopt_two_append_one : M (ptr * (ptr * ptr * ptr)) :=
  let* (a, c, ns) := adopt_two in
  AppendNodeList a c ;;
  ret (a, ns).

(** [B = {n1, n2}] built by [PushFront]; a fresh list [A] adopts [B].  The
    caller goes on to append [B] onto [A] once more, or onto itself. *)
Definition adopt_source : M (ptr * ptr * (ptr * ptr)) :=
  let* n1 := LeafNode_new kColumn in
  let* n2 := LeafNode_new kColumn in
  let* b := SQLNodeList_new in
  PushFront b n2 ;;
  PushFront b n1 ;;
  let* a := SQLNodeList_new in
  AppendNodeList a b ;;
  ret (a, b, (n1, n2)).

(** [A = {x}] built by [PushFront], an empty list [E] and [D = {y}]. *)
Definition one_and_empty : M (ptr * ptr * ptr * (ptr * ptr)) :=
  let* x := LeafNode_new kColumn in
  let* y := LeafNode_new kColumn in
  let* a := SQLNodeList_new in
  PushFront a x ;;
  let* e := SQLNodeList_new in
  let* d := SQLNodeList_new in
  PushFront d y ;;
  ret (a, e, d, (x, y)).

(** [A = {n1}] and [B = {n2, n3}], both built by [PushFront]. *)
Definition two_lists : M (ptr * ptr * (ptr * ptr * ptr)) :=
  let* n1 := LeafNode_new kColumn in
  let* n2 := LeafNode_new kColumn in
  let* n3 := LeafNode_new kColumn in
  let* a := SQLNodeList_new in
  PushFront a n1 ;;
  let* b := SQLNodeList_new in
  PushFront b n3 ;;
  PushFront b n2 ;;
  ret (a, b, (n1, n2, n3)).

(** [new ResTarget(name, new ConstNode(1))] *)
Definition result_target : M ptr :=
  let* c := LeafNode_new kInt in
  ResTarget_new_val c.

(** A select statement over four levels of ownership, without a result
    target: the select list holds a function call whose window definition
    owns a partition list and a frame with two bounds. *)
Definition windowed_select : M ptr :=
  let* three := LeafNode_new kInt in
  let* start := FrameBound_new_offset three in
  let* end_ := FrameBound_new_offset NULL in
  let* frame := FrameNode_new3 start end_ in
  let* w := WindowDefNode_new in
  let* col := LeafNode_new kColumn in
  let* partitions := SQLNodeList_new in
  PushFront partitions col ;;
  FillWindowSpection w partitions NULL frame ;;
  let* a1 := LeafNode_new kColumn in
  let* a2 := LeafNode_new kColumn in
  let* args := SQLNodeList_new in
  PushFront args a2 ;;
  PushFront args a1 ;;
  let* fn := FuncNode_new3 args w in
  let* select_list := SQLNodeList_new in
  PushFront select_list fn ;;
  let* limit := LeafNode_new kLimit in
  let* stmt := SelectStmt_new in
  FillSelectAttributions stmt select_list NULL NULL limit ;;
  ret stmt.

(** [PushFront] of the elements [xs], first element first. *)
Fixpoint PushFront_each (this : ptr) (xs : list ptr) : M unit :=
  match xs with
  | [] => ret tt
  | x :: xs' => PushFront this x ;; PushFront_each this xs'
  end.

(** A new list and the elements [xs] pushed onto it in this order. *)
Definition pushed (xs : list ptr) : M ptr :=
  let* this := SQLNodeList_new in
  PushFront_each this xs ;;
  ret this.

(** The lists [bs] appended onto [this], one after the other. *)
Fixpoint append_all (this : ptr) (bs : list ptr) : M unit :=
  match bs with
  | [] => ret tt
  | b :: bs' => AppendNodeList this b ;; append_all this bs'
  end.

(** [A = {n1}] and [B = {n2, n3}], then [A->AppendNodeList(B)]. *)
Definition two_lists_appended : M unit :=
  let* (a, b, _) := two_lists in
  AppendNodeList a b.

(** A statement and a window definition that are filled, emptied again and
    destroyed. *)
Definition refilled_select (sl tl wl lim : ptr) (fuel : nat) : M unit :=
  let* n := SelectStmt_new in
  FillSelectAttributions n sl tl wl lim ;;
  FillSelectAttributions n NULL NULL NULL NULL ;;
  delete_node fuel n.

Definition refilled_window (pl ol fr : ptr) (fuel : nat) : M unit :=
  let* w := WindowDefNode_new in
  FillWindowSpection w pl ol fr ;;
  FillWindowSpection w NULL NULL NULL ;;
  delete_node fuel w.

(** Small stores: one empty list at address 1; two column references at
    1 and 2; one integer literal at 1; a frame bound at 2 whose offset is
    the integer literal at 1. *)
Definition one_empty_list : store :=
  mkStore (<[1%positive := SQLNodeList NULL NULL 0]> ∅) 2.
Definition two_columns : store :=
  mkStore (<[2%positive := LeafNode kColumn]>
             (<[1%positive := LeafNode kColumn]> ∅)) 3.
Definition one_literal : store :=
  mkStore (<[1%positive := LeafNode kInt]> ∅) 2.
Definition bound_with_offset : store :=
  mkStore (<[2%positive := FrameBound (At 1)]>
             (<[1%positive := LeafNode kInt]> ∅)) 3.

End Scenario.

(** ** Texts and trees *)

Module Text.
Import Ast.
#[local] Open Scope string_scope.

(** White space as [isspace] has it. *)
Definition is_space (c : ascii) : bool :=
  let n := nat_of_ascii c in
  (n =? 32)%nat || ((9 <=? n)%nat && (n <=? 13)%nat).

Fixpoint skip_spaces (s : string) : string :=
  match s with
  | String c s' => if is_space c then skip_spaces s' else s
  | EmptyString => EmptyString
  end.

Fixpoint take_word (s : string) : string :=
  match s with
  | String c s' => if is_space c then EmptyString else String c (take_word s')
  | EmptyString => EmptyString
  end.

(** A text without white space. *)
Fixpoint no_space (s : string) : bool :=
  match s with
  | String c s' => negb (is_space c) && no_space s'
  | EmptyString => true
  end.

(** The first white-space delimited token of a text. *)
Definition first_token (s : string) : string := take_word (skip_spaces s).

(** All the white-space delimited tokens of a text. *)
Fixpoint tokens_from (fuel : nat) (s : string) : list string :=
  match fuel with
  | O => []
  | S fuel' =>
      match skip_spaces s with
      | EmptyString => []
      | s' =>
          let w := take_word s' in
          w :: tokens_from fuel'
                 (substring (String.length w) (String.length s') s')
      end
  end.
Definition tokens (s : string) : list string :=
  tokens_from (String.length s) s.

(** [occurs pat s]: [pat] is a substring of [s]. *)
Fixpoint occurs (pat s : string) : bool :=
  String.prefix pat s ||
  match s with
  | String _ s' => occurs pat s'
  | EmptyString => false
  end.

(** A naming of the node kinds by their enumerator, used where an example
    needs one; the properties below hold for every naming. *)
Definition enumerator_name (t : SQLNodeType) : string :=
  match t with
  | kSelectStmt => "kSelectStmt" | kExpr => "kExpr"
  | kResTarget => "kResTarget" | kTable => "kTable" | kFunc => "kFunc"
  | kWindowDef => "kWindowDef" | kFrameBound => "kFrameBound"
  | kFrames => "kFrames" | kColumn => "kColumn" | kConst => "kConst"
  | kLimit => "kLimit" | kAll => "kAll" | kList => "kList"
  | kOrderBy => "kOrderBy" | kNull => "kNull" | kInt => "kInt"
  | kBigInt => "kBigInt" | kFloat => "kFloat" | kDouble => "kDouble"
  | kString => "kString" | kDesc => "kDesc" | kAsc => "kAsc"
  | kFrameRange => "kFrameRange" | kFrameRows => "kFrameRows"
  | kPreceding => "kPreceding" | kFollowing => "kFollowing"
  | kCurrent => "kCurrent" | kUnknow => "kUnknow"
  end.

(** The select statements the construction interface can produce: the
    constructor, then any number of calls of [FillSelectAttributions].  The
    members are private; no other function of the header writes them. *)
Inductive constructed_select : SQLNode -> Prop :=
| constructed_new : constructed_select SelectStmt_new
| constructed_fill n sl tl wl lim :
    constructed_select n ->
    constructed_select (FillSelectAttributions n sl tl wl lim).

(** A select statement with an empty select list and [LimitNode(cnt)]. *)
Definition select_with_limit (cnt : Z) : SQLNode :=
  FillSelectAttributions SelectStmt_new
    (ToList (NodeList 0 End)) LNULL LNULL (To (LimitNode_new cnt)).

(** [FrameNode(kFrameRows, FrameBound(kPreceding, ConstNode(3)),
    FrameBound(kCurrent, NULL))] *)
Definition rows_3_preceding_to_current : SQLNode :=
  FrameNode_new3 kFrameRows
    (To (FrameBound_new_offset kPreceding (To (ConstNode_int 3))))
    (To (FrameBound_new_offset kCurrent NULL)).

(** [FrameNode(kFrameRows, FrameBound(kPreceding, ConstNode(3)),
    FrameBound(kCurrent))] *)
Definition rows_3_preceding_to_current_of_type : SQLNode :=
  FrameNode_new3 kFrameRows
    (To (FrameBound_new_offset kPreceding (To (ConstNode_int 3))))
    (To (FrameBound_new_type kCurrent)).

(** The text [FrameBound::Print] writes for the offset. *)
Definition offset_text (P : SQLNode -> string -> option string)
    (offset_ : ptr) (space : string) : option string :=
  match offset_ with
  | NULL => emit (space ++ "UNBOUNDED")
  | To c => P c space
  | Indeterminate => None
  end.

(** The elements of a chain of cells, front to back. *)
Fixpoint cells (p : linked) : list ptr :=
  match p with
  | End => []
  | Linked node_ptr_ next_ => node_ptr_ :: cells next_
  end.

(** The texts of the elements of a list, each followed by a line feed;
    undefined when one of them is. *)
Fixpoint lines (texts : list (option string)) : option string :=
  match texts with
  | [] => emit ""
  | t :: texts' => t +++ emit NL +++ lines texts'
  end.

(** Reading a decimal numeral, with its sign. *)
Definition read_decimal (s : string) : option Z :=
  option_map Z.of_int (NilZero.int_of_string s).

(** The literals the constructors of [ConstNode] produce. *)
Inductive constructed_literal : SQLNode -> Prop :=
| literal_null : constructed_literal ConstNode_new
| literal_int v : constructed_literal (ConstNode_int v)
| literal_long v : constructed_literal (ConstNode_long v)
| literal_float v : constructed_literal (ConstNode_float v)
| literal_double v : constructed_literal (ConstNode_double v)
| literal_cstr p : constructed_literal (ConstNode_cstr p)
| literal_string s : constructed_literal (ConstNode_string s).

(** The window definitions the interface can produce, with the last name
    and the last lists and frame given: the constructor, then any number of
    calls of [SetName] and [FillWindowSpection]. *)
Inductive constructed_window
  : SQLNode -> string -> lptr -> lptr -> ptr -> Prop :=
| window_new : constructed_window WindowDefNode_new "" LNULL LNULL NULL
| window_named n name pl ol fr name' :
    constructed_window n name pl ol fr ->
    constructed_window (SetName n name') name' pl ol fr
| window_filled n name pl ol fr pl' ol' fr' :
    constructed_window n name pl ol fr ->
    constructed_window (FillWindowSpection n pl' ol' fr') name pl' ol' fr'.

(** The frames the interface can produce, with the last type given: either
    constructor, then any number of calls of [SetFrameType]. *)
Inductive constructed_frame : SQLNode -> SQLNodeType -> ptr -> ptr -> Prop :=
| frame_new : constructed_frame FrameNode_new kFrameRange NULL NULL
| frame_new3 ft s e : constructed_frame (FrameNode_new3 ft s e) ft s e
| frame_typed n ft s e ft' :
    constructed_frame n ft s e ->
    constructed_frame (SetFrameType n ft') ft' s e.

(** A tree without what the printer does not show: the positions, the
    [distinct_opt_] of a statement, the count of a limit and the
    [indirection_] of a result target are reset, in the node and in every
    child that [Print] prints itself.  The having and order clauses are
    printed by [operator<<] and are left as they are. *)
Fixpoint forget (n : SQLNode) : SQLNode :=
  match n with
  | Node type_ _ _ self => Node type_ 0 0 (forget_derived self)
  end
with forget_derived (d : derived) : derived :=
  match d with
  | SelectStmt _ limit_ptr_ select_list_ptr_ tableref_list_ptr_
               where_clause_ptr_ group_clause_ptr_ having_clause_ptr_
               order_clause_ptr_ window_list_ptr_ =>
      SelectStmt 0 (forget_ptr limit_ptr_) (forget_lptr select_list_ptr_)
                 (forget_lptr tableref_list_ptr_) (forget_ptr where_clause_ptr_)
                 (forget_ptr group_clause_ptr_) having_clause_ptr_
                 order_clause_ptr_ (forget_lptr window_list_ptr_)
  | ResTarget _ val_ name_ => ResTarget LNULL (forget_ptr val_) name_
  | WindowDefNode window_name_ partition_list_ptr_ order_list_ptr_ frame_ptr =>
      WindowDefNode window_name_ (forget_lptr partition_list_ptr_)
                    (forget_lptr order_list_ptr_) (forget_ptr frame_ptr)
  | FrameBound bound_type_ offset_ => FrameBound bound_type_ (forget_ptr offset_)
  | FrameNode frame_type_ start_ end_ =>
      FrameNode frame_type_ (forget_ptr start_) (forget_ptr end_)
  | LimitNode _ => LimitNode 0
  | OrderByNode sort_type_ order_by_ => OrderByNode sort_type_ (forget_ptr order_by_)
  | FuncNode function_name_ args_ over_ =>
      FuncNode function_name_ (forget_lptr args_) (forget_ptr over_)
  | SQLExprNode | ColumnRefNode _ _ | TableNode _ _ | ConstNode _
  | OtherSqlNode | UnknowSqlNode => d
  end
with forget_ptr (p : ptr) : ptr :=
  match p with
  | To n => To (forget n)
  | NULL | Indeterminate => p
  end
with forget_lptr (p : lptr) : lptr :=
  match p with
  | ToList l => ToList (forget_list l)
  | LNULL | LIndeterminate => p
  end
with forget_list (l : SQLNodeList) : SQLNodeList :=
  match l with
  | NodeList size_ head_ => NodeList size_ (forget_cells head_)
  end
with forget_cells (p : linked) : linked :=
  match p with
  | End => End
  | Linked node_ptr_ next_ => Linked (forget_ptr node_ptr_) (forget_cells next_)
  end.

End Text.

(** * Properties of the node list

    ** Chains of cells *)

Section ListFacts.
Import Store Scenario.
Implicit Types (m : gmap positive object) (p : ptr) (l : list (positive * ptr)).

Lemma chain_At_inv k m c l :
  chain k m (At c) = Some l ->
  exists k' np nx l', k = S k' /\ m !! c = Some (SQLLinkedNode np nx) /\
                      chain k' m nx = Some l' /\ l = (c, np) :: l'.
Proof.
  destruct k as [|k']; simpl; [discriminate|].
  destruct (m !! c) as [[]|] eqn:E; try discriminate.
  destruct (chain k' m next_) as [l'|] eqn:E'; simpl; [|discriminate].
  intros [= <-]. by exists k', node_ptr_, next_, l'.
Qed.

Lemma chain_At k m c np nx l :
  m !! c = Some (SQLLinkedNode np nx) -> chain k m nx = Some l ->
  chain (S k) m (At c) = Some ((c, np) :: l).
Proof. intros Hc Hl. simpl. by rewrite Hc, Hl. Qed.

Lemma chain_mono k k' m p l :
  k <= k' -> chain k m p = Some l -> chain k' m p = Some l.
Proof.
  revert k' p l. induction k as [|k IH]; intros k' p l Hle H.
  - destruct p; simpl in H; try discriminate.
    destruct k'; exact H.
  - destruct p as [| |c]; [destruct k'; exact H | discriminate |].
    apply chain_At_inv in H as (k0 & np & nx & l' & [= <-] & Hc & Hl & ->).
    destruct k' as [|k']; [lia|].
    eapply chain_At; [done|]. apply IH; [lia|done].
Qed.

Lemma chain_det k k' m p l l' :
  chain k m p = Some l -> chain k' m p = Some l' -> l = l'.
Proof.
  intros H H'.
  apply (chain_mono k (k + k')) in H; [|lia].
  apply (chain_mono k' (k + k')) in H'; [|lia]. congruence.
Qed.

Lemma chain_length k m p l : chain k m p = Some l -> chain (length l) m p = Some l.
Proof.
  revert p l. induction k as [|k IH]; intros p l H.
  - destruct p; simpl in H; try discriminate. by injection H as <-.
  - destruct p as [| |c]; [by injection H as <- | discriminate |].
    apply chain_At_inv in H as (k0 & np & nx & l' & [= <-] & Hc & Hl & ->).
    simpl length. eapply chain_At; eauto.
Qed.

Lemma chain_fuel k m p l : chain k m p = Some l -> length l <= k.
Proof.
  revert p l. induction k as [|k IH]; intros p l H.
  - destruct p; simpl in H; try discriminate. injection H as <-. simpl; lia.
  - destruct p as [| |c]; [injection H as <-; simpl; lia | discriminate |].
    apply chain_At_inv in H as (k0 & np & nx & l' & [= <-] & Hc & Hl & ->).
    simpl. apply IH in Hl. lia.
Qed.

Lemma chain_cells k m p l c :
  chain k m p = Some l -> c ∈ l.*1 ->
  exists np nx, m !! c = Some (SQLLinkedNode np nx).
Proof.
  revert p l. induction k as [|k IH]; intros p l H Hin.
  - destruct p; simpl in H; try discriminate. injection H as <-.
    by apply elem_of_nil in Hin.
  - destruct p as [| |c']; [injection H as <-; by apply elem_of_nil in Hin | discriminate |].
    apply chain_At_inv in H as (k0 & np & nx & l' & [= <-] & Hc & Hl & ->).
    simpl in Hin. apply elem_of_cons in Hin as [->|Hin]; eauto.
Qed.

Lemma chain_from_member k m p l1 c np l2 :
  chain k m p = Some (l1 ++ (c, np) :: l2) ->
  chain (S (length l2)) m (At c) = Some ((c, np) :: l2).
Proof.
  revert k p. induction l1 as [|[c1 np1] l1 IH]; intros k p H.
  - simpl in H. destruct p as [| |c'];
      [destruct k; discriminate | destruct k; discriminate |].
    apply chain_At_inv in H as (k0 & np' & nx & l' & -> & Hc & Hl & [= -> -> ->]).
    eapply chain_At; [done|]. by eapply chain_length.
  - destruct p as [| |c'];
      [destruct k; discriminate | destruct k; discriminate |].
    apply chain_At_inv in H as (k0 & np' & nx & l' & -> & Hc & Hl & Heq).
    simpl in Heq. injection Heq as -> -> <-. eauto.
Qed.

Lemma chain_NoDup k m p l : chain k m p = Some l -> NoDup l.*1.
Proof.
  revert p l. induction k as [|k IH]; intros p l H.
  - destruct p; simpl in H; try discriminate. injection H as <-. constructor.
  - destruct p as [| |c]; [injection H as <-; constructor | discriminate |].
    pose proof H as H0.
    apply chain_At_inv in H as (k0 & np & nx & l' & [= <-] & Hc & Hl & ->).
    simpl. constructor; [|eauto].
    intros Hin. apply list_elem_of_fmap in Hin as ([c' np'] & Hc' & Hin).
    simpl in Hc'. subst c'.
    apply list_elem_of_split in Hin as (l1 & l2 & ->).
    apply chain_from_member in Hl.
    pose proof (chain_det _ _ _ _ _ _ H0 Hl) as Heq.
    apply (f_equal length) in Heq. simpl in Heq.
    rewrite length_app in Heq. simpl in Heq. lia.
Qed.

Lemma chain_insert_notin k m p l c o :
  chain k m p = Some l -> c ∉ l.*1 -> chain k (<[c := o]> m) p = Some l.
Proof.
  revert p l. induction k as [|k IH]; intros p l H Hnin.
  - destruct p; simpl in *; done.
  - destruct p as [| |c']; [done | discriminate |].
    apply chain_At_inv in H as (k0 & np & nx & l' & [= <-] & Hc & Hl & ->).
    simpl in Hnin. apply not_elem_of_cons in Hnin as [Hne Hnin].
    eapply chain_At; [by rewrite lookup_insert_ne | by apply IH].
Qed.

Lemma chain_insert_list k m p l x h t n :
  chain k m p = Some l -> (exists h0 t0 n0, m !! x = Some (SQLNodeList h0 t0 n0)) ->
  chain k (<[x := SQLNodeList h t n]> m) p = Some l.
Proof.
  intros H (h0 & t0 & n0 & Hx). apply chain_insert_notin; [done|].
  intros Hin. destruct (chain_cells _ _ _ _ _ H Hin) as (? & ? & ?). congruence.
Qed.

Lemma chain_splice k k' m p l1 t np l2 q l3 :
  chain k m p = Some (l1 ++ (t, np) :: l2) ->
  chain k' m q = Some l3 -> t ∉ l3.*1 ->
  chain (length l1 + S k') (<[t := SQLLinkedNode np q]> m) p
    = Some (l1 ++ (t, np) :: l3).
Proof.
  intros H Hq Hnin.
  pose proof (chain_NoDup _ _ _ _ H) as Hnd.
  revert k p H Hnd. induction l1 as [|[c1 np1] l1 IH]; intros k p H Hnd.
  - simpl in *. destruct p as [| |c'];
      [destruct k; discriminate | destruct k; discriminate |].
    apply chain_At_inv in H as (k0 & np' & nx & l' & -> & Hc & Hl & [= -> -> ->]).
    eapply chain_At; [by rewrite lookup_insert_eq|].
    by apply chain_insert_notin.
  - destruct p as [| |c'];
      [destruct k; discriminate | destruct k; discriminate |].
    apply chain_At_inv in H as (k0 & np' & nx & l' & -> & Hc & Hl & Heq).
    simpl in Heq. injection Heq as -> -> <-.
    simpl in Hnd. apply NoDup_cons in Hnd as [Hc1 Hnd].
    simpl. change (length l1 + S k') with (length l1 + S k').
    eapply chain_At.
    + rewrite lookup_insert_ne; [done|]. intros ->. apply Hc1.
      rewrite fmap_app. apply elem_of_app. right. simpl. left.
    + eauto.
Qed.

Lemma chain_size k m p l : chain k m p = Some l -> chain (size m) m p = Some l.
Proof.
  intros H. apply (chain_mono (length l)); [|by eapply chain_length].
  pose proof (chain_NoDup _ _ _ _ H) as Hnd.
  rewrite <- (length_fmap fst l).
  rewrite <- size_dom, <- (size_list_to_set (C := gset positive) (l.*1)) by done.
  apply subseteq_size. intros c Hc. apply elem_of_list_to_set in Hc.
  apply elem_of_dom. destruct (chain_cells _ _ _ _ _ H Hc) as (? & ? & ->). eauto.
Qed.


(** Running the accessors of a live list object. *)
Lemma get_head_live s a h t n :
  live s !! a = Some (SQLNodeList h t n) -> get_head (At a) s = Done h s.
Proof. intros H. unfold get_head, bind, load. by rewrite H. Qed.

Lemma get_tail_live s a h t n :
  live s !! a = Some (SQLNodeList h t n) -> get_tail (At a) s = Done t s.
Proof. intros H. unfold get_tail, bind, load. by rewrite H. Qed.

Lemma get_size_live s a h t n :
  live s !! a = Some (SQLNodeList h t n) -> get_size (At a) s = Done n s.
Proof. intros H. unfold get_size, bind, load. by rewrite H. Qed.

Lemma set_head_live s a h t n v :
  live s !! a = Some (SQLNodeList h t n) ->
  set_head (At a) v s
  = Done tt (mkStore (<[a := SQLNodeList v t n]> (live s)) (brk s)).
Proof. intros H. unfold set_head, bind, load, store_at. by rewrite H, H. Qed.

Lemma set_tail_live s a h t n v :
  live s !! a = Some (SQLNodeList h t n) ->
  set_tail (At a) v s
  = Done tt (mkStore (<[a := SQLNodeList h v n]> (live s)) (brk s)).
Proof. intros H. unfold set_tail, bind, load, store_at. by rewrite H, H. Qed.

Lemma set_size_live s a h t n v :
  live s !! a = Some (SQLNodeList h t n) ->
  set_size (At a) v s
  = Done tt (mkStore (<[a := SQLNodeList h t v]> (live s)) (brk s)).
Proof. intros H. unfold set_size, bind, load, store_at. by rewrite H, H. Qed.

Lemma set_next_live s c np nx v :
  live s !! c = Some (SQLLinkedNode np nx) ->
  set_next (At c) v s
  = Done tt (mkStore (<[c := SQLLinkedNode np v]> (live s)) (brk s)).
Proof. intros H. unfold set_next, bind, load, store_at. by rewrite H, H. Qed.

Lemma elements_live s a h t n k l :
  live s !! a = Some (SQLNodeList h t n) ->
  chain k (live s) h = Some l ->
  elements s (At a) = Some l.*2.
Proof.
  intros Ha Hl. unfold elements. rewrite (get_head_live _ _ _ _ _ Ha).
  unfold traverse. by rewrite (chain_size _ _ _ _ Hl).
Qed.

Lemma reported_size_live s a h t n :
  live s !! a = Some (SQLNodeList h t n) -> reported_size s (At a) = Some n.
Proof.
  intros Ha. unfold reported_size, Size. by rewrite (get_size_live _ _ _ _ _ Ha).
Qed.

(** [AppendNodeList] on a target without tail: the target adopts the head
    and the size of the source; its own chain is dropped. *)
Lemma AppendNodeList_adopts s a b ha na hb tb nb kb cb :
  a <> b ->
  live s !! a = Some (SQLNodeList ha NULL na) ->
  live s !! b = Some (SQLNodeList hb tb nb) ->
  chain kb (live s) hb = Some cb ->
  exists s',
    AppendNodeList (At a) (At b) s = Done tt s' /\
    live s' !! a = Some (SQLNodeList hb hb nb) /\
    live s' !! b = Some (SQLNodeList hb tb nb) /\
    chain kb (live s') hb = Some cb.
Proof.
  intros Hab Ha Hb Hcb.
  unfold AppendNodeList. rewrite decide_False by done.
  unfold bind at 1. rewrite (get_tail_live _ _ _ _ _ Ha).
  rewrite decide_True by done.
  unfold bind at 1. rewrite (get_head_live _ _ _ _ _ Hb).
  unfold bind at 1. rewrite (set_head_live _ _ _ _ _ _ Ha).
  set (s1 := mkStore _ _).
  assert (live s1 !! a = Some (SQLNodeList hb NULL na)) as Ha1
    by (subst s1; simpl; apply lookup_insert_eq).
  unfold bind at 1. rewrite (get_head_live _ _ _ _ _ Ha1).
  unfold bind at 1. rewrite (set_tail_live _ _ _ _ _ _ Ha1).
  set (s2 := mkStore _ _).
  assert (live s2 !! a = Some (SQLNodeList hb hb na)) as Ha2
    by (subst s2; simpl; apply lookup_insert_eq).
  assert (live s2 !! b = Some (SQLNodeList hb tb nb)) as Hb2
    by (subst s2 s1; simpl; by rewrite !lookup_insert_ne).
  unfold bind at 1. rewrite (get_size_live _ _ _ _ _ Hb2).
  rewrite (set_size_live _ _ _ _ _ _ Ha2).
  set (s3 := mkStore _ _).
  exists s3. split; [done|].
  split; [subst s3; simpl; apply lookup_insert_eq|].
  split; [subst s3; simpl; by rewrite lookup_insert_ne|].
  subst s3 s2 s1; simpl.
  apply chain_insert_list; [|rewrite lookup_insert_eq; eauto].
  apply chain_insert_list; [|rewrite lookup_insert_eq; eauto].
  apply chain_insert_list; eauto.
Qed.

(** [AppendNodeList] on a target whose tail is the cell [t] of its chain:
    the chain of the source follows [t]; the cells [l2] that followed [t]
    are unlinked. *)
Lemma AppendNodeList_links s a b ha t na hb tb nb ka l1 np l2 kb cb :
  a <> b ->
  live s !! a = Some (SQLNodeList ha (At t) na) ->
  live s !! b = Some (SQLNodeList hb tb nb) ->
  chain ka (live s) ha = Some (l1 ++ (t, np) :: l2) ->
  chain kb (live s) hb = Some cb ->
  t ∉ cb.*1 ->
  exists s',
    AppendNodeList (At a) (At b) s = Done tt s' /\
    live s' !! a = Some (SQLNodeList ha tb (wrap64 (na + nb))) /\
    live s' !! b = Some (SQLNodeList hb tb nb) /\
    chain kb (live s') hb = Some cb /\
    chain (length l1 + S kb) (live s') ha = Some (l1 ++ (t, np) :: cb).
Proof.
  intros Hab Ha Hb Hca Hcb Htb.
  assert (t ∈ (l1 ++ (t, np) :: l2).*1) as Hta.
  { rewrite fmap_app. apply elem_of_app. right. simpl. left. }
  destruct (chain_cells _ _ _ _ _ Hca Hta) as (np0 & nx & Ht).
  assert (np0 = np) as ->.
  { pose proof (chain_from_member _ _ _ _ _ _ _ Hca) as H'.
    apply chain_At_inv in H' as (? & ? & ? & ? & _ & Ht' & _ & [= <- _]).
    congruence. }
  assert (a <> t) as Hat by congruence.
  assert (b <> t) as Hbt by congruence.
  unfold AppendNodeList. rewrite decide_False by done.
  unfold bind at 1. rewrite (get_tail_live _ _ _ _ _ Ha).
  rewrite decide_False by done.
  unfold bind at 1. rewrite (get_head_live _ _ _ _ _ Hb).
  unfold bind at 1. rewrite (set_next_live _ _ _ _ _ Ht).
  set (s1 := mkStore _ _).
  assert (live s1 !! a = Some (SQLNodeList ha (At t) na)) as Ha1
    by (subst s1; simpl; by rewrite lookup_insert_ne).
  assert (live s1 !! b = Some (SQLNodeList hb tb nb)) as Hb1
    by (subst s1; simpl; by rewrite lookup_insert_ne).
  unfold bind at 1. rewrite (get_tail_live _ _ _ _ _ Hb1).
  unfold bind at 1. rewrite (set_tail_live _ _ _ _ _ _ Ha1).
  set (s2 := mkStore _ _).
  assert (live s2 !! a = Some (SQLNodeList ha tb na)) as Ha2
    by (subst s2; simpl; apply lookup_insert_eq).
  assert (live s2 !! b = Some (SQLNodeList hb tb nb)) as Hb2
    by (subst s2; simpl; by rewrite lookup_insert_ne).
  unfold bind at 1. rewrite (get_size_live _ _ _ _ _ Ha2).
  unfold bind at 1. rewrite (get_size_live _ _ _ _ _ Hb2).
  rewrite (set_size_live _ _ _ _ _ _ Ha2).
  set (s3 := mkStore _ _).
  pose proof (chain_splice _ _ _ _ _ _ _ _ _ _ Hca Hcb Htb) as Hsp.
  exists s3. split; [done|].
  split; [subst s3; simpl; apply lookup_insert_eq|].
  split; [subst s3; simpl; by rewrite lookup_insert_ne|].
  split; subst s3 s2 s1; simpl.
  - apply chain_insert_list; [|rewrite lookup_insert_eq; eauto].
    apply chain_insert_list; [|rewrite lookup_insert_ne by done; eauto].
    by apply chain_insert_notin.
  - apply chain_insert_list; [|rewrite lookup_insert_eq; eauto].
    apply chain_insert_list; [|rewrite lookup_insert_ne by done; eauto].
    done.
Qed.

Lemma SQLNodeList_new_sound s :
  live s !! brk s = None ->
  exists s', SQLNodeList_new s = Done (At (brk s)) s' /\
             sound_list s' (brk s) [] /\
             (forall c, c <> brk s -> live s' !! c = live s !! c).
Proof.
  intros Hfresh. eexists. split; [reflexivity|]. split.
  - exists NULL, 0. simpl. by rewrite lookup_insert_eq.
  - intros c Hc. simpl. by rewrite lookup_insert_ne.
Qed.

(** [PushFront] keeps a sound list sound. *)
Lemma PushFront_sound s a cells x :
  live s !! brk s = None ->
  sound_list s a cells ->
  (N.of_nat (S (length cells)) < 2 ^ 64)%N ->
  exists s',
    PushFront (At a) x s = Done tt s' /\
    sound_list s' a ((brk s, x) :: cells) /\
    reported_size s' (At a) = Some (N.of_nat (S (length cells))) /\
    elements s' (At a) = Some (x :: cells.*2).
Proof.
  intros Hfresh (h & k & Ha & Hch) Hlt.
  set (c := brk s).
  assert (a <> c) as Hac by (intros ->; subst c; congruence).
  assert (c ∉ cells.*1) as Hc.
  { intros Hin. destruct (chain_cells _ _ _ _ _ Hch Hin) as (? & ? & ?).
    subst c. congruence. }
  unfold PushFront, SQLLinkedNode_new.
  unfold bind at 1. unfold new. fold c.
  set (s1 := mkStore _ _).
  assert (live s1 !! a = Some (SQLNodeList h (last_cell cells)
                                 (N.of_nat (length cells)))) as Ha1
    by (subst s1; simpl; by rewrite lookup_insert_ne).
  assert (live s1 !! c = Some (SQLLinkedNode x NULL)) as Hc1
    by (subst s1; simpl; by rewrite lookup_insert_eq).
  unfold bind at 1. rewrite (get_head_live _ _ _ _ _ Ha1).
  unfold bind at 1. rewrite (set_next_live _ _ _ _ _ Hc1).
  set (s2 := mkStore _ _).
  assert (live s2 !! a = Some (SQLNodeList h (last_cell cells)
                                 (N.of_nat (length cells)))) as Ha2
    by (subst s2; simpl; by rewrite lookup_insert_ne).
  unfold bind at 1. rewrite (set_head_live _ _ _ _ _ _ Ha2).
  set (s3 := mkStore _ _).
  assert (live s3 !! a = Some (SQLNodeList (At c) (last_cell cells)
                                 (N.of_nat (length cells)))) as Ha3
    by (subst s3; simpl; by rewrite lookup_insert_eq).
  unfold bind at 1. rewrite (get_size_live _ _ _ _ _ Ha3).
  unfold bind at 1. rewrite (set_size_live _ _ _ _ _ _ Ha3).
  set (s4 := mkStore _ _).
  assert (wrap64 (N.of_nat (length cells) + 1) = N.of_nat (S (length cells)))
    as Hsz.
  { unfold wrap64. rewrite N.add_1_r, <- Nat2N.inj_succ.
    by apply N.mod_small. }
  assert (live s4 !! a = Some (SQLNodeList (At c) (last_cell cells)
                                 (N.of_nat (S (length cells))))) as Ha4
    by (subst s4; simpl; by rewrite lookup_insert_eq, Hsz).
  assert (forall m' , m' = live s4 \/ (exists t, m' = <[a := SQLNodeList (At c) t (N.of_nat (S (length cells)))]> (live s4)) ->
          chain (S k) m' (At c) = Some ((c, x) :: cells)) as Hchain.
  { assert (chain (S k) (live s4) (At c) = Some ((c, x) :: cells)) as H4.
    { subst s4 s3 s2 s1; simpl live.
      apply chain_insert_list; [|rewrite lookup_insert_eq; eauto].
      apply chain_insert_list;
        [|rewrite !lookup_insert_ne by done; eauto].
      eapply chain_At; [by rewrite lookup_insert_eq|].
      apply chain_insert_notin; [|done]. by apply chain_insert_notin. }
    intros m' [-> | (t & ->)]; [done|].
    apply chain_insert_list; eauto. }
  unfold bind at 1. rewrite (get_tail_live _ _ _ _ _ Ha4).
  destruct cells as [|cell0 cells'] eqn:Hcells.
  - (* the list was empty: the new cell is also the tail *)
    unfold last_cell at 1. simpl last. rewrite decide_True by done.
    unfold bind at 1. rewrite (get_head_live _ _ _ _ _ Ha4).
    rewrite (set_tail_live _ _ _ _ _ _ Ha4).
    set (s5 := mkStore _ _).
    assert (live s5 !! a = Some (SQLNodeList (At c) (At c) 1)) as Ha5
      by (subst s5; simpl; by rewrite lookup_insert_eq).
    assert (chain (S k) (live s5) (At c) = Some [(c, x)]) as Hch5
      by (subst s5; simpl; apply Hchain; right; eauto).
    exists s5. split; [done|]. split; [by exists (At c), (S k)|].
    split; [by rewrite (reported_size_live _ _ _ _ _ Ha5)|].
    by rewrite (elements_live _ _ _ _ _ _ _ Ha5 Hch5).
  - assert (last_cell (cell0 :: cells') <> NULL) as Hne.
    { unfold last_cell. destruct (last (cell0 :: cells')) as [[]|] eqn:E; [done|].
      by apply last_None in E. }
    rewrite decide_False by done.
    assert (last_cell ((c, x) :: cell0 :: cells') = last_cell (cell0 :: cells'))
      as Hlast by done.
    exists s4. split; [done|].
    split; [exists (At c), (S k); rewrite Hlast; split; [done|apply Hchain; by left]|].
    split; [by rewrite (reported_size_live _ _ _ _ _ Ha4)|].
    rewrite (elements_live _ _ _ _ _ _ _ Ha4 (Hchain _ (or_introl eq_refl))).
    done.
Qed.

(** On sound lists whose cells are apart, [AppendNodeList] concatenates. *)
Lemma AppendNodeList_sound_concatenates s a b ca cb :
  a <> b ->
  sound_list s a ca ->
  sound_list s b cb ->
  (forall c, c ∈ ca.*1 -> c ∉ cb.*1) ->
  (N.of_nat (length ca + length cb) < 2 ^ 64)%N ->
  exists s',
    AppendNodeList (At a) (At b) s = Done tt s' /\
    reported_size s' (At a) = Some (N.of_nat (length ca + length cb)) /\
    elements s' (At a) = Some (ca.*2 ++ cb.*2) /\
    (ca <> [] -> cb <> [] -> sound_list s' a (ca ++ cb)).
Proof.
  intros Hab (ha & ka & Ha & Hca) (hb & kb & Hb & Hcb) Hdisj Hlt.
  destruct (decide (ca = [])) as [-> | Hne].
  - destruct (AppendNodeList_adopts _ _ _ _ _ _ _ _ _ _ Hab Ha Hb Hcb)
      as (s' & Hrun & Ha' & _ & Hch).
    exists s'. split; [done|].
    rewrite (reported_size_live _ _ _ _ _ Ha'),
            (elements_live _ _ _ _ _ _ _ Ha' Hch). done.
  - destruct (exists_last Hne) as (l1 & [t np] & ->).
    assert (last_cell (l1 ++ [(t, np)]) = At t) as Hlast
      by (unfold last_cell; by rewrite last_snoc).
    rewrite Hlast in Ha.
    assert (t ∉ cb.*1) as Hnin.
    { apply Hdisj. rewrite fmap_app. apply elem_of_app. right. simpl. left. }
    destruct (AppendNodeList_links _ _ _ _ _ _ _ _ _ _ _ _ _ _ _ Hab Ha Hb Hca Hcb Hnin)
      as (s' & Hrun & Ha' & _ & _ & Hch).
    assert (wrap64 (N.of_nat (length (l1 ++ [(t, np)])) + N.of_nat (length cb))
            = N.of_nat (length (l1 ++ [(t, np)]) + length cb)) as Hsz.
    { unfold wrap64. rewrite <- Nat2N.inj_add. apply N.mod_small, Hlt. }
    rewrite Hsz in Ha'.
    exists s'. split; [done|].
    rewrite (reported_size_live _ _ _ _ _ Ha'),
            (elements_live _ _ _ _ _ _ _ Ha' Hch).
    split; [done|]. split; [by rewrite !fmap_app, <- app_assoc|].
    intros _ Hcb_ne. exists ha, (length l1 + S kb).
    rewrite <- app_assoc. simpl. split; [|done].
    rewrite Ha'. f_equal. f_equal.
    + unfold last_cell. destruct (exists_last Hcb_ne) as (l2 & [t2 np2] & ->).
      rewrite last_snoc.
      replace (l1 ++ (t, np) :: l2 ++ [(t2, np2)])
        with ((l1 ++ (t, np) :: l2) ++ [(t2, np2)])
        by (by rewrite <- app_assoc).
      by rewrite last_snoc.
    + rewrite !length_app. simpl. f_equal. lia.
Qed.

(** ** Lists built by front insertion *)

Lemma fresh_store_empty : fresh_store empty_store.
Proof. intros q _. apply lookup_empty. Qed.

Lemma fresh_store_brk s : fresh_store s -> live s !! brk s = None.
Proof. intros H. apply H. lia. Qed.

Lemma fresh_store_live s a o : fresh_store s -> live s !! a = Some o -> (a < brk s)%positive.
Proof.
  intros H Ha. destruct (decide (a < brk s)%positive) as [|Hge]; [done|].
  rewrite H in Ha by lia. discriminate.
Qed.

(** [PushFront] on a sound list in a fresh store: the other sound lists
    stay sound, the store stays fresh, the new cell is the old break. *)
Lemma PushFront_frame s a cells x s' :
  fresh_store s ->
  sound_list s a cells ->
  PushFront (At a) x s = Done tt s' ->
  fresh_store s' /\ brk s' = Pos.succ (brk s) /\
  (forall a' cells', a' <> a -> sound_list s a' cells' -> sound_list s' a' cells').
Proof.
  intros Hfresh (h & k & Ha & Hch).
  pose proof (fresh_store_brk _ Hfresh) as Hbrk.
  set (c := brk s) in *.
  assert (a <> c) as Hac by (intros ->; congruence).
  unfold PushFront, SQLLinkedNode_new.
  unfold bind at 1. unfold new. fold c.
  set (s1 := mkStore _ _).
  assert (live s1 !! a = Some (SQLNodeList h (last_cell cells)
                                 (N.of_nat (length cells)))) as Ha1
    by (subst s1; simpl; by rewrite lookup_insert_ne).
  assert (live s1 !! c = Some (SQLLinkedNode x NULL)) as Hc1
    by (subst s1; simpl; by rewrite lookup_insert_eq).
  unfold bind at 1. rewrite (get_head_live _ _ _ _ _ Ha1).
  unfold bind at 1. rewrite (set_next_live _ _ _ _ _ Hc1).
  set (s2 := mkStore _ _).
  assert (live s2 !! a = Some (SQLNodeList h (last_cell cells)
                                 (N.of_nat (length cells)))) as Ha2
    by (subst s2; simpl; by rewrite lookup_insert_ne).
  unfold bind at 1. rewrite (set_head_live _ _ _ _ _ _ Ha2).
  set (s3 := mkStore _ _).
  assert (live s3 !! a = Some (SQLNodeList (At c) (last_cell cells)
                                 (N.of_nat (length cells)))) as Ha3
    by (subst s3; simpl; by rewrite lookup_insert_eq).
  unfold bind at 1. rewrite (get_size_live _ _ _ _ _ Ha3).
  unfold bind at 1. rewrite (set_size_live _ _ _ _ _ _ Ha3).
  set (s4 := mkStore _ _).
  assert (live s4 !! a = Some (SQLNodeList (At c) (last_cell cells)
                                 (wrap64 (N.of_nat (length cells) + 1)))) as Ha4
    by (subst s4; simpl; by rewrite lookup_insert_eq).
  unfold bind at 1. rewrite (get_tail_live _ _ _ _ _ Ha4).
  assert (forall s5 : store,
             brk s5 = Pos.succ c ->
             (forall q, q <> a -> q <> c -> live s5 !! q = live s !! q) ->
             fresh_store s5 /\ brk s5 = Pos.succ c /\
             (forall a' cells', a' <> a -> sound_list s a' cells' ->
                                sound_list s5 a' cells')) as Hframe.
  { intros s5 Hb Hsame. split; [|split].
    - intros q Hl. rewrite Hb in Hl.
      rewrite Hsame; [apply Hfresh; fold c; lia | | lia].
      intros ->. apply (fresh_store_live _ _ _ Hfresh) in Ha. fold c in Ha. lia.
    - done.
    - intros a' cells' Hne (h' & k' & Ha' & Hch').
      assert (a' <> c) as Hac' by (intros ->; congruence).
      exists h', k'. rewrite Hsame by done. split; [done|].
      clear Ha'. revert h' Hch'. generalize cells'.
      induction k' as [|k' IH]; intros cs h' Hch'.
      + destruct h'; simpl in *; done.
      + destruct h' as [| |c']; [done | discriminate |].
        apply chain_At_inv in Hch' as (k0 & np & nx & l' & [= <-] & Hc' & Hl & ->).
        eapply chain_At; [|by apply IH].
        rewrite Hsame; [done | congruence | congruence]. }
  destruct (decide (NULL = last_cell cells)).
  - unfold bind at 1. rewrite (get_head_live _ _ _ _ _ Ha4).
    rewrite (set_tail_live _ _ _ _ _ _ Ha4).
    intros [= <-]. apply Hframe; [done|].
    intros q Hla Hlc. simpl. by rewrite !lookup_insert_ne.
  - intros [= <-]. apply Hframe; [done|].
    intros q Hla Hlc. simpl. by rewrite !lookup_insert_ne.
Qed.

(** The list that [push_all] leaves: the elements [xs], front to back. *)
Lemma push_all_sound xs : forall s a cells,
  fresh_store s ->
  sound_list s a cells ->
  (N.of_nat (length xs + length cells) < 2 ^ 64)%N ->
  exists s' new_cells,
    push_all (At a) xs s = Done tt s' /\
    sound_list s' a (new_cells ++ cells) /\
    new_cells.*2 = xs /\
    (forall c, c ∈ new_cells.*1 -> (brk s <= c < brk s')%positive) /\
    fresh_store s' /\ (brk s <= brk s')%positive /\
    (forall a' cells', a' <> a -> sound_list s a' cells' -> sound_list s' a' cells').
Proof.
  induction xs as [|x xs IH]; intros s a cells Hfresh Hsound Hlt.
  - exists s, []. simpl.
    split; [done|]. split; [done|]. split; [done|].
    split; [intros c' []%elem_of_nil|]. split; [done|]. split; [lia|done].
  - simpl in Hlt.
    destruct (IH s a cells Hfresh Hsound) as
      (s1 & cs & Hrun & Hsound1 & Hcs & Hrange & Hfresh1 & Hle1 & Hframe1); [lia|].
    destruct (PushFront_sound s1 a (cs ++ cells) x) as
      (s2 & Hpush & Hsound2 & _ & _).
    { by apply fresh_store_brk. }
    { done. }
    { rewrite length_app. apply (f_equal (@length _)) in Hcs.
      rewrite length_fmap in Hcs. lia. }
    destruct (PushFront_frame _ _ _ _ _ Hfresh1 Hsound1 Hpush)
      as (Hfresh2 & Hbrk2 & Hframe2).
    exists s2, ((brk s1, x) :: cs). simpl. unfold bind. rewrite Hrun.
    split; [done|]. split; [done|].
    split; [f_equal; exact Hcs|].
    split; [|split; [done|split; [lia|]]].
    + intros c' [->|Hc]%elem_of_cons.
      * rewrite Hbrk2. lia.
      * apply Hrange in Hc. lia.
    + intros a' cells' Hne Hs. by apply Hframe2, Hframe1.
Qed.

Lemma SQLNodeList_new_fresh s :
  fresh_store s ->
  exists s',
    SQLNodeList_new s = Done (At (brk s)) s' /\
    sound_list s' (brk s) [] /\
    fresh_store s' /\ brk s' = Pos.succ (brk s) /\
    (forall a' cells', sound_list s a' cells' -> sound_list s' a' cells').
Proof.
  intros Hfresh. eexists. split; [reflexivity|]. simpl.
  split; [exists NULL, 0; simpl; by rewrite lookup_insert_eq|].
  split; [|split; [done|]].
  - intros q Hl. simpl in *. rewrite lookup_insert_ne by lia.
    apply Hfresh. lia.
  - intros a' cells' (h' & k' & Ha' & Hch').
    assert (a' <> brk s) as Hne.
    { intros ->. rewrite (fresh_store_brk _ Hfresh) in Ha'. discriminate. }
    exists h', k'. simpl. rewrite lookup_insert_ne by done. split; [done|].
    apply chain_insert_notin; [done|].
    intros Hin. destruct (chain_cells _ _ _ _ _ Hch' Hin) as (? & ? & Hc).
    rewrite (fresh_store_brk _ Hfresh) in Hc. discriminate.
Qed.

(** [list_of xs] builds a sound list of the elements [xs]. *)
Lemma list_of_sound xs s :
  fresh_store s ->
  (N.of_nat (length xs) < 2 ^ 64)%N ->
  exists s' a cells,
    list_of xs s = Done (At a) s' /\
    sound_list s' a cells /\
    cells.*2 = xs /\
    (brk s <= a < brk s')%positive /\
    (forall c, c ∈ cells.*1 -> (brk s <= c < brk s')%positive) /\
    fresh_store s' /\
    (forall a' cells', sound_list s a' cells' -> sound_list s' a' cells').
Proof.
  intros Hfresh Hlt.
  destruct (SQLNodeList_new_fresh s Hfresh)
    as (s0 & Hnew & Hsound0 & Hfresh0 & Hbrk0 & Hframe0).
  destruct (push_all_sound xs s0 (brk s) [] Hfresh0 Hsound0)
    as (s1 & cs & Hrun & Hsound1 & Hcs & Hrange & Hfresh1 & Hle1 & Hframe1).
  { simpl. by rewrite Nat.add_0_r. }
  rewrite app_nil_r in Hsound1.
  exists s1, (brk s), cs. unfold list_of, bind. rewrite Hnew, Hrun.
  split; [done|]. split; [done|]. split; [done|].
  split; [lia|]. split; [intros c Hc; apply Hrange in Hc; lia|].
  split; [done|].
  intros a' cells' Hs. apply Hframe1; [|by apply Hframe0].
  intros ->. destruct Hs as (? & ? & Ha' & _).
  rewrite (fresh_store_brk _ Hfresh) in Ha'. discriminate.
Qed.

(** Two lists built by [PushFront], the second appended onto the first:
    the size is the sum and the elements of the first are followed by the
    elements of the second. *)
Lemma append_of_built_lists xs ys s :
  fresh_store s ->
  (N.of_nat (length xs + length ys) < 2 ^ 64)%N ->
  exists s' a,
    append_of xs ys s = Done (At a) s' /\
    reported_size s' (At a) = Some (N.of_nat (length xs + length ys)) /\
    elements s' (At a) = Some (xs ++ ys).
Proof.
  intros Hfresh Hlt.
  destruct (list_of_sound xs s Hfresh)
    as (s1 & a & ca & Hrun1 & Hsa & Hca & Ha & Hcells_a & Hfresh1 & _); [lia|].
  destruct (list_of_sound ys s1 Hfresh1)
    as (s2 & b & cb & Hrun2 & Hsb & Hcb & Hb & Hcells_b & Hfresh2 & Hframe2); [lia|].
  apply Hframe2 in Hsa.
  assert (length ca = length xs) as Hla by (by rewrite <- Hca, length_fmap).
  assert (length cb = length ys) as Hlb by (by rewrite <- Hcb, length_fmap).
  destruct (AppendNodeList_sound_concatenates s2 a b ca cb)
    as (s3 & Hrun3 & Hsize & Hel & _); [lia | done | done | | lia |].
  { intros c Hc Hc'. apply Hcells_a in Hc. apply Hcells_b in Hc'. lia. }
  exists s3, a. unfold append_of, bind. rewrite Hrun1, Hrun2, Hrun3.
  split; [done|]. by rewrite Hsize, Hel, Hla, Hlb, Hca, Hcb.
Qed.

(** ** The source of an append *)

(** Appending an absent list does nothing. *)
Lemma AppendNodeList_null_source s this :
  AppendNodeList this NULL s = Done tt s.
Proof. reflexivity. Qed.

(** The list object of the source is not written, whenever the call
    completes. *)
Lemma AppendNodeList_source_object s a b hb tb nb s' :
  a <> b ->
  live s !! b = Some (SQLNodeList hb tb nb) ->
  AppendNodeList (At a) (At b) s = Done tt s' ->
  live s' !! b = Some (SQLNodeList hb tb nb).
Proof.
  intros Hab Hb. unfold AppendNodeList. rewrite decide_False by done.
  unfold bind at 1.
  destruct (live s !! a) as [oa|] eqn:Ha;
    [|unfold get_tail, bind, load; simpl; rewrite Ha; discriminate].
  destruct oa as [| | | | | | | | |ha ta na];
    try (unfold get_tail, bind, load; simpl; rewrite Ha; discriminate).
  rewrite (get_tail_live _ _ _ _ _ Ha).
  destruct (decide (NULL = ta)) as [<-|Hta].
  - unfold bind at 1. rewrite (get_head_live _ _ _ _ _ Hb).
    unfold bind at 1. rewrite (set_head_live _ _ _ _ _ _ Ha).
    set (s1 := mkStore _ _).
    assert (live s1 !! a = Some (SQLNodeList hb NULL na)) as Ha1
      by (subst s1; simpl; apply lookup_insert_eq).
    unfold bind at 1. rewrite (get_head_live _ _ _ _ _ Ha1).
    unfold bind at 1. rewrite (set_tail_live _ _ _ _ _ _ Ha1).
    set (s2 := mkStore _ _).
    assert (live s2 !! a = Some (SQLNodeList hb hb na)) as Ha2
      by (subst s2; simpl; apply lookup_insert_eq).
    assert (live s2 !! b = Some (SQLNodeList hb tb nb)) as Hb2
      by (subst s2 s1; simpl; by rewrite !lookup_insert_ne).
    unfold bind at 1. rewrite (get_size_live _ _ _ _ _ Hb2).
    rewrite (set_size_live _ _ _ _ _ _ Ha2).
    intros [= <-]. simpl. by rewrite lookup_insert_ne.
  - unfold bind at 1. rewrite (get_head_live _ _ _ _ _ Hb).
    unfold bind at 1.
    destruct ta as [| |t]; [done | discriminate |].
    destruct (live s !! t) as [ot|] eqn:Ht;
      [|unfold set_next, bind, load; simpl; rewrite Ht; discriminate].
    destruct ot as [| | | | | | | |np nx|];
      try (unfold set_next, bind, load; simpl; rewrite Ht; discriminate).
    assert (a <> t) as Hat by congruence.
    assert (b <> t) as Hbt by congruence.
    rewrite (set_next_live _ _ _ _ _ Ht).
    set (s1 := mkStore _ _).
    assert (live s1 !! a = Some (SQLNodeList ha (At t) na)) as Ha1
      by (subst s1; simpl; by rewrite lookup_insert_ne).
    assert (live s1 !! b = Some (SQLNodeList hb tb nb)) as Hb1
      by (subst s1; simpl; by rewrite lookup_insert_ne).
    unfold bind at 1. rewrite (get_tail_live _ _ _ _ _ Hb1).
    unfold bind at 1. rewrite (set_tail_live _ _ _ _ _ _ Ha1).
    set (s2 := mkStore _ _).
    assert (live s2 !! a = Some (SQLNodeList ha tb na)) as Ha2
      by (subst s2; simpl; apply lookup_insert_eq).
    assert (live s2 !! b = Some (SQLNodeList hb tb nb)) as Hb2
      by (subst s2; simpl; by rewrite lookup_insert_ne).
    unfold bind at 1. rewrite (get_size_live _ _ _ _ _ Ha2).
    unfold bind at 1. rewrite (get_size_live _ _ _ _ _ Hb2).
    rewrite (set_size_live _ _ _ _ _ _ Ha2).
    intros [= <-]. simpl. by rewrite lookup_insert_ne.
Qed.

(** C10, amended.  [AppendNodeList] with target [a] and a distinct source
    [b] leaves the list object [b] as it was: whenever the call completes,
    the [size_] and the [head_] of [b] are the same before and after.  When
    the traversals of both lists end and the tail of the target is null or
    a cell of the target's chain that is not a cell of the source's chain,
    the call completes, the elements met from the head of [b] are the same
    before and after, and they are met from the head of [a] as well, as
    its last elements. *)
Theorem AppendNodeList_keeps_source s a b hb tb nb :
  a <> b ->
  live s !! b = Some (SQLNodeList hb tb nb) ->
  (forall s',
      AppendNodeList (At a) (At b) s = Done tt s' ->
      live s' !! b = live s !! b /\
      reported_size s' (At b) = reported_size s (At b) /\
      GetHead (At b) s = Done hb s /\
      GetHead (At b) s' = Done hb s') /\
  (forall ha ta na ka ca kb cb,
      live s !! a = Some (SQLNodeList ha ta na) ->
      chain ka (live s) ha = Some ca ->
      chain kb (live s) hb = Some cb ->
      (ta = NULL \/ exists t, ta = At t /\ t ∈ ca.*1 /\ t ∉ cb.*1) ->
      exists s',
        AppendNodeList (At a) (At b) s = Done tt s' /\
        elements s' (At b) = elements s (At b) /\
        elements s (At b) = Some cb.*2 /\
        exists pre, elements s' (At a) = Some (pre ++ cb.*2)).
Proof.
  intros Hab Hb. split.
  - intros s' Hrun.
    pose proof (AppendNodeList_source_object _ _ _ _ _ _ _ Hab Hb Hrun) as Hb'.
    split; [congruence|].
    split; [by rewrite (reported_size_live _ _ _ _ _ Hb'),
                       (reported_size_live _ _ _ _ _ Hb)|].
    split; [by apply get_head_live in Hb | by apply get_head_live in Hb'].
  - intros ha ta na ka ca kb cb Ha Hca Hcb Htail.
    assert (elements s (At b) = Some cb.*2) as Hel by (by eapply elements_live).
    destruct Htail as [-> | (t & -> & Hta & Htb)].
    + destruct (AppendNodeList_adopts _ _ _ _ _ _ _ _ _ _ Hab Ha Hb Hcb)
        as (s' & Hrun & Ha' & Hb' & Hch).
      exists s'. split; [done|]. rewrite Hel.
      split; [by eapply elements_live|]. split; [done|].
      exists []. by eapply elements_live.
    + apply list_elem_of_fmap in Hta as ([t' np] & Heq & Hin).
      simpl in Heq. subst t'.
      apply list_elem_of_split in Hin as (l1 & l2 & ->).
      destruct (AppendNodeList_links _ _ _ _ _ _ _ _ _ _ _ _ _ _ _
                  Hab Ha Hb Hca Hcb Htb)
        as (s' & Hrun & Ha' & Hb' & Hchb & Hcha).
      exists s'. split; [done|]. rewrite Hel.
      split; [by eapply elements_live|]. split; [done|].
      exists (l1.*2 ++ [np]).
      rewrite (elements_live _ _ _ _ _ _ _ Ha' Hcha).
      by rewrite fmap_app, fmap_cons, <- app_assoc.
Qed.

Lemma AppendNodeList_keeps_source_witness :
  (forall s',
      AppendNodeList (At 4) (At 6) (final_store two_lists) = Done tt s' ->
      live s' !! 6%positive = live (final_store two_lists) !! 6%positive /\
      reported_size s' (At 6) = reported_size (final_store two_lists) (At 6) /\
      GetHead (At 6) (final_store two_lists)
        = Done (At 8) (final_store two_lists) /\
      GetHead (At 6) s' = Done (At 8) s') /\
  exists s',
    AppendNodeList (At 4) (At 6) (final_store two_lists) = Done tt s' /\
    elements s' (At 6) = elements (final_store two_lists) (At 6) /\
    elements (final_store two_lists) (At 6) = Some [At 2; At 3] /\
    exists pre, elements s' (At 4) = Some (pre ++ [At 2; At 3]).
Proof.
  destruct (AppendNodeList_keeps_source (final_store two_lists) 4 6
              (At 8) (At 7) 2) as [Hobject Htraversal].
  - discriminate.
  - vm_compute. reflexivity.
  - split; [exact Hobject|].
    apply (Htraversal (At 5) (At 5) 1%N 1 [(5%positive, At 1)] 2
             [(8%positive, At 2); (7%positive, At 3)]).
    + vm_compute. reflexivity.
    + vm_compute. reflexivity.
    + vm_compute. reflexivity.
    + right. exists 5%positive. split; [reflexivity|].
      split; compute_done.
Defined.

(** C10 fails as stated.  [B = {n1, n2}] is built by [PushFront] and a new
    list [A] adopts it.  When [B] is appended onto [A] once more, the
    [size_] and the [head_] of [B] are the same before and after, but the
    head cell is linked to itself: from the head of [B], and of [A], no
    number of steps reaches the null pointer, and no traversal yields
    [n1, n2] any more.  When [B] is appended onto itself, its [size_] goes
    from 2 to 4. *)
Lemma AppendNodeList_again_breaks_source :
  exists s a b n1 n2 h s1 s2,
    adopt_source empty_store = Done (a, b, (n1, n2)) s /\
    a <> b /\
    reported_size s b = Some 2%N /\ GetHead b s = Done h s /\
    elements s b = Some [n1; n2] /\ elements s a = Some [n1; n2] /\
    AppendNodeList a b s = Done tt s1 /\
    reported_size s1 b = Some 2%N /\ GetHead b s1 = Done h s1 /\
    (forall k, chain k (live s1) h = None) /\
    elements s1 b = None /\ elements s1 a = None /\
    AppendNodeList b b s = Done tt s2 /\
    reported_size s2 b = Some 4%N.
Proof.
  do 8 eexists. split; [vm_compute; reflexivity|].
  split; [discriminate|].
  do 4 (split; [vm_compute; reflexivity|]).
  split; [vm_compute; reflexivity|].
  do 2 (split; [vm_compute; reflexivity|]).
  split.
  { induction k as [|k IH]; [reflexivity|].
    cbn [chain].
    match goal with
    | |- context [live ?s !! ?l] =>
        replace (live s !! l) with (Some (SQLLinkedNode (At 1) (At l)))
          by (vm_compute; reflexivity)
    end.
    cbn [option_map]. by rewrite IH. }
  do 2 (split; [vm_compute; reflexivity|]).
  split; vm_compute; reflexivity.
Qed.

(** ** Sequences of appends that lose elements *)

(** A target that is not empty loses its tail when an empty list is
    appended, whatever the two lists are. *)
Lemma AppendNodeList_empty_source_clears_tail s a e ca :
  a <> e ->
  sound_list s a ca -> ca <> [] ->
  sound_list s e [] ->
  (N.of_nat (length ca) < 2 ^ 64)%N ->
  exists s',
    AppendNodeList (At a) (At e) s = Done tt s' /\
    tail_field s (At a) = Some (last_cell ca) /\
    last_cell ca <> NULL /\
    tail_field s' (At a) = Some NULL /\
    reported_size s' (At a) = reported_size s (At a) /\
    elements s' (At a) = elements s (At a).
Proof.
  intros Hae (ha & ka & Ha & Hca) Hne (he & ke & He & Hce) Hlt.
  destruct (exists_last Hne) as (l1 & [t np] & ->).
  assert (last_cell (l1 ++ [(t, np)]) = At t) as Hlast
    by (unfold last_cell; by rewrite last_snoc).
  rewrite Hlast in *.
  destruct (AppendNodeList_links _ _ _ _ _ _ _ _ _ _ _ _ _ _ _
              Hae Ha He Hca Hce) as (s' & Hrun & Ha' & _ & _ & Hch).
  { simpl. apply not_elem_of_nil. }
  exists s'. split; [done|].
  unfold tail_field.
  rewrite (get_tail_live _ _ _ _ _ Ha), (get_tail_live _ _ _ _ _ Ha').
  rewrite (reported_size_live _ _ _ _ _ Ha), (reported_size_live _ _ _ _ _ Ha').
  rewrite (elements_live _ _ _ _ _ _ _ Ha Hca), (elements_live _ _ _ _ _ _ _ Ha' Hch).
  repeat split; try done.
  f_equal. simpl. unfold wrap64. rewrite N.add_0_r.
  by apply N.mod_small.
Qed.

(** An empty target that adopts a sound list of two elements or more is
    left with its head cell as tail, which is not the last cell. *)
Lemma AppendNodeList_adoption_tail_is_head s a b c1 c2 cb :
  a <> b ->
  sound_list s a [] ->
  sound_list s b (c1 :: c2 :: cb) ->
  exists s',
    AppendNodeList (At a) (At b) s = Done tt s' /\
    tail_field s' (At a) = Some (At c1.1) /\
    last_cell (c1 :: c2 :: cb) <> At c1.1 /\
    elements s' (At a) = Some (c1 :: c2 :: cb).*2.
Proof.
  intros Hab (ha & ka & Ha & Hca) (hb & kb & Hb & Hcb).
  destruct (AppendNodeList_adopts _ _ _ _ _ _ _ _ _ _ Hab Ha Hb Hcb)
    as (s' & Hrun & Ha' & _ & Hch).
  destruct c1 as [c1 np1]. simpl.
  assert (hb = At c1) as ->.
  { destruct hb as [| |c]; [destruct kb; discriminate..|].
    apply chain_At_inv in Hcb as (? & ? & ? & ? & _ & _ & _ & [= -> _ _]).
    done. }
  exists s'. split; [done|]. unfold tail_field.
  rewrite (get_tail_live _ _ _ _ _ Ha').
  rewrite (elements_live _ _ _ _ _ _ _ Ha' Hch).
  split; [done|]. split; [|done].
  pose proof (chain_NoDup _ _ _ _ Hch) as Hnd.
  destruct (exists_last (l := c2 :: cb)) as (l2 & [t np] & Heq); [done|].
  unfold last_cell. rewrite Heq, app_comm_cons, last_snoc.
  intros [= ->]. rewrite Heq in Hnd. simpl in Hnd.
  apply NoDup_cons in Hnd as [Hnd _]. apply Hnd.
  rewrite fmap_app. apply elem_of_app. right. simpl. left.
Qed.

(** C1.  [B = {n1, n2}] and [C = {n3}] are built by [PushFront] and an
    empty list [A] adopts [B]: [A] reports size 2 and its traversal yields
    [n1, n2].  Appending [C] (size 1, traversal [n3]) onto [A] leaves a
    reported size of 3, but the traversal of [A] yields [n1, n3]: the
    element [n2] of [A] is gone, where [n1, n2, n3] is expected. *)
Theorem AppendNodeList_after_adoption_drops_elements :
  exists s a c n1 n2 n3 s',
    adopt_two empty_store = Done (a, c, (n1, n2, n3)) s /\
    reported_size s a = Some 2%N /\ elements s a = Some [n1; n2] /\
    reported_size s c = Some 1%N /\ elements s c = Some [n3] /\
    AppendNodeList a c s = Done tt s' /\
    reported_size s' a = Some 3%N /\ elements s' a = Some [n1; n3] /\
    n2 <> n3.
Proof.
  do 7 eexists. split; [vm_compute; reflexivity|].
  repeat split; try (vm_compute; reflexivity). discriminate.
Qed.

(** C2.  After the sequence create empty, [AppendNodeList] of a list of two
    elements, [AppendNodeList] of a list of one element, the list reports
    size 3 while two elements are reachable from its head. *)
Theorem reported_size_exceeds_traversal :
  exists s a n1 n2 n3,
    adopt_two_append_one empty_store = Done (a, (n1, n2, n3)) s /\
    reported_size s a = Some 3%N /\
    elements s a = Some [n1; n3] /\
    option_map (fun xs => N.of_nat (length xs)) (elements s a) = Some 2%N.
Proof.
  do 5 eexists. split; [vm_compute; reflexivity|].
  repeat split; vm_compute; reflexivity.
Qed.

(** C7.  [A = {x}] is built by [PushFront]; its [tail_] is its one cell.
    Appending the empty list [E] keeps the size 1 and the traversal [x] of
    [A] but sets its [tail_] to null: the state of the target has changed.
    The next append, of [D = {y}], then takes [A] for an empty list: [A]
    reports size 1 and its traversal yields [y] alone. *)
Theorem AppendNodeList_of_empty_list_clears_tail :
  exists s a e d x y cell s1 s2,
    one_and_empty empty_store = Done (a, e, d, (x, y)) s /\
    reported_size s a = Some 1%N /\ elements s a = Some [x] /\
    tail_field s a = Some (At cell) /\
    reported_size s e = Some 0%N /\ elements s e = Some [] /\
    AppendNodeList a e s = Done tt s1 /\
    reported_size s1 a = Some 1%N /\ elements s1 a = Some [x] /\
    tail_field s1 a = Some NULL /\
    AppendNodeList a d s1 = Done tt s2 /\
    reported_size s2 a = Some 1%N /\ elements s2 a = Some [y].
Proof.
  do 9 eexists. split; [vm_compute; reflexivity|].
  repeat split; vm_compute; reflexivity.
Qed.

(** ** Destruction *)

(** C8.  A result target built by [ResTarget(name, val)] cannot be
    destroyed: its destructor deletes the member [indirection_], which that
    constructor leaves indeterminate.  For every store, every [val] and
    every bound on the nesting the deletion does not complete, and for
    [new ResTarget(name, new ConstNode(1))] it is undefined. *)
Theorem delete_result_target_is_undefined :
  (forall s val fuel s',
      (let* p := ResTarget_new_val val in delete_node fuel p) s <> Done tt s') /\
  (let* p := result_target in delete_node 2 p) empty_store = Undefined.
Proof.
  split; [|reflexivity].
  intros s val fuel s'. unfold ResTarget_new_val, new, bind.
  destruct fuel as [|fuel]; [discriminate|].
  cbn [delete_node]. unfold bind, load. simpl. rewrite lookup_insert_eq.
  destruct (delete_node fuel val _) as [[] s1| |]; try discriminate.
  destruct fuel; discriminate.
Qed.

(** A select statement whose tree holds no result target is destroyed
    whole: every one of its 18 objects is released, none twice. *)
Lemma delete_windowed_select_frees_all :
  exists stmt s,
    windowed_select empty_store = Done stmt s /\
    size (live s) = 18 /\
    delete_node 12 stmt s = Done tt (mkStore ∅ (brk s)).
Proof.
  do 2 eexists. split; [vm_compute; reflexivity|].
  split; vm_compute; reflexivity.
Qed.

(** After an adoption and a second append the destructor of the list
    leaves the element [n2] allocated. *)
Lemma delete_after_two_appends_leaks :
  exists s a n1 n2 n3 s',
    adopt_two_append_one empty_store = Done (a, (n1, n2, n3)) s /\
    delete_list 8 a s = Done tt s' /\
    is_Some (live s' !! 2%positive) /\ n2 = At 2.
Proof.
  do 6 eexists. split; [vm_compute; reflexivity|].
  split; [vm_compute; reflexivity|]. split; [|reflexivity].
  vm_compute. eauto.
Qed.

End ListFacts.

(** * Properties of the destructors *)

Section DestructionFacts.
Import Store.
Implicit Types (m : gmap positive object) (F : list positive).

Lemma remove_all_app F1 F2 m :
  remove_all (F1 ++ F2) m = remove_all F2 (remove_all F1 m).
Proof. unfold remove_all. apply foldl_app. Qed.

Lemma lookup_remove_all F m a :
  remove_all F m !! a = if decide (a ∈ F) then None else m !! a.
Proof.
  revert m. induction F as [|x F IH]; intros m.
  - rewrite decide_False; [done|]. apply not_elem_of_nil.
  - change (remove_all (x :: F) m) with (remove_all F (delete x m)).
    rewrite IH. destruct (decide (a ∈ F)) as [Hin|Hnin].
    + rewrite decide_True; [done|]. by right.
    + destruct (decide (a = x)) as [->|Hne].
      * rewrite decide_True by left. apply lookup_delete_eq.
      * rewrite decide_False.
        -- by rewrite lookup_delete_ne.
        -- intros [?|?]%elem_of_cons; done.
Qed.

Lemma frees_ret m : frees (ret tt) m [].
Proof. intros m' b _. reflexivity. Qed.

Lemma frees_seq c1 c2 m F1 F2 :
  frees c1 m F1 -> frees c2 m F2 ->
  (forall a, a ∈ F1 -> a ∉ F2) ->
  frees (c1 ;; c2) m (F1 ++ F2).
Proof.
  intros H1 H2 Hdisj m' b Hagree. unfold bind.
  rewrite H1 by (intros a Ha; apply Hagree, elem_of_app; auto).
  rewrite H2; [by rewrite remove_all_app|].
  intros a Ha. rewrite lookup_remove_all, decide_False.
  - apply Hagree, elem_of_app; auto.
  - intros Hin. by apply (Hdisj a).
Qed.

Lemma frees_release m a o : m !! a = Some o -> frees (release (At a)) m [a].
Proof.
  intros Ha m' b Hagree. unfold release. simpl.
  rewrite (Hagree a) by left. by rewrite Ha.
Qed.

Lemma frees_load m a o F (k : object -> M unit) :
  m !! a = Some o -> a ∈ F -> frees (k o) m F ->
  frees (let* x := load (At a) in k x) m F.
Proof.
  intros Ha Hin Hk m' b Hagree. unfold bind, load. simpl.
  rewrite (Hagree a Hin), Ha. by apply Hk.
Qed.

Lemma frees_get_node_ptr m c np nx F (k : ptr -> M unit) :
  m !! c = Some (SQLLinkedNode np nx) -> c ∈ F -> frees (k np) m F ->
  frees (let* x := get_node_ptr (At c) in k x) m F.
Proof.
  intros Hc Hin Hk m' b Hagree. unfold bind, get_node_ptr, bind, load. simpl.
  rewrite (Hagree c Hin), Hc. by apply Hk.
Qed.

Lemma frees_get_next m c np nx F (k : ptr -> M unit) :
  m !! c = Some (SQLLinkedNode np nx) -> c ∈ F -> frees (k nx) m F ->
  frees (let* x := get_next (At c) in k x) m F.
Proof.
  intros Hc Hin Hk m' b Hagree. unfold bind, get_next, bind, load. simpl.
  rewrite (Hagree c Hin), Hc. by apply Hk.
Qed.

Lemma frees_delete_linked m k c np nx Fnode :
  m !! c = Some (SQLLinkedNode np nx) ->
  frees (delete_node k np) m Fnode -> c ∉ Fnode ->
  frees (delete_linked (S k) (At c)) m (Fnode ++ [c]).
Proof.
  intros Hc Hnode Hnin. cbn [delete_linked].
  eapply frees_get_node_ptr; [done | apply elem_of_app; right; left |].
  apply frees_seq; [done | by eapply frees_release |].
  intros a Ha [->|[]%elem_of_nil]%elem_of_cons. done.
Qed.

Lemma remove_all_insert F m l o :
  l ∉ F -> delete l (remove_all F (<[l := o]> m)) = remove_all (F ++ [l]) m.
Proof.
  intros Hl. rewrite remove_all_app. simpl. apply map_eq. intros a.
  destruct (decide (a = l)) as [->|Hne].
  - by rewrite !lookup_delete_eq.
  - rewrite !lookup_delete_ne by done. rewrite !lookup_remove_all.
    destruct (decide (a ∈ F)); [done|]. by rewrite lookup_insert_ne.
Qed.

(** Splitting the footprint of a sequence of deletions. *)
Ltac split_NoDup H :=
  repeat match type of H with
         | NoDup (_ ++ _) =>
             let H1 := fresh "Hnd" in
             let Hd := fresh "Hdisj" in
             apply NoDup_app in H as (H1 & Hd & H)
         end.

Ltac frees_children :=
  repeat first
    [ apply frees_seq; [ | | assumption ]
    | eapply frees_release; eassumption
    | match goal with
      | H : forall k', _ <= k' -> frees (_ k' ?p) _ ?F |- frees (_ _ ?p) _ ?F =>
          apply H; lia
      end ].

(** A tree of objects that is owned through determinate pointers is
    destroyed whole, each object once. *)
Lemma delete_owned m :
  (forall p F, owns m p F -> NoDup F ->
     exists k, forall k', k <= k' -> frees (delete_node k' p) m F) /\
  (forall p F, owns_list m p F -> NoDup F ->
     exists k, forall k', k <= k' -> frees (delete_list k' p) m F) /\
  (forall p F, owns_cells m p F -> NoDup F ->
     exists k, forall k', k <= k' ->
       forall c np nx, p = At c -> m !! c = Some (SQLLinkedNode np nx) ->
                       frees (delete_cells k' p nx) m F).
Proof.
  apply owns_mutind.
  - (* null *) intros _. exists 0. intros k' _. destruct k'; apply frees_ret.
  - (* leaf *)
    intros a t Ha _. exists 1. intros [|k'] Hle; [lia|].
    cbn [delete_node]. eapply frees_load; [done | left |].
    by eapply frees_release.
  - (* select statement *)
    intros a lim sel tab wh gr hv ord win Flim Ftab Fsel Fwh Fgr Fhv Ford Fwin
           Ha _ IHlim _ IHtab _ IHsel _ IHwh _ IHgr _ IHhv _ IHord _ IHwin Hnd.
    assert (a ∈ Flim ++ Ftab ++ Fsel ++ Fwh ++ Fgr ++ Fhv ++ Ford ++ Fwin ++ [a])
      as Hin by (rewrite !elem_of_app; do 8 right; left).
    split_NoDup Hnd.
    destruct (IHlim Hnd0) as [k1 H1]. destruct (IHtab Hnd1) as [k2 H2].
    destruct (IHsel Hnd2) as [k3 H3]. destruct (IHwh Hnd3) as [k4 H4].
    destruct (IHgr Hnd4) as [k5 H5]. destruct (IHhv Hnd5) as [k6 H6].
    destruct (IHord Hnd6) as [k7 H7]. destruct (IHwin Hnd7) as [k8 H8].
    exists (S (list_max [k1; k2; k3; k4; k5; k6; k7; k8])). simpl list_max.
    intros [|k'] Hle; [lia|]. cbn [delete_node].
    eapply frees_load; [done | done |]. frees_children.
  - (* result target *)
    intros a ind val Fval Find Ha _ IHval _ IHind Hnd.
    assert (a ∈ Fval ++ Find ++ [a])
      as Hin by (rewrite !elem_of_app; do 2 right; left).
    split_NoDup Hnd.
    destruct (IHval Hnd0) as [k1 H1]. destruct (IHind Hnd1) as [k2 H2].
    exists (S (Nat.max k1 k2)).
    intros [|k'] Hle; [lia|]. cbn [delete_node].
    eapply frees_load; [done | done |]. frees_children.
  - (* window definition *)
    intros a pl ol fr Fpl Fol Ffr Ha _ IHpl _ IHol _ IHfr Hnd.
    assert (a ∈ Fpl ++ Fol ++ Ffr ++ [a])
      as Hin by (rewrite !elem_of_app; do 3 right; left).
    split_NoDup Hnd.
    destruct (IHpl Hnd0) as [k1 H1]. destruct (IHol Hnd1) as [k2 H2].
    destruct (IHfr Hnd2) as [k3 H3].
    exists (S (list_max [k1; k2; k3])). simpl list_max.
    intros [|k'] Hle; [lia|]. cbn [delete_node].
    eapply frees_load; [done | done |]. frees_children.
  - (* frame bound *)
    intros a off Foff Ha _ IHoff Hnd.
    assert (a ∈ Foff ++ [a]) as Hin by (rewrite !elem_of_app; right; left).
    split_NoDup Hnd.
    destruct (IHoff Hnd0) as [k1 H1].
    exists (S k1).
    intros [|k'] Hle; [lia|]. cbn [delete_node].
    eapply frees_load; [done | done |]. frees_children.
  - (* frame *)
    intros a st en Fst Fen Ha _ IHst _ IHen Hnd.
    assert (a ∈ Fst ++ Fen ++ [a])
      as Hin by (rewrite !elem_of_app; do 2 right; left).
    split_NoDup Hnd.
    destruct (IHst Hnd0) as [k1 H1]. destruct (IHen Hnd1) as [k2 H2].
    exists (S (Nat.max k1 k2)).
    intros [|k'] Hle; [lia|]. cbn [delete_node].
    eapply frees_load; [done | done |]. frees_children.
  - (* order by *)
    intros a ob Fob Ha _ IHob Hnd.
    assert (a ∈ Fob ++ [a]) as Hin by (rewrite !elem_of_app; right; left).
    split_NoDup Hnd.
    destruct (IHob Hnd0) as [k1 H1].
    exists (S k1).
    intros [|k'] Hle; [lia|]. cbn [delete_node].
    eapply frees_load; [done | done |]. frees_children.
  - (* function call *)
    intros a args over Fargs Fover Ha _ IHargs _ IHover Hnd.
    assert (a ∈ Fargs ++ Fover ++ [a])
      as Hin by (rewrite !elem_of_app; do 2 right; left).
    split_NoDup Hnd.
    destruct (IHargs Hnd0) as [k1 H1]. destruct (IHover Hnd1) as [k2 H2].
    exists (S (Nat.max k1 k2)).
    intros [|k'] Hle; [lia|]. cbn [delete_node].
    eapply frees_load; [done | done |]. frees_children.
  - (* null list *) intros _. exists 0. intros k' _. destruct k'; apply frees_ret.
  - (* list object *)
    intros l h t n F Hl Hcells IHcells Hnd.
    apply NoDup_app in Hnd as (Hnd & Hdisj & _).
    assert (l ∉ F) as HlF by (intros Hin; apply (Hdisj l Hin); left).
    destruct (IHcells Hnd) as [k1 H1].
    exists (S k1). intros [|k'] Hle; [lia|].
    intros m' b Hagree. cbn [delete_list]. unfold bind at 1.
    assert (m' !! l = Some (SQLNodeList h t n)) as Hl'.
    { rewrite <- Hl. apply Hagree, elem_of_app. right. left. }
    rewrite (set_tail_live (mkStore m' b) l h t n NULL Hl'). simpl live. simpl brk.
    set (m1 := <[l := SQLNodeList h NULL n]> m').
    assert (m1 !! l = Some (SQLNodeList h NULL n)) as Hl1
      by (subst m1; apply lookup_insert_eq).
    assert (forall a, a ∈ F -> m1 !! a = m !! a) as Hagree1.
    { intros a Ha. subst m1. rewrite lookup_insert_ne by (intros ->; done).
      apply Hagree, elem_of_app. by left. }
    unfold bind at 1. rewrite (get_head_live (mkStore m1 b) l h NULL n Hl1).
    inversion Hcells as [|c np nx Fnode Fcells Hc Hnode Hrest]; subst.
    + (* no cell *)
      rewrite decide_False by (intros H; by apply H).
      unfold bind, ret, release. simpl. rewrite Hl1. f_equal. f_equal.
      subst m1. apply (remove_all_insert [] m' l), not_elem_of_nil.
    + rewrite decide_True by done.
      unfold bind at 1. unfold bind at 1.
      assert (m1 !! c = Some (SQLLinkedNode np nx)) as Hc1.
      { rewrite <- Hc. apply Hagree1. rewrite !elem_of_app. right. left. left. }
      unfold get_next, bind, load. simpl. rewrite Hc1.
      change (ret nx (mkStore m1 b)) with (Done nx (mkStore m1 b)). simpl.
      rewrite (H1 k' ltac:(lia) c np nx eq_refl Hc m1 b Hagree1).
      unfold release. simpl.
      rewrite lookup_remove_all, decide_False by done. rewrite Hl1.
      f_equal. f_equal. subst m1. by apply remove_all_insert.
  - (* no cell *) intros _. exists 0. intros k' _ c np nx [=].
  - (* a cell *)
    intros c np nx Fnode Fcells Hc Hnode IHnode Hcells IHcells Hnd.
    apply NoDup_app in Hnd as (Hnd1 & Hdisj1 & Hnd).
    apply NoDup_app in Hnd as (_ & Hdisj2 & Hnd2).
    destruct (IHnode Hnd1) as [k1 H1]. destruct (IHcells Hnd2) as [k2 H2].
    exists (S (S (Nat.max k1 k2))).
    intros [|[|k']] Hle c0 np0 nx0 [= <-] Hc0; [lia..|].
    rewrite Hc in Hc0. injection Hc0 as <- <-.
    assert (c ∉ Fnode) as HcF by (intros Hin; apply (Hdisj1 c Hin); left).
    cbn [delete_cells].
    inversion Hcells as [|c2 np2 nx2 Fnode2 Fcells2 Hc2 Hnode2 Hrest2]; subst.
    + rewrite decide_False by (intros H; by apply H).
      rewrite app_nil_r.
      eapply frees_delete_linked; [done | apply H1; lia | done].
    + rewrite decide_True by done.
      rewrite app_assoc.
      apply frees_seq.
      * eapply frees_delete_linked; [done | apply H1; lia | done].
      * apply (frees_get_next m c2 np2 nx2 _
                 (fun p => delete_cells (S k') (At c2) p));
          [done | rewrite !elem_of_app; right; left; left |].
        eapply H2; [lia | done | done].
      * intros a [Ha|Ha]%elem_of_app.
        -- intros Hin. apply (Hdisj1 a Ha). by right.
        -- apply Hdisj2. done.
Qed.

(** An owned tree whose objects are pairwise distinct is destroyed whole:
    with enough fuel the deletion completes and the memory is left without
    exactly the objects of the tree. *)
Lemma delete_owned_node m p F b :
  owns m p F -> NoDup F ->
  exists k, delete_node k p (mkStore m b) = Done tt (mkStore (remove_all F m) b).
Proof.
  intros Ho Hnd. destruct (proj1 (delete_owned m) p F Ho Hnd) as [k Hk].
  exists k. by apply (Hk k).
Qed.

End DestructionFacts.


#[local] Arguments String.append !_ _ : simpl nomatch.

(** * Properties of the printer and of the literals *)

Section TextFacts.
Import Ast Text.
#[local] Open Scope string_scope.

Lemma cat_emit_inv x o out :
  emit x +++ o = Some out -> exists r, o = Some r /\ out = x ++ r.
Proof. destruct o as [r|]; simpl; [|discriminate]. intros [= <-]. eauto. Qed.

Lemma cat_Some_inv a b out :
  a +++ b = Some out -> exists x y, a = Some x /\ b = Some y /\ out = x ++ y.
Proof. destruct a, b; simpl; try discriminate. intros [= <-]. eauto. Qed.

Lemma append_assoc (a b c : string) : (a ++ b) ++ c = a ++ (b ++ c).
Proof. induction a; simpl; congruence. Qed.

Lemma append_nil_r (a : string) : a ++ "" = a.
Proof. induction a; simpl; congruence. Qed.

Lemma take_word_not_tail s : s <> String "+" (take_word s).
Proof.
  induction s as [|c s IH]; [discriminate|].
  intros H. injection H as -> Hs. simpl in Hs. by apply IH.
Qed.

Lemma take_word_app s rest :
  no_space s = true ->
  (rest = "" \/ exists r, rest = NL ++ r) ->
  take_word (s ++ rest) = s.
Proof.
  intros Hs Hrest. induction s as [|c s IH]; simpl in *.
  - destruct Hrest as [-> | (r & ->)]; reflexivity.
  - apply andb_prop in Hs as [Hc Hs]. apply negb_true_iff in Hc.
    rewrite Hc. f_equal. by apply IH.
Qed.

Lemma first_token_marker s : first_token (SPACE_ST ++ s) <> s.
Proof. unfold first_token, SPACE_ST. simpl. intros H. by eapply take_word_not_tail. Qed.

End TextFacts.

(** Both sides of an equation between texts, flattened. *)
Ltac flatten_text :=
  unfold Ast.SQLNode_Print, Ast.SPACE_ED, Ast.SPACE_ST, Ast.TAB, Ast.NL;
  repeat (progress (simpl; rewrite ?append_assoc));
  try reflexivity.

Section PrinterFacts.
Import Ast Text.
#[local] Open Scope string_scope.

Context (NameOfSQLNodeType : SQLNodeType -> string)
        (show_float show_double : N -> string)
        (insert_SQLNode : SQLNode -> option string)
        (chars : gmap positive string).

#[local] Abbreviation Print :=
  (Ast.Print NameOfSQLNodeType show_float show_double insert_SQLNode chars).
#[local] Abbreviation PrintList :=
  (Ast.PrintList NameOfSQLNodeType show_float show_double insert_SQLNode chars).
#[local] Abbreviation Print_top :=
  (Ast.Print_top NameOfSQLNodeType show_float show_double insert_SQLNode chars).
#[local] Abbreviation PrintCells :=
  (Ast.PrintCells NameOfSQLNodeType show_float show_double insert_SQLNode chars).
#[local] Abbreviation printable :=
  (Ast.printable show_float show_double insert_SQLNode chars).
#[local] Abbreviation printable_target :=
  (Ast.printable_target show_float show_double insert_SQLNode chars).
#[local] Abbreviation printable_list :=
  (Ast.printable_list show_float show_double insert_SQLNode chars).
#[local] Abbreviation printable_cells :=
  (Ast.printable_cells show_float show_double insert_SQLNode chars).


Lemma cat_is_Some a b : is_Some a -> is_Some b -> is_Some (a +++ b).
Proof. intros [x ->] [y ->]. simpl. eauto. Qed.

Lemma cat_is_Some_inv a b : is_Some (a +++ b) -> is_Some a /\ is_Some b.
Proof. destruct a, b; simpl; intros [x [=]]; eauto. Qed.

Lemma emit_is_Some s : is_Some (emit s).
Proof. unfold emit. eauto. Qed.

Create HintDb printer.
#[local] Hint Resolve cat_is_Some emit_is_Some : printer.

Tactic Notation "unfold_Print" :=
  cbn [Ast.Print Ast.PrintList Ast.PrintCells].
Tactic Notation "unfold_Print" "in" hyp(H) :=
  cbn [Ast.Print Ast.PrintList Ast.PrintCells] in H.
Tactic Notation "unfold_printable" :=
  cbn [Ast.printable Ast.printable_ptr Ast.printable_target
       Ast.printable_lptr Ast.printable_list Ast.printable_cells].
Tactic Notation "unfold_printable" "in" hyp(H) :=
  cbn [Ast.printable Ast.printable_ptr Ast.printable_target
       Ast.printable_lptr Ast.printable_list Ast.printable_cells] in H.

Ltac field_printed :=
  try discriminate;
  repeat match goal with
         | H : bool_decide _ = true |- _ => apply bool_decide_eq_true in H
         end;
  repeat apply cat_is_Some; eauto with printer.

Lemma printable_list_Linked sz np nx :
  printable_list (NodeList sz (Linked np nx))
  = if (0 =? sz)%N then true
    else printable_target np && printable_cells nx.
Proof. reflexivity. Qed.

Lemma printable_cells_Linked np nx :
  printable_cells (Linked np nx) = printable_target np && printable_cells nx.
Proof. reflexivity. Qed.

Lemma PrintList_Linked sz np nx tab :
  PrintList (NodeList sz (Linked np nx)) tab
  = if (0 =? sz)%N then emit (tab ++ "[]")
    else emit (tab ++ "[" ++ NL) +++
         match np with To c => Print c (tab ++ TAB) | _ => None end +++
         emit NL +++ PrintCells nx (tab ++ TAB) +++ emit (tab ++ "]").
Proof. reflexivity. Qed.

Lemma PrintCells_Linked np nx space :
  PrintCells (Linked np nx) space
  = match np with To c => Print c space | _ => None end +++
    emit NL +++ PrintCells nx space.
Proof. reflexivity. Qed.

(** The printer is defined on every printable tree. *)
Lemma Print_defined :
  (forall n, printable n = true -> forall tab, is_Some (Print n tab)) /\
  (forall d t ln loc, printable (Node t ln loc d) = true ->
                      forall tab, is_Some (Print (Node t ln loc d) tab)) /\
  (forall p c, p = To c -> printable c = true ->
               forall tab, is_Some (Print c tab)) /\
  (forall p l, p = ToList l -> printable_list l = true ->
               forall tab, is_Some (PrintList l tab)) /\
  (forall l, printable_list l = true -> forall tab, is_Some (PrintList l tab)) /\
  (forall c, printable_cells c = true -> forall tab, is_Some (PrintCells c tab)).
Proof.
  apply ast_mutind.
  - (* Node *) intros t ln loc d IH. apply IH.
  - (* SelectStmt *)
    intros d lim IHlim sl IHsl tl IHtl wh IHwh gr IHgr hv IHhv ord IHord wl IHwl
           t ln loc H tab.
    unfold_printable in H. unfold_Print.
    repeat (apply andb_prop in H as [H ?]).
    repeat apply cat_is_Some; try apply emit_is_Some.
    + destruct sl; field_printed.
    + destruct tl; field_printed.
    + destruct wh; field_printed.
    + destruct gr; field_printed.
    + destruct hv; field_printed.
    + destruct ord; field_printed.
    + destruct wl; field_printed.
    + destruct lim; field_printed.
  - (* ResTarget *)
    intros ind _ val IHval name t ln loc H tab.
    unfold_printable in H. unfold_Print.
    repeat apply cat_is_Some; try apply emit_is_Some.
    destruct val; try discriminate. eapply IHval; eauto.
  - (* WindowDefNode *)
    intros name pl IHpl ol IHol fr IHfr t ln loc H tab.
    unfold_printable in H. unfold_Print.
    repeat (apply andb_prop in H as [H ?]).
    repeat apply cat_is_Some; try apply emit_is_Some.
    + destruct pl; field_printed.
    + destruct ol; field_printed.
    + destruct fr; field_printed.
  - (* FrameBound *)
    intros bt off IHoff t ln loc H tab.
    unfold_printable in H. unfold_Print.
    repeat apply cat_is_Some; try apply emit_is_Some.
    destruct off; try discriminate; eauto with printer.
  - (* FrameNode *)
    intros ft st IHst en IHen t ln loc H tab.
    unfold_printable in H. unfold_Print.
    repeat (apply andb_prop in H as [H ?]).
    repeat apply cat_is_Some; try apply emit_is_Some.
    + destruct st; field_printed.
    + destruct en; field_printed.
  - (* LimitNode *) intros; unfold_Print; auto with printer.
  - (* SQLExprNode *) intros; unfold_Print; auto with printer.
  - (* ColumnRefNode *)
    intros; unfold_Print. repeat apply cat_is_Some; apply emit_is_Some.
  - (* OrderByNode *)
    intros st ob IHob t ln loc H tab.
    unfold_printable in H. unfold_Print.
    repeat apply cat_is_Some; try apply emit_is_Some.
    destruct ob; field_printed.
  - (* TableNode *)
    intros; unfold_Print. repeat apply cat_is_Some; apply emit_is_Some.
  - (* FuncNode *)
    intros fn args IHargs over IHover t ln loc H tab.
    unfold_printable in H. unfold_Print.
    repeat (apply andb_prop in H as [H ?]).
    repeat apply cat_is_Some; try apply emit_is_Some.
    + destruct args as [| |l]; try discriminate; auto with printer.
      destruct (0 =? Size l)%N; eauto with printer.
    + destruct over; field_printed.
  - (* ConstNode *)
    intros v t ln loc H tab. unfold_printable in H. unfold_Print.
    field_printed.
  - (* OtherSqlNode *) intros; unfold_Print; auto with printer.
  - (* UnknowSqlNode *) intros; unfold_Print; auto with printer.
  - (* NULL *) discriminate.
  - (* Indeterminate *) discriminate.
  - (* To *) intros n IH c [= <-]. apply IH.
  - (* LNULL *) discriminate.
  - (* LIndeterminate *) discriminate.
  - (* ToList *) intros l IH l' [= <-]. apply IH.
  - (* NodeList *)
    intros sz hd IH H tab. destruct hd as [|np nx]; [unfold_Print; auto with printer|].
    rewrite printable_list_Linked in H. rewrite PrintList_Linked.
    destruct (0 =? sz)%N; [auto with printer|].
    rewrite <- printable_cells_Linked in H.
    specialize (IH H (tab ++ TAB)). rewrite PrintCells_Linked in IH.
    apply cat_is_Some_inv in IH as [H1 H2].
    apply cat_is_Some_inv in H2 as [_ H2].
    repeat apply cat_is_Some; auto with printer.
  - (* End *) intros; unfold_Print; auto with printer.
  - (* Linked *)
    intros np IHnp nx IHnx H tab.
    rewrite printable_cells_Linked in H. rewrite PrintCells_Linked.
    apply andb_prop in H as [Hnp Hnx].
    repeat apply cat_is_Some; auto with printer.
    destruct np; try discriminate. eapply IHnp; eauto.
Qed.

Lemma Print_printable n tab : printable n = true -> is_Some (Print n tab).
Proof. intros H. by apply Print_defined. Qed.

(** A bound built by [FrameBound(bound_type)] has an indeterminate offset:
    its print is undefined. *)
Lemma Print_FrameBound_new_type_undefined bound_type tab :
  Print (FrameBound_new_type bound_type) tab = None.
Proof. reflexivity. Qed.

(** Every override of [Print] starts with the call of [SQLNode::Print]:
    the tab, then the name of the kind; what follows, if anything, starts
    with a line feed. *)
Lemma Print_shape n tab out :
  Print n tab = Some out ->
  exists rest, out = tab ++ NameOfSQLNodeType (GetType n) ++ rest /\
               (rest = "" \/ exists r, rest = NL ++ r).
Proof.
  destruct n as [t ln loc d]. simpl GetType.
  destruct d; cbn [Ast.Print]; intros H;
    try (apply cat_emit_inv in H as (r & H & ->);
         apply cat_emit_inv in H as (r' & H & ->);
         exists (NL ++ r'); unfold SQLNode_Print, SPACE_ED; simpl append at 1;
         rewrite append_assoc; split; [reflexivity | right; eauto]).
  all: injection H as <-; exists ""; unfold SQLNode_Print, SPACE_ED; simpl;
    rewrite append_nil_r; auto.
Qed.

(** C3, amended.  The top-level [Print] is defined on every printable
    node, and whenever it is defined its output is the marker [SPACE_ST]
    ("+"), then the name of the node's kind, then either nothing or a line
    feed and the rest: the kind name comes first after the marker, and
    when the name holds no white space the first token is the marker
    joined to the name. *)
Theorem Print_top_marker_then_kind_name n :
  (printable n = true -> is_Some (Print_top n)) /\
  (forall out,
      Print_top n = Some out ->
      (exists rest, out = SPACE_ST ++ NameOfSQLNodeType (GetType n) ++ rest /\
                    (rest = "" \/ exists r, rest = NL ++ r)) /\
      (no_space (NameOfSQLNodeType (GetType n)) = true ->
       first_token out = SPACE_ST ++ NameOfSQLNodeType (GetType n))).
Proof.
  split; [apply Print_printable|]. intros out Hout.
  destruct (Print_shape _ _ _ Hout) as (rest & -> & Hrest).
  split; [by exists rest|]. intros Hname.
  unfold first_token, SPACE_ST. simpl. f_equal. by apply take_word_app.
Qed.

(** C4, amended.  The debug print of a select statement whose select list
    is empty and whose limit child is [LimitNode(cnt)] is the text below,
    for every [cnt]: the select list is rendered as the token [[]], the
    limit clause as the kind name of the limit node; the count is not
    printed. *)
Theorem Print_select_with_limit cnt :
  Print_top (select_with_limit cnt) =
  Some (SPACE_ST ++ NameOfSQLNodeType kSelectStmt ++ NL ++
        SPACE_ST ++ TAB ++ "select_list: " ++ NL ++
        SPACE_ST ++ TAB ++ TAB ++ "[]" ++ NL ++
        SPACE_ST ++ TAB ++ "tableref_list_ptr_: NULL" ++ NL ++
        SPACE_ST ++ TAB ++ "where_clause_: NULL" ++ NL ++
        SPACE_ST ++ TAB ++ "group_clause_: NULL" ++ NL ++
        SPACE_ST ++ TAB ++ "having_clause_: NULL" ++ NL ++
        SPACE_ST ++ TAB ++ "order_clause_: NULL" ++ NL ++
        SPACE_ST ++ TAB ++ "window_list_ptr_: NULL" ++ NL ++
        SPACE_ST ++ TAB ++ "limit_clause_: " ++ NL ++
        SPACE_ST ++ TAB ++ NameOfSQLNodeType kLimit ++ NL).
Proof.
  unfold Print_top, select_with_limit, SelectStmt_new, LimitNode_new,
    FillSelectAttributions, SPACE_ST, TAB, NL.
  cbn. unfold SQLNode_Print, SPACE_ED. simpl.
  flatten_text.
Qed.

(** The defined prints of a frame.  [FrameNode::Print] is defined on every
    printable frame.  It writes [start: UNBOUNDED: ] when the start bound
    is absent and ends with [end: UNBOUNDED] when the end bound is absent.  When both bounds
    are present it writes, for each, the name of its kind after [bound: ]
    and then the text of its offset: the print of the offset node when
    there is one.  For a ROWS frame from 3 PRECEDING to CURRENT the output
    is the text below: the name of [kFrameRows], the name of [kPreceding]
    followed by the integer literal [value: 3], the name of [kCurrent]
    followed by no offset node. *)
Lemma FrameNode_Print_bounds :
  (forall t ln loc ft s e tab,
      printable (Node t ln loc (FrameNode ft s e)) = true ->
      is_Some (Print (Node t ln loc (FrameNode ft s e)) tab)) /\
  (forall t ln loc ft e tab out,
      Print (Node t ln loc (FrameNode ft NULL e)) tab = Some out ->
      exists post,
        out = tab ++ NameOfSQLNodeType t ++ NL ++
              (tab ++ TAB) ++ "frames_type_ : " ++ NameOfSQLNodeType ft ++ NL ++
              (tab ++ TAB) ++ "start: UNBOUNDED: " ++ NL ++ post) /\
  (forall t ln loc ft s tab out,
      Print (Node t ln loc (FrameNode ft s NULL)) tab = Some out ->
      exists pre, out = pre ++ (tab ++ TAB) ++ "end: UNBOUNDED") /\
  (forall t ln loc ft ts lns locs bs os te lne loce be oe tab out,
      Print (Node t ln loc
               (FrameNode ft (To (Node ts lns locs (FrameBound bs os)))
                             (To (Node te lne loce (FrameBound be oe))))) tab
        = Some out ->
      exists so eo,
        offset_text Print os (tab ++ TAB ++ TAB ++ TAB ++ TAB) = Some so /\
        offset_text Print oe (tab ++ TAB ++ TAB ++ TAB ++ TAB) = Some eo /\
        out = tab ++ NameOfSQLNodeType t ++ NL ++
              (tab ++ TAB) ++ "frames_type_ : " ++ NameOfSQLNodeType ft ++ NL ++
              (tab ++ TAB) ++ "start: " ++ NL ++
              (tab ++ TAB ++ TAB) ++ NameOfSQLNodeType ts ++ NL ++
              (tab ++ TAB ++ TAB ++ TAB) ++ "bound: " ++ NameOfSQLNodeType bs ++ NL ++
              so ++ NL ++
              (tab ++ TAB) ++ "end: " ++ NL ++
              (tab ++ TAB ++ TAB) ++ NameOfSQLNodeType te ++ NL ++
              (tab ++ TAB ++ TAB ++ TAB) ++ "bound: " ++ NameOfSQLNodeType be ++ NL ++
              eo) /\
  Print_top rows_3_preceding_to_current =
    Some (SPACE_ST ++ NameOfSQLNodeType kFrames ++ NL ++
          SPACE_ST ++ TAB ++ "frames_type_ : " ++ NameOfSQLNodeType kFrameRows ++ NL ++
          SPACE_ST ++ TAB ++ "start: " ++ NL ++
          SPACE_ST ++ TAB ++ TAB ++ NameOfSQLNodeType kFrameBound ++ NL ++
          SPACE_ST ++ TAB ++ TAB ++ TAB ++ "bound: " ++ NameOfSQLNodeType kPreceding ++ NL ++
          SPACE_ST ++ TAB ++ TAB ++ TAB ++ TAB ++ NameOfSQLNodeType kInt ++ NL ++
          SPACE_ST ++ TAB ++ TAB ++ TAB ++ TAB ++ TAB ++ "value: 3" ++ NL ++
          SPACE_ST ++ TAB ++ "end: " ++ NL ++
          SPACE_ST ++ TAB ++ TAB ++ NameOfSQLNodeType kFrameBound ++ NL ++
          SPACE_ST ++ TAB ++ TAB ++ TAB ++ "bound: " ++ NameOfSQLNodeType kCurrent ++ NL ++
          SPACE_ST ++ TAB ++ TAB ++ TAB ++ TAB ++ "UNBOUNDED").
Proof.
  split; [|split; [|split; [|split]]].
  - intros t ln loc ft s e tab H. by apply Print_printable.
  - intros t ln loc ft e tab out H. cbn [Ast.Print] in H.
    unfold SQLNode_Print, SPACE_ED in H.
    apply cat_emit_inv in H as (r1 & H & ->).
    apply cat_emit_inv in H as (r2 & H & ->).
    apply cat_emit_inv in H as (r3 & H & ->).
    apply cat_emit_inv in H as (r4 & H & ->).
    exists r4. flatten_text.
  - intros t ln loc ft s tab out H. cbn [Ast.Print] in H.
    apply cat_Some_inv in H as (x1 & y1 & _ & H & ->).
    apply cat_Some_inv in H as (x2 & y2 & _ & H & ->).
    apply cat_Some_inv in H as (x3 & y3 & _ & H & ->).
    apply cat_Some_inv in H as (x4 & y4 & _ & H & ->).
    injection H as <-.
    exists (x1 ++ x2 ++ x3 ++ x4). flatten_text.
  - intros t ln loc ft ts lns locs bs os te lne loce be oe tab out H.
    cbn [Ast.Print] in H. unfold SQLNode_Print, SPACE_ED in H.
    fold (offset_text Print os ((((tab ++ TAB) ++ TAB) ++ TAB) ++ TAB)) in H.
    fold (offset_text Print oe ((((tab ++ TAB) ++ TAB) ++ TAB) ++ TAB)) in H.
    rewrite ?append_assoc in H.
    destruct (offset_text Print os _) as [so|]; [|discriminate].
    destruct (offset_text Print oe _) as [eo|]; [|discriminate].
    exists so, eo. split; [done|]. split; [done|].
    simpl in H. injection H as <-. flatten_text.
  - unfold Ast.Print_top, rows_3_preceding_to_current, FrameNode_new3,
      FrameBound_new_offset, ConstNode_int, SPACE_ST, TAB, NL.
    cbn. unfold SQLNode_Print, SPACE_ED. simpl.
    flatten_text.
Qed.

(** C6.  [FrameBound(bound_type)], the constructor of a bound without
    offset, writes [bound_type_] and leaves [offset_] indeterminate, and
    [FrameBound::Print] compares [offset_] with null.  The debug print of
    a frame with such a bound at its start or at its end is undefined:
    at every tab, for every type of frame, every kind of bound, whatever
    the other bound is and whatever the names of the kinds are.  So is the
    print of the ROWS frame from 3 PRECEDING to CURRENT whose end bound is
    [FrameBound(kCurrent)]: it prints no end bound [CURRENT].  The same
    frame with its end bound built by [FrameBound(kCurrent, NULL)], the
    constructor that writes [offset_], has a defined print. *)
Theorem FrameNode_Print_bound_of_type_undefined :
  (forall t ln loc ft bound_type other tab,
      Print (Node t ln loc
               (FrameNode ft (To (FrameBound_new_type bound_type)) other)) tab
        = None /\
      Print (Node t ln loc
               (FrameNode ft other (To (FrameBound_new_type bound_type)))) tab
        = None) /\
  Print_top rows_3_preceding_to_current_of_type = None /\
  GetEnd rows_3_preceding_to_current_of_type
    = Some (To (FrameBound_new_type kCurrent)) /\
  is_Some (Print_top rows_3_preceding_to_current).
Proof.
  assert (forall x, x +++ None = None) as Hnone by (by intros [?|]).
  split; [|split; [reflexivity|split; [reflexivity|]]].
  - intros t ln loc ft bound_type other tab. split; [reflexivity|].
    cbn [Ast.Print FrameBound_new_type]. by rewrite !Hnone.
  - apply Print_printable. reflexivity.
Qed.


End PrinterFacts.

Section PrinterExamples.
Import Ast Text.
#[local] Open Scope string_scope.

(** C3 fails on [LimitNode(10)]: whatever [NameOfSQLNodeType] returns, the
    first token of the top-level print is not the name of the kind. *)
Lemma Print_top_first_token_is_not_kind_name :
  ~ exists name show_float show_double insert_SQLNode chars out,
      Ast.Print_top name show_float show_double insert_SQLNode chars
        (LimitNode_new 10) = Some out /\
      first_token out = name (GetType (LimitNode_new 10)).
Proof.
  intros (name & sf & sd & ins & chars & out & Hp & Ht).
  unfold Ast.Print_top in Hp. cbn in Hp. injection Hp as <-.
  change (first_token (SPACE_ST ++ name kLimit) = name kLimit) in Ht.
  exact (first_token_marker _ Ht).
Qed.

Lemma Print_top_marker_then_kind_name_witness :
  is_Some (Ast.Print_top enumerator_name (fun _ => "") (fun _ => "")
             (fun _ => None) ∅ (LimitNode_new 10)) /\
  (exists rest,
      "+kLimit" = SPACE_ST ++ enumerator_name (GetType (LimitNode_new 10)) ++ rest /\
      (rest = "" \/ exists r, rest = NL ++ r)) /\
  first_token "+kLimit" = SPACE_ST ++ enumerator_name (GetType (LimitNode_new 10)).
Proof.
  destruct (Print_top_marker_then_kind_name enumerator_name
              (fun _ => "") (fun _ => "") (fun _ => None) ∅
              (LimitNode_new 10)) as [Hdef Hshape].
  split; [apply Hdef; reflexivity|].
  destruct (Hshape "+kLimit" eq_refl) as [Hrest Htoken].
  split; [exact Hrest|]. apply Htoken. reflexivity.
Defined.

(** C4 fails as stated: the print of the select statement with an empty
    select list and [LimitNode(10)] holds the token [[]] but not the text
    [10]. *)
Lemma Print_select_limit_omits_count :
  ~ forall name show_float show_double insert_SQLNode chars out,
      Ast.Print_top name show_float show_double insert_SQLNode chars
        (select_with_limit 10) = Some out ->
      In "[]" (tokens out) /\ occurs "10" out = true.
Proof.
  intros H.
  specialize (H enumerator_name (fun _ => "") (fun _ => "") (fun _ => None) ∅).
  destruct (H _ eq_refl) as [_ H10].
  vm_compute in H10. discriminate.
Qed.

(** C5.  A text literal built from a temporary [std::string] keeps the
    address of the array of the temporary; once the temporary is
    destroyed, reading the text back through [GetStr] is undefined, for
    every text.  For ["abc"] the read does not give ["abc"]. *)
Theorem text_literal_of_temporary_dangles :
  (forall text m,
      GetType (fst (ConstNode_of_temporary text m)) = kString /\
      GetStr_text (snd (ConstNode_of_temporary text m))
                  (fst (ConstNode_of_temporary text m)) = None) /\
  GetStr_text (snd (ConstNode_of_temporary "abc" ∅))
              (fst (ConstNode_of_temporary "abc" ∅)) <> Some "abc".
Proof.
  assert (forall text m,
      GetType (fst (ConstNode_of_temporary text m)) = kString /\
      GetStr_text (snd (ConstNode_of_temporary text m))
                  (fst (ConstNode_of_temporary text m)) = None) as H.
  { intros text m. split; [reflexivity|].
    unfold ConstNode_of_temporary, std_string_new, std_string_delete,
      GetStr_text, read_chars. simpl. by rewrite lookup_delete_eq. }
  split; [exact H|]. destruct (H "abc" ∅) as [_ ->]. discriminate.
Qed.

(** A text without NUL character is its own C string. *)
Lemma until_nul_id text : has_nul text = false -> until_nul text = text.
Proof.
  induction text as [|c text IH]; [done|]. simpl.
  destruct (Ascii.eqb c Ascii.zero); [done|].
  intros H. by rewrite IH.
Qed.

(** The other literals read back as they were given; a text literal whose
    source outlives it reads back as the C string of the text, which is the
    text when it holds no NUL character. *)
Lemma literal_roundtrip_values :
  (forall v, GetInt (ConstNode_int v) = Some v) /\
  (forall v, GetLong (ConstNode_long v) = Some v) /\
  (forall v, GetFloat (ConstNode_float v) = Some v) /\
  (forall v, GetDouble (ConstNode_double v) = Some v) /\
  (forall p, GetStr (ConstNode_cstr p) = Some p) /\
  (forall text m,
      GetStr_text (snd (ConstNode_of_string text m))
                  (fst (ConstNode_of_string text m)) = Some (until_nul text)) /\
  (forall text m,
      has_nul text = false ->
      GetStr_text (snd (ConstNode_of_string text m))
                  (fst (ConstNode_of_string text m)) = Some text).
Proof.
  assert (forall text m,
      GetStr_text (snd (ConstNode_of_string text m))
                  (fst (ConstNode_of_string text m)) = Some (until_nul text))
    as Hread.
  { intros text m.
    unfold ConstNode_of_string, std_string_new, GetStr_text, read_chars. simpl.
    by rewrite lookup_insert_eq. }
  repeat split; try reflexivity; [exact Hread|].
  intros text m Htext. by rewrite Hread, until_nul_id.
Qed.

Lemma FrameNode_Print_bounds_witness :
  is_Some (Ast.Print enumerator_name (fun _ => "") (fun _ => "")
             (fun _ => None) ∅ rows_3_preceding_to_current "+") /\
  (exists out,
      Ast.Print enumerator_name (fun _ => "") (fun _ => "") (fun _ => None) ∅
        (FrameNode_new3 kFrameRows NULL NULL) "+" = Some out /\
      exists post,
        out = "+" ++ enumerator_name kFrames ++ NL ++
              ("+" ++ TAB) ++ "frames_type_ : " ++ enumerator_name kFrameRows ++ NL ++
              ("+" ++ TAB) ++ "start: UNBOUNDED: " ++ NL ++ post) /\
  (exists out,
      Ast.Print enumerator_name (fun _ => "") (fun _ => "") (fun _ => None) ∅
        (FrameNode_new3 kFrameRows NULL NULL) "+" = Some out /\
      exists pre, out = pre ++ ("+" ++ TAB) ++ "end: UNBOUNDED") /\
  (exists out,
      Ast.Print enumerator_name (fun _ => "") (fun _ => "") (fun _ => None) ∅
        rows_3_preceding_to_current "+" = Some out /\
      exists so eo,
        offset_text
          (Ast.Print enumerator_name (fun _ => "") (fun _ => "")
             (fun _ => None) ∅)
          (To (ConstNode_int 3)) ("+" ++ TAB ++ TAB ++ TAB ++ TAB) = Some so /\
        offset_text
          (Ast.Print enumerator_name (fun _ => "") (fun _ => "")
             (fun _ => None) ∅)
          NULL ("+" ++ TAB ++ TAB ++ TAB ++ TAB) = Some eo /\
        out = "+" ++ enumerator_name kFrames ++ NL ++
              ("+" ++ TAB) ++ "frames_type_ : " ++ enumerator_name kFrameRows ++ NL ++
              ("+" ++ TAB) ++ "start: " ++ NL ++
              ("+" ++ TAB ++ TAB) ++ enumerator_name kFrameBound ++ NL ++
              ("+" ++ TAB ++ TAB ++ TAB) ++ "bound: " ++ enumerator_name kPreceding ++ NL ++
              so ++ NL ++
              ("+" ++ TAB) ++ "end: " ++ NL ++
              ("+" ++ TAB ++ TAB) ++ enumerator_name kFrameBound ++ NL ++
              ("+" ++ TAB ++ TAB ++ TAB) ++ "bound: " ++ enumerator_name kCurrent ++ NL ++
              eo).
Proof.
  destruct (FrameNode_Print_bounds enumerator_name (fun _ => "") (fun _ => "")
              (fun _ => None) ∅) as (Hdef & Hstart & Hend & Hboth & _).
  split; [apply Hdef; reflexivity|].
  split; [|split]; eexists; (split; [reflexivity|]).
  - apply (Hstart kFrames 0%N 0%N kFrameRows NULL "+"). reflexivity.
  - apply (Hend kFrames 0%N 0%N kFrameRows NULL "+"). reflexivity.
  - apply (Hboth kFrames 0%N 0%N kFrameRows
             kFrameBound 0%N 0%N kPreceding (To (ConstNode_int 3))
             kFrameBound 0%N 0%N kCurrent NULL "+").
    reflexivity.
Defined.


End PrinterExamples.

(** * Further properties of the node list and of the destructors *)

Section ListExtras.
Import Store Scenario.
Implicit Types (m : gmap positive object) (F : list positive).

(** ** Chains *)

(** The first cell of a chain that is not empty, and the head of an empty
    chain. *)
Lemma chain_head k m h c np l :
  chain k m h = Some ((c, np) :: l) -> h = At c.
Proof.
  destruct h as [| |c']; [destruct k; discriminate..|].
  intros H. apply chain_At_inv in H as (? & ? & ? & ? & _ & _ & _ & [= -> _ _]).
  done.
Qed.

Lemma chain_nil k m h : chain k m h = Some [] -> h = NULL.
Proof.
  destruct h as [| |c']; [done | destruct k; discriminate |].
  intros H. apply chain_At_inv in H as (? & ? & ? & ? & _ & _ & _ & [=]).
Qed.

(** A chain is the same in two memories that agree on its cells. *)
Lemma chain_agree k m m' p l :
  chain k m p = Some l -> (forall c, c ∈ l.*1 -> m' !! c = m !! c) ->
  chain k m' p = Some l.
Proof.
  revert p l. induction k as [|k IH]; intros p l H Hagree.
  - destruct p; simpl in *; done.
  - destruct p as [| |c]; [done | discriminate |].
    apply chain_At_inv in H as (k0 & np & nx & l' & [= <-] & Hc & Hl & ->).
    eapply chain_At.
    + rewrite Hagree; [done | left].
    + apply IH; [done|]. intros c' Hc'. apply Hagree. by right.
Qed.

(** A sound list stays sound when a list object [a] and a cell [t] that is
    not one of its cells are written. *)
Lemma sound_list_frame s a oa t ot b cb h0 t0 n0 np0 nx0 bk :
  live s !! a = Some (SQLNodeList h0 t0 n0) ->
  live s !! t = Some (SQLLinkedNode np0 nx0) ->
  b <> a -> t ∉ cb.*1 ->
  sound_list s b cb ->
  sound_list (mkStore (<[a := oa]> (<[t := ot]> (live s))) bk) b cb.
Proof.
  intros Ha Ht Hba Htcb (hb & kb & Hb & Hcb).
  exists hb, kb. simpl. split.
  - rewrite !lookup_insert_ne; [done | congruence | done].
  - eapply chain_agree; [done|]. intros c Hc.
    destruct (chain_cells _ _ _ _ _ Hcb Hc) as (? & ? & Hcell).
    rewrite !lookup_insert_ne; [done | | congruence].
    intros ->. done.
Qed.

Lemma Forall2_sound_frame s a oa t ot h0 t0 n0 np0 nx0 bk bs cbs :
  live s !! a = Some (SQLNodeList h0 t0 n0) ->
  live s !! t = Some (SQLLinkedNode np0 nx0) ->
  t ∉ (concat cbs).*1 ->
  Forall2 (fun b cb => b <> a /\ sound_list s b cb /\ cb <> []) bs cbs ->
  Forall2 (fun b cb =>
             b <> a /\
             sound_list (mkStore (<[a := oa]> (<[t := ot]> (live s))) bk) b cb /\
             cb <> []) bs cbs.
Proof.
  intros Ha Ht Hnin Hall.
  induction Hall as [|b cb bs cbs (Hba & Hsb & Hne) Hall IH]; [constructor|].
  simpl in Hnin. rewrite fmap_app, elem_of_app in Hnin.
  constructor.
  - split; [done|]. split; [|done].
    eapply sound_list_frame; [done | done | done | | done]. tauto.
  - apply IH. tauto.
Qed.

(** ** The store an append leaves *)

(** When the tail of the target is the cell [t]: the cell is linked to the
    head of the source and the target takes the tail of the source and the
    sum of the sizes.  The two list objects may be the same. *)
Lemma AppendNodeList_links_store s a b ha t na hb tb nb np nx :
  live s !! a = Some (SQLNodeList ha (At t) na) ->
  live s !! b = Some (SQLNodeList hb tb nb) ->
  live s !! t = Some (SQLLinkedNode np nx) ->
  AppendNodeList (At a) (At b) s
  = Done tt (mkStore (<[a := SQLNodeList ha tb (wrap64 (na + nb))]>
                        (<[t := SQLLinkedNode np hb]> (live s))) (brk s)).
Proof.
  intros Ha Hb Ht.
  assert (a <> t) as Hat by congruence.
  assert (b <> t) as Hbt by congruence.
  unfold AppendNodeList. rewrite decide_False by done.
  unfold bind at 1. rewrite (get_tail_live _ _ _ _ _ Ha).
  rewrite decide_False by done.
  unfold bind at 1. rewrite (get_head_live _ _ _ _ _ Hb).
  unfold bind at 1. rewrite (set_next_live _ _ _ _ _ Ht).
  set (s1 := mkStore _ _).
  assert (live s1 !! a = Some (SQLNodeList ha (At t) na)) as Ha1
    by (subst s1; simpl; by rewrite lookup_insert_ne).
  assert (live s1 !! b = Some (SQLNodeList hb tb nb)) as Hb1
    by (subst s1; simpl; by rewrite lookup_insert_ne).
  unfold bind at 1. rewrite (get_tail_live _ _ _ _ _ Hb1).
  unfold bind at 1. rewrite (set_tail_live _ _ _ _ _ _ Ha1).
  set (s2 := mkStore _ _).
  assert (live s2 !! a = Some (SQLNodeList ha tb na)) as Ha2
    by (subst s2; simpl; apply lookup_insert_eq).
  assert (live s2 !! b = Some (SQLNodeList hb tb nb)) as Hb2.
  { subst s2; simpl. destruct (decide (a = b)) as [->|Hab].
    - rewrite lookup_insert_eq. congruence.
    - by rewrite lookup_insert_ne. }
  unfold bind at 1. rewrite (get_size_live _ _ _ _ _ Ha2).
  unfold bind at 1. rewrite (get_size_live _ _ _ _ _ Hb2).
  rewrite (set_size_live _ _ _ _ _ _ Ha2).
  subst s2 s1. simpl. by rewrite insert_insert_eq.
Qed.

(** When the target has no tail. *)
Lemma AppendNodeList_adopts_store s a b ha na hb tb nb :
  live s !! a = Some (SQLNodeList ha NULL na) ->
  live s !! b = Some (SQLNodeList hb tb nb) ->
  AppendNodeList (At a) (At b) s
  = Done tt (mkStore (<[a := SQLNodeList hb hb nb]> (live s)) (brk s)).
Proof.
  intros Ha Hb.
  unfold AppendNodeList. rewrite decide_False by done.
  unfold bind at 1. rewrite (get_tail_live _ _ _ _ _ Ha).
  rewrite decide_True by done.
  unfold bind at 1. rewrite (get_head_live _ _ _ _ _ Hb).
  unfold bind at 1. rewrite (set_head_live _ _ _ _ _ _ Ha).
  set (s1 := mkStore _ _).
  assert (live s1 !! a = Some (SQLNodeList hb NULL na)) as Ha1
    by (subst s1; simpl; apply lookup_insert_eq).
  unfold bind at 1. rewrite (get_head_live _ _ _ _ _ Ha1).
  unfold bind at 1. rewrite (set_tail_live _ _ _ _ _ _ Ha1).
  set (s2 := mkStore _ _).
  assert (live s2 !! a = Some (SQLNodeList hb hb na)) as Ha2
    by (subst s2; simpl; apply lookup_insert_eq).
  assert (get_size (At b) s2 = Done nb s2) as Hb2.
  { destruct (decide (a = b)) as [->|Hab].
    - rewrite (get_size_live _ _ _ _ _ Ha2). congruence.
    - apply (get_size_live _ _ hb tb). subst s2 s1; simpl.
      by rewrite !lookup_insert_ne. }
  unfold bind at 1. rewrite Hb2.
  rewrite (set_size_live _ _ _ _ _ _ Ha2).
  subst s2 s1. simpl. by rewrite !insert_insert_eq.
Qed.

(** What the steps of an append need to complete. *)
Lemma load_inv p s o s1 :
  load p s = Done o s1 -> exists a, p = At a /\ live s !! a = Some o /\ s1 = s.
Proof.
  unfold load. destruct p as [| |a]; try discriminate.
  destruct (live s !! a) as [o'|] eqn:E; [|discriminate].
  intros [= <- <-]. eauto.
Qed.

Lemma get_tail_inv p s t s1 :
  get_tail p s = Done t s1 ->
  exists a h n, p = At a /\ live s !! a = Some (SQLNodeList h t n) /\ s1 = s.
Proof.
  unfold get_tail, bind. destruct (load p s) as [o s0| |] eqn:E; try discriminate.
  apply load_inv in E as (a & -> & Ha & ->).
  destruct o; try discriminate. intros [= <- <-]. by eexists _, _, _.
Qed.

Lemma get_head_inv p s h s1 :
  get_head p s = Done h s1 ->
  exists a t n, p = At a /\ live s !! a = Some (SQLNodeList h t n) /\ s1 = s.
Proof.
  unfold get_head, bind. destruct (load p s) as [o s0| |] eqn:E; try discriminate.
  apply load_inv in E as (a & -> & Ha & ->).
  destruct o; try discriminate. intros [= <- <-]. by eexists _, _, _.
Qed.

Lemma set_next_inv p v s s1 :
  set_next p v s = Done tt s1 ->
  exists c np nx, p = At c /\ live s !! c = Some (SQLLinkedNode np nx).
Proof.
  unfold set_next, bind. destruct (load p s) as [o s0| |] eqn:E; try discriminate.
  apply load_inv in E as (a & -> & Ha & ->).
  destruct o; try discriminate. intros _. by eexists _, _, _.
Qed.

(** ** Front insertion *)

(** X1.  [PushFront] on a sound list of fewer than 2^64 - 1 elements, in a
    fresh store: the call completes, the size grows by one, the new element
    is the first of the traversal and the others follow as before; the tail
    is the new cell when the list was empty and is unchanged otherwise, so
    that the list is sound again.  The store stays fresh and every other
    sound list stays as it was. *)
Theorem PushFront_prepends s a cells x :
  fresh_store s ->
  sound_list s a cells ->
  (N.of_nat (S (length cells)) < 2 ^ 64)%N ->
  exists s',
    PushFront (At a) x s = Done tt s' /\
    reported_size s' (At a) = Some (N.of_nat (length cells) + 1)%N /\
    elements s' (At a) = Some (x :: cells.*2) /\
    tail_field s' (At a)
      = Some (match cells with [] => At (brk s) | _ => last_cell cells end) /\
    sound_list s' a ((brk s, x) :: cells) /\
    fresh_store s' /\
    (forall a' cells', a' <> a -> sound_list s a' cells' ->
                       sound_list s' a' cells').
Proof.
  intros Hfresh Hsound Hlt.
  destruct (PushFront_sound s a cells x (fresh_store_brk _ Hfresh) Hsound Hlt)
    as (s' & Hrun & Hsound' & Hsize & Hel).
  destruct (PushFront_frame _ _ _ _ _ Hfresh Hsound Hrun) as (Hfresh' & _ & Hframe).
  exists s'. split; [done|].
  split; [rewrite Hsize; f_equal; lia|]. split; [done|].
  split; [|done].
  destruct Hsound' as (h & k & Ha & _). unfold tail_field.
  rewrite (get_tail_live _ _ _ _ _ Ha). by destruct cells.
Qed.

Lemma push_all_snoc this xs x s :
  push_all this (xs ++ [x]) s = (PushFront this x ;; push_all this xs) s.
Proof.
  revert s. induction xs as [|y xs IH]; intros s; simpl.
  - unfold bind, ret. by destruct (PushFront this x s) as [[] ?| |].
  - unfold bind at 1. rewrite IH. unfold bind.
    by destruct (PushFront this x s) as [[] ?| |].
Qed.

Lemma PushFront_each_push_all this xs s :
  PushFront_each this xs s = push_all this (rev xs) s.
Proof.
  revert s. induction xs as [|x xs IH]; intros s; [done|].
  simpl. rewrite push_all_snoc. unfold bind.
  destruct (PushFront this x s) as [[] ?| |]; [apply IH|done..].
Qed.

(** X2.  A new list onto which the elements [xs] are pushed one after the
    other holds them in reverse order: its traversal yields [rev xs], its
    size is their number, and it is a sound list of these elements. *)
Theorem PushFront_each_reverses xs s :
  fresh_store s ->
  (N.of_nat (length xs) < 2 ^ 64)%N ->
  exists s' a,
    pushed xs s = Done (At a) s' /\
    reported_size s' (At a) = Some (N.of_nat (length xs)) /\
    elements s' (At a) = Some (rev xs) /\
    exists cells, sound_list s' a cells /\ cells.*2 = rev xs.
Proof.
  intros Hfresh Hlt.
  destruct (list_of_sound (rev xs) s Hfresh)
    as (s' & a & cells & Hrun & Hsound & Hcells & _); [by rewrite length_rev|].
  exists s', a.
  assert (pushed xs s = list_of (rev xs) s) as ->.
  { unfold pushed, list_of, bind.
    destruct (SQLNodeList_new s) as [this s0| |]; [|done..].
    by rewrite PushFront_each_push_all. }
  split; [done|].
  pose proof Hsound as (h & k & Ha & Hch).
  rewrite (reported_size_live _ _ _ _ _ Ha), (elements_live _ _ _ _ _ _ _ Ha Hch).
  rewrite Hcells. split; [|split; [done|by exists cells]].
  f_equal. f_equal. by rewrite <- (length_rev xs), <- Hcells, length_fmap.
Qed.

(** ** Appends *)

(** X3.  A sound list that is not empty takes any number of appends of
    sound lists that are not empty: when the list objects are distinct from
    the target, no cell is shared and the sizes add up to less than 2^64,
    all the calls complete and the target is a sound list of its own
    elements followed by the elements of the sources, in the order of the
    appends. *)
Theorem append_all_concatenates bs : forall cbs s a ca,
  sound_list s a ca -> ca <> [] ->
  Forall2 (fun b cb => b <> a /\ sound_list s b cb /\ cb <> []) bs cbs ->
  NoDup (ca.*1 ++ (concat cbs).*1) ->
  (N.of_nat (length ca + length (concat cbs)) < 2 ^ 64)%N ->
  exists s',
    append_all (At a) (At <$> bs) s = Done tt s' /\
    sound_list s' a (ca ++ concat cbs) /\
    reported_size s' (At a) = Some (N.of_nat (length ca + length (concat cbs))) /\
    elements s' (At a) = Some (ca.*2 ++ (concat cbs).*2).
Proof.
  induction bs as [|b bs IH]; intros cbs s a ca Hsa Hne Hall Hnd Hlt.
  - apply Forall2_nil_inv_l in Hall as ->. simpl in *.
    rewrite ?app_nil_r, ?Nat.add_0_r.
    exists s. split; [done|]. split; [done|].
    destruct Hsa as (h & k & Ha & Hch).
    by rewrite (reported_size_live _ _ _ _ _ Ha), (elements_live _ _ _ _ _ _ _ Ha Hch).
  - apply Forall2_cons_inv_l in Hall as (cb & cbs' & (Hba & Hsb & Hcbne) & Hall & ->).
    simpl concat in *. rewrite fmap_app in Hnd.
    rewrite length_app in Hlt.
    pose proof Hnd as Hnd0.
    apply NoDup_app in Hnd as (Hnda & Hdisj & Hndb).
    apply NoDup_app in Hndb as (Hndcb & Hdisjb & Hndrest).
    destruct (AppendNodeList_sound_concatenates s a b ca cb)
      as (s1 & Hrun & _ & _ & Hs1); [congruence | done | done | | lia |].
    { intros c Hc Hc'. apply (Hdisj c Hc). apply elem_of_app. by left. }
    specialize (Hs1 Hne Hcbne).
    (* the shape of the store after the append *)
    pose proof Hsa as (ha & ka & Ha & Hca).
    pose proof Hsb as (hb & kb & Hb & Hcb).
    destruct (exists_last Hne) as (l1 & [t np] & ->).
    assert (last_cell (l1 ++ [(t, np)]) = At t) as Hlast
      by (unfold last_cell; by rewrite last_snoc).
    rewrite Hlast in Ha.
    assert (t ∈ (l1 ++ [(t, np)]).*1) as Hta
      by (rewrite fmap_app; apply elem_of_app; right; left).
    destruct (chain_cells _ _ _ _ _ Hca Hta) as (np0 & nx & Ht).
    rewrite (AppendNodeList_links_store _ _ _ _ _ _ _ _ _ _ _ Ha Hb Ht) in Hrun.
    injection Hrun as <-.
    assert (t ∉ (concat cbs').*1) as Htrest.
    { intros Hin. apply (Hdisj t Hta). rewrite elem_of_app. by right. }
    pose proof (Forall2_sound_frame s a
                  (SQLNodeList ha (last_cell cb)
                     (wrap64 (N.of_nat (length (l1 ++ [(t, np)]))
                              + N.of_nat (length cb))))
                  t (SQLLinkedNode np0 hb) _ _ _ _ _ (brk s) bs cbs'
                  Ha Ht Htrest Hall) as Hall'.
    destruct (IH cbs' _ a ((l1 ++ [(t, np)]) ++ cb) Hs1) as (s2 & Hrun2 & Hs2 & Hsize & Hel).
    { intros Heq. apply app_eq_nil in Heq as [_ ->]. done. }
    { done. }
    { by rewrite (fmap_app fst (l1 ++ [(t, np)]) cb), <- app_assoc. }
    { rewrite (length_app (l1 ++ [(t, np)]) cb). lia. }
    exists s2. simpl. unfold bind.
    rewrite (AppendNodeList_links_store _ _ _ _ _ _ _ _ _ _ _ Ha Hb Ht).
    split; [done|]. rewrite <- !app_assoc in *.
    split; [done|].
    rewrite Hsize, Hel. rewrite !length_app, !fmap_app, <- !app_assoc.
    split; [f_equal; f_equal; simpl; lia | done].
Qed.

(** X4.  [AppendNodeList] on a sound empty target and a sound source: the
    target takes the size and the elements of the source, and its tail is
    its head cell.  The target is a sound list afterwards exactly when the
    source has at most one element. *)
Theorem AppendNodeList_adopts_contents s a b cb :
  a <> b ->
  sound_list s a [] -> sound_list s b cb ->
  exists s',
    AppendNodeList (At a) (At b) s = Done tt s' /\
    reported_size s' (At a) = Some (N.of_nat (length cb)) /\
    elements s' (At a) = Some cb.*2 /\
    tail_field s' (At a)
      = Some (match cb with [] => NULL | (c, _) :: _ => At c end) /\
    (sound_list s' a cb <-> length cb <= 1).
Proof.
  intros Hab (ha & ka & Ha & Hca) (hb & kb & Hb & Hcb).
  change (last_cell []) with NULL in Ha.
  destruct (AppendNodeList_adopts _ _ _ _ _ _ _ _ _ _ Hab Ha Hb Hcb)
    as (s' & Hrun & Ha' & _ & Hch).
  exists s'. split; [done|].
  split; [by rewrite (reported_size_live _ _ _ _ _ Ha')|].
  split; [by rewrite (elements_live _ _ _ _ _ _ _ Ha' Hch)|].
  assert (hb = match cb with [] => NULL | (c, _) :: _ => At c end) as Hhead.
  { destruct cb as [|[c np] cb']; [by eapply chain_nil | by eapply chain_head]. }
  split; [unfold tail_field; by rewrite (get_tail_live _ _ _ _ _ Ha'), <- Hhead|].
  split.
  - intros (h' & k' & Ha'' & _). rewrite Ha' in Ha''.
    injection Ha'' as _ Htail.
    destruct cb as [|[c1 np1] [|[c2 np2] cb']]; simpl; [lia | lia | exfalso].
    pose proof (chain_NoDup _ _ _ _ Hch) as Hnd.
    destruct (exists_last (l := (c2, np2) :: cb')) as (l2 & [t np] & Heq); [done|].
    rewrite Hhead in Htail. unfold last_cell in Htail.
    rewrite Heq, app_comm_cons, last_snoc in Htail. injection Htail as ->.
    rewrite Heq in Hnd. simpl in Hnd.
    apply NoDup_cons in Hnd as [Hnd _]. apply Hnd.
    rewrite fmap_app. apply elem_of_app. right. left.
  - intros Hle. exists hb, kb. split; [|done]. rewrite Ha'. f_equal.
    destruct cb as [|[c1 np1] [|[c2 np2] cb']]; simpl in *; [| |lia].
    + by rewrite Hhead.
    + by rewrite Hhead.
Qed.

(** Walking, in the memory [m1], a chain of [m] whose last cell [t] has been
    linked to [q]. *)
Lemma chain_relinked m m1 t np q :
  m1 !! t = Some (SQLLinkedNode np q) ->
  forall l1 k h,
    chain k m h = Some (l1 ++ [(t, np)]) ->
    (forall c, c ∈ l1.*1 -> m1 !! c = m !! c) ->
    forall k' l, chain k' m1 h = Some l ->
                 exists l' k'', l = l1 ++ (t, np) :: l' /\ chain k'' m1 q = Some l'.
Proof.
  intros Ht. induction l1 as [|[c npc] l1 IH]; intros k h Hch Hagree k' l Hl.
  - simpl in Hch. pose proof (chain_head _ _ _ _ _ _ Hch) as ->.
    apply chain_At_inv in Hl as (k0 & np' & nx & l' & -> & Hc & Hl & ->).
    rewrite Ht in Hc. injection Hc as <- <-. eauto.
  - simpl in Hch. pose proof (chain_head _ _ _ _ _ _ Hch) as ->.
    apply chain_At_inv in Hch as (k0 & np' & nx & l0 & -> & Hc & Hch & [= <- <-]).
    apply chain_At_inv in Hl as (k1 & np1 & nx1 & l1' & -> & Hc1 & Hl & ->).
    rewrite Hagree in Hc1 by left. rewrite Hc in Hc1. injection Hc1 as <- <-.
    destruct (IH _ _ Hch (fun c' Hc' => Hagree c' (list_elem_of_further _ _ _ Hc')) _ _ Hl)
      as (l' & k'' & -> & Hq).
    eauto.
Qed.

(** X5.  A list appended onto itself.  An empty sound list stays empty.  A
    sound list that is not empty becomes cyclic: the call completes, the
    size is doubled (modulo 2^64), and from the head no number of steps
    reaches the null pointer, so the traversal has no result. *)
Theorem AppendNodeList_onto_itself s a ca :
  sound_list s a ca ->
  exists s',
    AppendNodeList (At a) (At a) s = Done tt s' /\
    reported_size s' (At a)
      = Some (if decide (ca = []) then 0%N
              else wrap64 (N.of_nat (length ca) + N.of_nat (length ca))) /\
    elements s' (At a) = (if decide (ca = []) then Some [] else None) /\
    (ca <> [] ->
     exists h, GetHead (At a) s' = Done h s' /\
               forall k, chain k (live s') h = None).
Proof.
  intros (ha & ka & Ha & Hca).
  destruct (decide (ca = [])) as [->|Hne].
  - apply chain_nil in Hca as ->. change (last_cell []) with NULL in Ha.
    eexists. split; [by eapply AppendNodeList_adopts_store|].
    set (s' := mkStore _ _).
    assert (live s' !! a = Some (SQLNodeList NULL NULL 0)) as Ha'
      by (subst s'; simpl; apply lookup_insert_eq).
    split; [by rewrite (reported_size_live _ _ _ _ _ Ha')|].
    split; [|done].
    by rewrite (elements_live _ _ _ _ _ 0 [] Ha').
  - destruct (exists_last Hne) as (l1 & [t np] & ->).
    assert (last_cell (l1 ++ [(t, np)]) = At t) as Hlast
      by (unfold last_cell; by rewrite last_snoc).
    rewrite Hlast in Ha.
    assert (t ∈ (l1 ++ [(t, np)]).*1) as Hta
      by (rewrite fmap_app; apply elem_of_app; right; left).
    destruct (chain_cells _ _ _ _ _ Hca Hta) as (np0 & nx & Ht).
    assert (np0 = np) as ->.
    { pose proof (chain_from_member _ _ _ _ _ _ _ Hca) as H'.
      apply chain_At_inv in H' as (? & ? & ? & ? & _ & Ht' & _ & [= <- _]).
      congruence. }
    assert (a <> t) as Hat by congruence.
    eexists. split; [by eapply AppendNodeList_links_store|].
    set (s' := mkStore _ _).
    assert (live s' !! a = Some (SQLNodeList ha (At t)
              (wrap64 (N.of_nat (length (l1 ++ [(t, np)])) +
                       N.of_nat (length (l1 ++ [(t, np)])))))) as Ha'
      by (subst s'; simpl; apply lookup_insert_eq).
    assert (forall k, chain k (live s') ha = None) as Hcyc.
    { intros k. destruct (chain k (live s') ha) as [l|] eqn:Hl; [exfalso|done].
      destruct (chain_relinked (live s) (live s') t np ha) with
        (l1 := l1) (k := ka) (h := ha) (k' := k) (l := l)
        as (l' & k'' & -> & Hl'); [| done | | done |].
      - subst s'. simpl. rewrite lookup_insert_ne by done. apply lookup_insert_eq.
      - intros c Hc. subst s'. simpl.
        pose proof (chain_NoDup _ _ _ _ Hca) as Hnd.
        rewrite fmap_app in Hnd. apply NoDup_app in Hnd as (_ & Hdisj & _).
        assert (c <> t) by (intros ->; apply (Hdisj t Hc); left).
        assert (c <> a).
        { intros ->.
          destruct (chain_cells _ _ _ _ a Hca) as (? & ? & ?);
            [rewrite fmap_app; apply elem_of_app; by left | congruence]. }
        by rewrite !lookup_insert_ne.
      - pose proof (chain_det _ _ _ _ _ _ Hl Hl') as Heq.
        apply (f_equal length) in Heq. rewrite length_app in Heq.
        simpl in Heq. lia. }
    split; [by rewrite (reported_size_live _ _ _ _ _ Ha')|].
    split.
    + unfold elements. rewrite (get_head_live _ _ _ _ _ Ha').
      unfold traverse. by rewrite Hcyc.
    + intros _. exists ha. split; [|done].
      unfold GetHead. by rewrite (get_head_live _ _ _ _ _ Ha').
Qed.

(** X6.  Whenever [AppendNodeList] completes it has allocated and released
    nothing, and it has written at most the list object of the target and
    the cell the target's [tail_] pointed to: every other object, the
    source list and all the elements among them, is as before. *)
Theorem AppendNodeList_writes_target_only s this node_list_ptr s' :
  AppendNodeList this node_list_ptr s = Done tt s' ->
  brk s' = brk s /\
  (forall x, is_Some (live s' !! x) <-> is_Some (live s !! x)) /\
  (forall x, this <> At x -> tail_field s this <> Some (At x) ->
             live s' !! x = live s !! x).
Proof.
  intros Hrun. pose proof Hrun as Hrun0. revert Hrun.
  unfold AppendNodeList at 1.
  destruct (decide (NULL = node_list_ptr)) as [<-|Hb].
  { intros [= <-]. done. }
  unfold bind at 1.
  destruct (get_tail this s) as [t s0| |] eqn:Ht; try discriminate.
  apply get_tail_inv in Ht as (a & ha & na & -> & Ha & ->).
  destruct (decide (NULL = t)) as [<-|Hnn].
  - unfold bind at 1.
    destruct (get_head node_list_ptr s) as [hb s0| |] eqn:Hh; try discriminate.
    apply get_head_inv in Hh as (b & tb & nb & -> & Hbo & ->).
    intros _.
    rewrite (AppendNodeList_adopts_store _ _ _ _ _ _ _ _ Ha Hbo) in Hrun0.
    injection Hrun0 as <-. simpl. split; [done|]. split.
    + intros x. destruct (decide (x = a)) as [->|Hx].
      * rewrite lookup_insert_eq, Ha. split; eauto.
      * by rewrite lookup_insert_ne.
    + intros x Hx _. rewrite lookup_insert_ne; [done | congruence].
  - unfold bind at 1.
    destruct (get_head node_list_ptr s) as [hb s0| |] eqn:Hh; try discriminate.
    apply get_head_inv in Hh as (b & tb & nb & -> & Hbo & ->).
    unfold bind at 1.
    destruct (set_next t hb s) as [[] s0| |] eqn:Hn; try discriminate.
    apply set_next_inv in Hn as (c & np & nx & -> & Hc).
    intros _.
    rewrite (AppendNodeList_links_store _ _ _ _ _ _ _ _ _ _ _ Ha Hbo Hc) in Hrun0.
    injection Hrun0 as <-. simpl. split; [done|]. split.
    + intros x. destruct (decide (x = a)) as [->|Hx].
      * rewrite lookup_insert_eq, Ha. split; eauto.
      * rewrite lookup_insert_ne by done.
        destruct (decide (x = c)) as [->|Hx'].
        -- rewrite lookup_insert_eq, Hc. split; eauto.
        -- by rewrite lookup_insert_ne.
    + intros x Hx Hxt. unfold tail_field in Hxt.
      rewrite (get_tail_live _ _ _ _ _ Ha) in Hxt.
      rewrite !lookup_insert_ne; [done | congruence | congruence].
Qed.

(** ** Destruction *)

(** X7.  [delete] on a tree of nodes that is owned through determinate
    pointers and whose objects are pairwise distinct: with any bound on the
    nesting above some [k] the deletion completes, the objects of the tree
    are released and every other object is as before. *)
Theorem delete_node_releases_owned_tree m b p F :
  owns m p F -> NoDup F ->
  exists k, forall k', k <= k' ->
    exists s',
      delete_node k' p (mkStore m b) = Done tt s' /\
      brk s' = b /\
      forall x, live s' !! x = if decide (x ∈ F) then None else m !! x.
Proof.
  intros Ho Hnd. destruct (proj1 (delete_owned m) p F Ho Hnd) as [k Hk].
  exists k. intros k' Hle. eexists. split; [by apply (Hk k' Hle)|].
  split; [done|]. intros x. apply lookup_remove_all.
Qed.

(** X8.  The same for [delete] on a list: the cells, the elements with all
    they own, and the list object are released, and nothing else. *)
Theorem delete_list_releases_owned_list m b p F :
  owns_list m p F -> NoDup F ->
  exists k, forall k', k <= k' ->
    exists s',
      delete_list k' p (mkStore m b) = Done tt s' /\
      brk s' = b /\
      forall x, live s' !! x = if decide (x ∈ F) then None else m !! x.
Proof.
  intros Ho Hnd.
  destruct (proj1 (proj2 (delete_owned m)) p F Ho Hnd) as [k Hk].
  exists k. intros k' Hle. eexists. split; [by apply (Hk k' Hle)|].
  split; [done|]. intros x. apply lookup_remove_all.
Qed.

(** The last step of a deletion releases the object itself. *)
Lemma releases_bind {A} a (c : M A) (k : A -> M unit) :
  (forall x, releases a (k x)) -> releases a (bind c k).
Proof.
  intros Hk s s'. unfold bind. destruct (c s) as [x s1| |]; try discriminate.
  apply Hk.
Qed.

Lemma releases_release a : releases a (release (At a)).
Proof.
  intros s s'. unfold release. destruct (live s !! a); [|discriminate].
  intros [= <-]. simpl. apply lookup_delete_eq.
Qed.

Lemma releases_undefined a : releases a undefined.
Proof. intros s s'. discriminate. Qed.

Ltac releases_last :=
  repeat (apply releases_bind; intros ?);
  first [ apply releases_release | apply releases_undefined ].

Lemma delete_node_releases k a : releases a (delete_node k (At a)).
Proof.
  destruct k as [|k]; [intros s s'; discriminate|].
  cbn [delete_node]. apply releases_bind. intros []; releases_last.
Qed.

Lemma delete_list_releases k a : releases a (delete_list k (At a)).
Proof.
  destruct k as [|k]; [intros s s'; discriminate|].
  cbn [delete_list]. releases_last.
Qed.

Lemma load_dead s a :
  live s !! a = None ->
  forall A (k : object -> M A), bind (load (At a)) k s = Undefined.
Proof. intros H A k. unfold bind, load. by rewrite H. Qed.

(** X9.  Once [delete] on a node or on a list has completed, the object is
    not allocated any more, and a second [delete] on the same pointer is
    undefined, whatever the bound on the nesting. *)
Theorem delete_twice_is_undefined k a s s' :
  delete_node k (At a) s = Done tt s' \/ delete_list k (At a) s = Done tt s' ->
  live s' !! a = None /\
  (forall k', delete_node (S k') (At a) s' = Undefined) /\
  (forall k', delete_list (S k') (At a) s' = Undefined).
Proof.
  intros H.
  assert (live s' !! a = None) as Hdead.
  { destruct H as [H|H];
      [by eapply delete_node_releases | by eapply delete_list_releases]. }
  split; [done|]. split; intros k'.
  - cbn [delete_node]. by apply load_dead.
  - cbn [delete_list]. unfold set_tail.
    unfold bind at 1. by rewrite load_dead.
Qed.

(** Ownership reads the memory at the addresses of the footprint only. *)
Ltac sub_footprint :=
  match goal with
  | H : forall x, x ∈ _ -> _ !! x = _ !! x |- _ =>
      intros; apply H; rewrite ?elem_of_app, ?elem_of_cons; tauto
  end.

Lemma owns_agree m m' :
  (forall p F, owns m p F ->
     (forall x, x ∈ F -> m' !! x = m !! x) -> owns m' p F) /\
  (forall p F, owns_list m p F ->
     (forall x, x ∈ F -> m' !! x = m !! x) -> owns_list m' p F) /\
  (forall p F, owns_cells m p F ->
     (forall x, x ∈ F -> m' !! x = m !! x) -> owns_cells m' p F).
Proof.
  apply owns_mutind; intros;
    try (constructor; fail);
    (econstructor;
     [ match goal with
       | H : forall x, x ∈ _ -> _ !! x = _ !! x |- _ =>
           rewrite H; [eassumption | rewrite ?elem_of_app, ?elem_of_cons; tauto]
       end
     | .. ]);
    match goal with
    | IH : _ -> ?G |- ?G => apply IH; sub_footprint
    end.
Qed.

(** The cells of a chain are in the footprint of the chain. *)
Lemma owns_cells_chain m k h F l :
  owns_cells m h F -> chain k m h = Some l -> forall c, c ∈ l.*1 -> c ∈ F.
Proof.
  intros Ho. revert k l. induction Ho as [|c np nx Fnode Fcells Hc Hnode Hcells IH];
    intros k l Hch c' Hin.
  - destruct k; injection Hch as <-; by apply elem_of_nil in Hin.
  - apply chain_At_inv in Hch as (k0 & np' & nx' & l' & -> & Hc' & Hl & ->).
    rewrite Hc in Hc'. injection Hc' as <- <-.
    simpl in Hin. apply elem_of_cons in Hin as [->|Hin].
    + rewrite !elem_of_app, elem_of_cons. right; left; by left.
    + rewrite !elem_of_app. right; right. eauto.
Qed.

Lemma owns_list_inv m a F :
  owns_list m (At a) (F ++ [a]) ->
  exists h t n, m !! a = Some (SQLNodeList h t n) /\ owns_cells m h F.
Proof.
  intros H. inversion H as [|a0 h0 t0 n0 F0 Ha0 Ho Heq1 Heq2].
  apply app_inj_tail in Heq2 as [-> _]. eauto.
Qed.

(** An owned chain whose last cell [t] is linked to a second owned chain
    owns the cells and the elements of both. *)
Lemma owns_cells_append m m1 t np hb Fcb :
  owns_cells m hb Fcb ->
  m1 !! t = Some (SQLLinkedNode np hb) ->
  t ∉ Fcb ->
  forall l1 k h F,
    chain k m h = Some (l1 ++ [(t, np)]) ->
    owns_cells m h F -> NoDup F ->
    (forall x, x ∈ F ++ Fcb -> x <> t -> m1 !! x = m !! x) ->
    owns_cells m1 h (F ++ Fcb).
Proof.
  intros Hb Ht HtF.
  induction l1 as [|[c npc] l1 IH]; intros k h F Hch Ho Hnd Hagree.
  - simpl in Hch. destruct h as [| |c];
      [destruct k; discriminate | destruct k; discriminate |].
    apply chain_At_inv in Hch as (k0 & np' & nx & l' & -> & Hc & Hl & [= <- <- <-]).
    destruct nx as [| |c']; [|destruct k0; discriminate|].
    2:{ apply chain_At_inv in Hl as (? & ? & ? & ? & _ & _ & _ & [=]). }
    inversion Ho as [|c0 np0 nx0 Fnode Fcells Hc0 Hnode Hcells]; subst.
    rewrite Hc in Hc0. injection Hc0 as <- <-.
    inversion Hcells; subst.
    rewrite app_nil_r in *. rewrite <- app_assoc.
    apply NoDup_app in Hnd as (_ & Hdisj & _).
    eapply owns_cells_cell; [exact Ht | |].
    + eapply (proj1 (owns_agree m m1)); [done|].
      intros x Hx. apply Hagree; [rewrite !elem_of_app; auto|].
      intros ->. apply (Hdisj t Hx). left.
    + eapply (proj2 (proj2 (owns_agree m m1))); [done|].
      intros x Hx. apply Hagree; [rewrite !elem_of_app; auto|].
      intros ->. done.
  - destruct h as [| |c'];
      [destruct k; discriminate | destruct k; discriminate |].
    pose proof (chain_NoDup _ _ _ _ Hch) as Hndc.
    apply chain_At_inv in Hch as (k0 & np' & nx & l' & -> & Hc & Hl & Heq).
    simpl in Heq. injection Heq as <- <- <-.
    inversion Ho as [|c0 np0 nx0 Fnode Fcells Hc0 Hnode Hcells]; subst.
    rewrite Hc in Hc0. injection Hc0 as <- <-.
    assert (t ∈ Fcells) as HtFc.
    { eapply owns_cells_chain; [done | done |].
      rewrite fmap_app. apply elem_of_app. right. left. }
    assert (c <> t) as Hct.
    { intros ->. simpl in Hndc. apply NoDup_cons in Hndc as [Hn _]. apply Hn.
      rewrite fmap_app. apply elem_of_app. right. left. }
    apply NoDup_app in Hnd as (Hnd1 & Hdisj1 & Hnd).
    apply NoDup_app in Hnd as (_ & Hdisj2 & Hnd2).
    rewrite <- !app_assoc.
    assert (m1 !! c = Some (SQLLinkedNode npc nx)) as Hc1.
    { rewrite Hagree; [done | | done].
      rewrite !elem_of_app, elem_of_cons. left; right; left; by left. }
    eapply owns_cells_cell; [exact Hc1 | |].
    + eapply (proj1 (owns_agree m m1)); [done|].
      intros x Hx. apply Hagree; [rewrite !elem_of_app; auto|].
      intros ->. apply (Hdisj1 t Hx). rewrite elem_of_app. by right.
    + eapply IH; [done | done | done |].
      intros x Hx Hne. apply Hagree; [|done].
      rewrite !elem_of_app in *. tauto.
Qed.

(** After [AppendNodeList] the target owns the cells of both lists. *)
Lemma AppendNodeList_owns s a b ca cb Fca Fcb :
  a <> b ->
  sound_list s a ca -> sound_list s b cb ->
  owns_list (live s) (At a) (Fca ++ [a]) ->
  owns_list (live s) (At b) (Fcb ++ [b]) ->
  NoDup ((Fca ++ [a]) ++ Fcb ++ [b]) ->
  exists m1,
    AppendNodeList (At a) (At b) s = Done tt (mkStore m1 (brk s)) /\
    owns_list m1 (At a) ((Fca ++ Fcb) ++ [a]) /\
    (forall x, x <> a -> x ∉ Fca -> m1 !! x = live s !! x).
Proof.
  intros Hab (ha & ka & Ha & Hca) (hb & kb & Hb & Hcb) Hoa Hob Hnd.
  apply owns_list_inv in Hoa as (h0 & t0 & n0 & Ha0 & Hoca).
  rewrite Ha in Ha0. injection Ha0 as <- <- <-.
  apply owns_list_inv in Hob as (h0 & t0 & n0 & Hb0 & Hocb).
  rewrite Hb in Hb0. injection Hb0 as <- <- <-.
  apply NoDup_app in Hnd as (Hnda & Hdisj & Hndb).
  apply NoDup_app in Hnda as (Hndca & Hdisja & _).
  assert (a ∉ Fca) as HaFca by (intros Hin; apply (Hdisja a Hin); left).
  assert (a ∉ Fcb) as HaFcb.
  { intros Hin. apply (Hdisj a); [rewrite elem_of_app; right; left|].
    rewrite elem_of_app. by left. }
  destruct (decide (ca = [])) as [->|Hne].
  - apply chain_nil in Hca as ->. inversion Hoca; subst.
    change (last_cell []) with NULL in Ha.
    eexists. split; [by eapply AppendNodeList_adopts_store|].
    split.
    + simpl. eapply owns_list_object; [apply lookup_insert_eq|].
      eapply (proj2 (proj2 (owns_agree (live s) _))); [done|].
      intros x Hx. rewrite lookup_insert_ne; [done|]. by intros ->.
    + intros x Hx _. by rewrite lookup_insert_ne.
  - destruct (exists_last Hne) as (l1 & [t np] & ->).
    assert (last_cell (l1 ++ [(t, np)]) = At t) as Hlast
      by (unfold last_cell; by rewrite last_snoc).
    rewrite Hlast in Ha.
    assert (t ∈ (l1 ++ [(t, np)]).*1) as Hta
      by (rewrite fmap_app; apply elem_of_app; right; left).
    destruct (chain_cells _ _ _ _ _ Hca Hta) as (np0 & nx & Ht).
    assert (np0 = np) as ->.
    { pose proof (chain_from_member _ _ _ _ _ _ _ Hca) as H'.
      apply chain_At_inv in H' as (? & ? & ? & ? & _ & Ht' & _ & [= <- _]).
      congruence. }
    assert (t ∈ Fca) as HtFca by (by eapply owns_cells_chain).
    assert (t ∉ Fcb) as HtFcb.
    { intros Hin. apply (Hdisj t); rewrite elem_of_app; by left. }
    assert (a <> t) as Hat by congruence.
    eexists. split; [by eapply AppendNodeList_links_store|].
    split.
    + eapply owns_list_object; [apply lookup_insert_eq|].
      eapply owns_cells_append; try done.
      * rewrite lookup_insert_ne by done. apply lookup_insert_eq.
      * intros x Hx Hxt. rewrite !lookup_insert_ne; [done | done |].
        intros ->. apply elem_of_app in Hx as [?|?]; done.
    + intros x Hxa Hx. rewrite !lookup_insert_ne; [done | | done].
      by intros ->.
Qed.

(** X10.  Two sound lists [a] and [b] that own their cells and elements,
    with no object in common, and [b] not empty.  After
    [a->AppendNodeList(b)], [delete a] completes and releases the cells and
    the elements of both lists and the list object [a]; the list object [b]
    is still allocated and every other object is as before.  [delete b]
    then is undefined: its cells are gone. *)
Theorem delete_after_AppendNodeList_is_double s a b ca cb Fca Fcb :
  a <> b ->
  sound_list s a ca -> sound_list s b cb -> cb <> [] ->
  owns_list (live s) (At a) (Fca ++ [a]) ->
  owns_list (live s) (At b) (Fcb ++ [b]) ->
  NoDup ((Fca ++ [a]) ++ Fcb ++ [b]) ->
  exists s1 k s2,
    AppendNodeList (At a) (At b) s = Done tt s1 /\
    delete_list k (At a) s1 = Done tt s2 /\
    (forall x, x ∈ Fca ++ [a] ++ Fcb -> live s2 !! x = None) /\
    live s2 !! b = live s !! b /\
    (forall x, x ∉ (Fca ++ [a]) ++ Fcb ++ [b] -> live s2 !! x = live s !! x) /\
    (forall k', delete_list (S k') (At b) s2 = Undefined).
Proof.
  intros Hab Hsa Hsb Hne Hoa Hob Hnd.
  destruct (AppendNodeList_owns _ _ _ _ _ _ _ Hab Hsa Hsb Hoa Hob Hnd)
    as (m1 & Hrun & Hown & Hagree).
  destruct Hsb as (hb & kb & Hb & Hcb).
  destruct cb as [|[c0 np0] cb']; [done|].
  pose proof (chain_head _ _ _ _ _ _ Hcb) as ->.
  assert (c0 ∈ Fcb) as Hc0.
  { apply owns_list_inv in Hob as (h0 & t0 & n0 & Hb0 & Hocb).
    rewrite Hb in Hb0. injection Hb0 as <- <- <-.
    eapply owns_cells_chain; [done | done | left]. }
  pose proof Hnd as Hnd0.
  apply NoDup_app in Hnd as (Hnda & Hdisj & Hndb).
  apply NoDup_app in Hnda as (Hndca & Hdisja & _).
  apply NoDup_app in Hndb as (Hndcb & Hdisjb & _).
  assert (b ∉ Fca).
  { intros Hin. apply (Hdisj b); rewrite !elem_of_app; [by left|]. right. left. }
  assert (b ∉ Fcb) by (intros Hin; apply (Hdisjb b Hin); left).
  assert (NoDup ((Fca ++ Fcb) ++ [a])) as Hnd1.
  { apply NoDup_app. split; [|split; [|apply NoDup_singleton]].
    - apply NoDup_app. split; [done|]. split; [|done].
      intros x Hx Hx'. apply (Hdisj x); rewrite !elem_of_app; by left.
    - intros x [Hx|Hx]%elem_of_app ->%list_elem_of_singleton.
      + apply (Hdisja a Hx). left.
      + apply (Hdisj a); rewrite !elem_of_app; [right; left | by left]. }
  destruct (proj1 (proj2 (delete_owned m1)) _ _ Hown Hnd1) as [k Hk].
  specialize (Hk k ltac:(lia) m1 (brk s) ltac:(done)).
  set (F1 := (Fca ++ Fcb) ++ [a]) in *.
  assert (b ∉ F1) as HbF1.
  { subst F1. rewrite !elem_of_app, list_elem_of_singleton. intros [[?|?]|?]; done. }
  assert (remove_all F1 m1 !! b = Some (SQLNodeList (At c0) (last_cell ((c0, np0) :: cb'))
                                    (N.of_nat (length ((c0, np0) :: cb'))))) as Hb2.
  { rewrite lookup_remove_all, decide_False by done.
    rewrite Hagree; [done | congruence | done]. }
  exists (mkStore m1 (brk s)), k, (mkStore (remove_all F1 m1) (brk s)).
  split; [done|]. split; [done|]. simpl live.
  split; [|split; [|split]].
  - intros x Hx. rewrite lookup_remove_all, decide_True; [done|].
    subst F1. rewrite !elem_of_app in *. tauto.
  - by rewrite Hb2.
  - intros x Hx. rewrite lookup_remove_all, decide_False.
    + apply Hagree; intros ?; apply Hx; rewrite !elem_of_app; subst.
      * left. right. left.
      * left. by left.
    + intros Hin. apply Hx. subst F1. rewrite !elem_of_app in *. tauto.
  - intros k'. cbn [delete_list].
    unfold bind at 1.
    rewrite (set_tail_live (mkStore (remove_all F1 m1) (brk s)) b _ _ _ NULL Hb2).
    set (s3 := mkStore _ _).
    assert (live s3 !! b = Some (SQLNodeList (At c0) NULL
              (N.of_nat (length ((c0, np0) :: cb'))))) as Hb3
      by (subst s3; simpl; apply lookup_insert_eq).
    unfold bind at 1. rewrite (get_head_live _ _ _ _ _ Hb3).
    rewrite decide_True by done.
    assert (live s3 !! c0 = None) as Hdead.
    { subst s3. simpl. rewrite lookup_insert_ne by (by intros ->).
      rewrite lookup_remove_all, decide_True; [done|].
      subst F1. rewrite !elem_of_app. left. by right. }
    unfold bind at 1. unfold bind at 1. unfold get_next.
    by rewrite load_dead.
Qed.

(** ** A list built by front insertion, written and destroyed *)

(** The objects of an owned tree are allocated. *)
Lemma owns_live m :
  (forall p F, owns m p F -> forall x, x ∈ F -> is_Some (m !! x)) /\
  (forall p F, owns_list m p F -> forall x, x ∈ F -> is_Some (m !! x)) /\
  (forall p F, owns_cells m p F -> forall x, x ∈ F -> is_Some (m !! x)).
Proof.
  apply owns_mutind; intros;
    repeat match goal with
           | H : _ ∈ [] |- _ => by apply elem_of_nil in H
           | H : _ ∈ _ ++ _ |- _ => apply elem_of_app in H as [H|H]
           | H : _ ∈ [_] |- _ => apply list_elem_of_singleton in H; subst
           | H : _ ∈ _ :: _ |- _ => apply elem_of_cons in H as [->|H]
           end;
    eauto.
Qed.

(** The store [PushFront] leaves. *)
Lemma PushFront_store s a h t n x :
  live s !! a = Some (SQLNodeList h t n) ->
  a <> brk s ->
  PushFront (At a) x s
  = Done tt (mkStore
               (<[a := SQLNodeList (At (brk s))
                         (if decide (NULL = t) then At (brk s) else t)
                         (wrap64 (n + 1))]>
                  (<[brk s := SQLLinkedNode x h]> (live s)))
               (Pos.succ (brk s))).
Proof.
  intros Ha Hac. set (c := brk s).
  unfold PushFront, SQLLinkedNode_new.
  unfold bind at 1. unfold new. fold c.
  set (s1 := mkStore _ _).
  assert (live s1 !! a = Some (SQLNodeList h t n)) as Ha1
    by (subst s1; simpl; by rewrite lookup_insert_ne).
  assert (live s1 !! c = Some (SQLLinkedNode x NULL)) as Hc1
    by (subst s1; simpl; by rewrite lookup_insert_eq).
  unfold bind at 1. rewrite (get_head_live _ _ _ _ _ Ha1).
  unfold bind at 1. rewrite (set_next_live _ _ _ _ _ Hc1).
  set (s2 := mkStore _ _).
  assert (live s2 !! a = Some (SQLNodeList h t n)) as Ha2
    by (subst s2; simpl; by rewrite lookup_insert_ne).
  unfold bind at 1. rewrite (set_head_live _ _ _ _ _ _ Ha2).
  set (s3 := mkStore _ _).
  assert (live s3 !! a = Some (SQLNodeList (At c) t n)) as Ha3
    by (subst s3; simpl; by rewrite lookup_insert_eq).
  unfold bind at 1. rewrite (get_size_live _ _ _ _ _ Ha3).
  unfold bind at 1. rewrite (set_size_live _ _ _ _ _ _ Ha3).
  set (s4 := mkStore _ _).
  assert (live s4 !! a = Some (SQLNodeList (At c) t (wrap64 (n + 1)))) as Ha4
    by (subst s4; simpl; by rewrite lookup_insert_eq).
  unfold bind at 1. rewrite (get_tail_live _ _ _ _ _ Ha4).
  destruct (decide (NULL = t)) as [<-|Hne].
  - unfold bind at 1. rewrite (get_head_live _ _ _ _ _ Ha4).
    rewrite (set_tail_live _ _ _ _ _ _ Ha4).
    subst s4 s3 s2 s1. simpl. f_equal. f_equal.
    by rewrite !insert_insert_eq.
  - subst s4 s3 s2 s1. unfold ret. simpl. f_equal. f_equal.
    by rewrite !insert_insert_eq.
Qed.

(** X19.  Whenever [PushFront] completes it has allocated one cell, at the
    break of the store, that holds the element and the former head, and it
    has written the list object: the target is a list object other than
    the new cell, and afterwards its [head_] is the new cell, its [size_]
    is one more (modulo 2^64) and its [tail_] is the new cell when it was
    null and is unchanged otherwise.  Every other object is as before, and
    nothing is released: the allocated addresses are those of before and
    the new cell. *)
Theorem PushFront_writes_target_only s this x s' :
  PushFront this x s = Done tt s' ->
  brk s' = Pos.succ (brk s) /\
  (exists h, live s' !! brk s = Some (SQLLinkedNode x h) /\
             get_head this s = Done h s) /\
  (forall y, this <> At y -> y <> brk s -> live s' !! y = live s !! y) /\
  (exists a h t n,
      this = At a /\ a <> brk s /\
      live s !! a = Some (SQLNodeList h t n) /\
      live s' !! a = Some (SQLNodeList (At (brk s))
                             (if decide (NULL = t) then At (brk s) else t)
                             (wrap64 (n + 1)))) /\
  (forall y, is_Some (live s' !! y) <-> y = brk s \/ is_Some (live s !! y)).
Proof.
  intros Hrun. pose proof Hrun as Hrun0. revert Hrun.
  unfold PushFront at 1, SQLLinkedNode_new.
  unfold bind at 1. unfold new.
  set (s1 := mkStore _ _).
  unfold bind at 1.
  destruct (get_head this s1) as [h s0| |] eqn:Hh; try discriminate.
  apply get_head_inv in Hh as (a & t & n & -> & Ha1 & ->).
  intros _.
  assert (a <> brk s) as Hac.
  { intros ->. subst s1. simpl in Ha1. by rewrite lookup_insert_eq in Ha1. }
  assert (live s !! a = Some (SQLNodeList h t n)) as Ha
    by (subst s1; simpl in Ha1; by rewrite lookup_insert_ne in Ha1).
  rewrite (PushFront_store _ _ _ _ _ x Ha Hac) in Hrun0.
  injection Hrun0 as <-. simpl. split; [done|].
  split; [|split; [|split]].
  - exists h. rewrite lookup_insert_ne by done. rewrite lookup_insert_eq.
    by rewrite (get_head_live _ _ _ _ _ Ha).
  - intros y Hya Hyc. rewrite !lookup_insert_ne; [done | done | congruence].
  - exists a, h, t, n. by rewrite lookup_insert_eq.
  - intros y. destruct (decide (y = a)) as [->|Hya].
    + rewrite lookup_insert_eq, Ha. split; eauto.
    + rewrite lookup_insert_ne by done.
      destruct (decide (y = brk s)) as [->|Hyc].
      * rewrite lookup_insert_eq. split; eauto.
      * rewrite lookup_insert_ne by done. split; [eauto|].
        by intros [?|?].
Qed.

Lemma Forall2_owns_agree m m' xs Fs :
  Forall2 (owns m) xs Fs ->
  (forall y, y ∈ concat Fs -> m' !! y = m !! y) ->
  Forall2 (owns m') xs Fs.
Proof.
  intros Hall. induction Hall as [|x Fx xs Fs Hx Hall IH]; intros Hagree;
    constructor.
  - eapply (proj1 (owns_agree m m')); [done|].
    intros y Hy. apply Hagree. simpl. apply elem_of_app. by left.
  - apply IH. intros y Hy. apply Hagree. simpl. apply elem_of_app. by right.
Qed.

Lemma Forall2_owns_live m xs Fs :
  Forall2 (owns m) xs Fs -> forall y, y ∈ concat Fs -> is_Some (m !! y).
Proof.
  intros Hall. induction Hall as [|x Fx xs Fs Hx Hall IH]; intros y Hy.
  - by apply elem_of_nil in Hy.
  - simpl in Hy. apply elem_of_app in Hy as [Hy|Hy]; [|by apply IH].
    by eapply (proj1 (owns_live m)).
Qed.

(** Pushing owned elements onto a list that owns its cells. *)
Lemma PushFront_each_owns xs : forall Fs s a F,
  fresh_store s ->
  owns_list (live s) (At a) (F ++ [a]) ->
  NoDup (F ++ [a]) ->
  Forall2 (owns (live s)) xs Fs ->
  NoDup (concat Fs) ->
  (forall y, y ∈ concat Fs -> y ∉ F ++ [a]) ->
  exists s' F',
    PushFront_each (At a) xs s = Done tt s' /\
    owns_list (live s') (At a) (F' ++ [a]) /\
    NoDup (F' ++ [a]) /\
    fresh_store s' /\
    (brk s <= brk s')%positive /\
    (forall y, y ∈ F' <->
               y ∈ F \/ y ∈ concat Fs \/ (brk s <= y < brk s')%positive) /\
    (forall y, y <> a -> (y < brk s)%positive -> live s' !! y = live s !! y).
Proof.
  induction xs as [|x xs IH]; intros Fs s a F Hfresh Hown Hnd Hall HndFs Hdisj.
  - apply Forall2_nil_inv_l in Hall as ->.
    exists s, F. simpl. split; [done|]. split; [done|]. split; [done|].
    split; [done|]. split; [lia|]. split; [|done].
    intros y. split; [auto|]. intros [?|[[]%elem_of_nil|?]]; [done|lia].
  - apply Forall2_cons_inv_l in Hall as (Fx & Fs' & Hx & Hall & ->).
    simpl concat in *.
    apply NoDup_app in HndFs as (HndFx & HdisjFx & HndFs').
    pose proof Hown as Hown0.
    apply owns_list_inv in Hown as (h & t & n & Ha & Hcells).
    set (c := brk s).
    pose proof (fresh_store_live _ _ _ Hfresh Ha) as Hlt. fold c in Hlt.
    assert (a <> c) as Hac by lia.
    assert (forall y o, live s !! y = Some o -> y <> c) as Hold.
    { intros y o Hy. apply (fresh_store_live _ _ _ Hfresh) in Hy. fold c in Hy. lia. }
    assert (forall y, y ∈ Fx -> y <> c /\ y <> a /\ y ∉ F) as HFx.
    { intros y Hy.
      destruct (proj1 (owns_live (live s)) _ _ Hx y Hy) as [o Ho].
      split; [by eapply Hold|].
      assert (y ∉ F ++ [a]) as Hn by (apply Hdisj, elem_of_app; by left).
      rewrite elem_of_app, list_elem_of_singleton in Hn. tauto. }
    assert (forall y, y ∈ F -> y <> c /\ y <> a) as HF.
    { intros y Hy.
      destruct (proj2 (proj2 (owns_live (live s))) _ _ Hcells y Hy) as [o Ho].
      split; [by eapply Hold|].
      apply NoDup_app in Hnd as (_ & Hd & _). intros ->. apply (Hd a Hy). left. }
    cbn [PushFront_each].
    unfold bind at 1. rewrite (PushFront_store _ _ _ _ _ x Ha Hac). fold c.
    set (m1 := <[a := _]> (<[c := _]> (live s))).
    set (s1 := mkStore m1 (Pos.succ c)).
    assert (forall y, y <> a -> y <> c -> m1 !! y = live s !! y) as Hsame.
    { intros y Hya Hyc. subst m1. by rewrite !lookup_insert_ne. }
    assert (fresh_store s1) as Hfresh1.
    { intros y Hy. subst s1. simpl in *. rewrite Hsame by lia.
      apply Hfresh. fold c. lia. }
    assert (owns_list (live s1) (At a) ((Fx ++ [c] ++ F) ++ [a])) as Hown1.
    { subst s1. simpl. eapply owns_list_object; [subst m1; apply lookup_insert_eq|].
      eapply owns_cells_cell.
      - subst m1. rewrite lookup_insert_ne by done. apply lookup_insert_eq.
      - eapply (proj1 (owns_agree (live s) m1)); [done|].
        intros y Hy. destruct (HFx y Hy) as (? & ? & _). by apply Hsame.
      - eapply (proj2 (proj2 (owns_agree (live s) m1))); [done|].
        intros y Hy. destruct (HF y Hy). by apply Hsame. }
    assert (NoDup ((Fx ++ [c] ++ F) ++ [a])) as Hnd1.
    { apply NoDup_app in Hnd as (HndF & _ & _).
      apply NoDup_app. split; [|split; [|apply NoDup_singleton]].
      - apply NoDup_app. split; [done|]. split.
        + intros y Hy [->|HyF]%elem_of_cons.
          * by destruct (HFx c Hy).
          * by destruct (HFx y Hy) as (_ & _ & ?).
        + apply NoDup_cons. split; [|done]. intros Hc. by destruct (HF c Hc).
      - intros y Hy ->%list_elem_of_singleton.
        apply elem_of_app in Hy as [Hy|[->|Hy]%elem_of_cons].
        + by destruct (HFx a Hy) as (_ & ? & _).
        + done.
        + by destruct (HF a Hy). }
    assert (Forall2 (owns (live s1)) xs Fs') as Hall1.
    { eapply Forall2_owns_agree; [exact Hall|].
      intros y Hy. subst s1. simpl.
      destruct (Forall2_owns_live _ _ _ Hall y Hy) as [o Ho].
      apply Hsame; [|by eapply Hold].
      assert (y ∉ F ++ [a]) as Hn by (apply Hdisj, elem_of_app; by right).
      rewrite elem_of_app, list_elem_of_singleton in Hn. tauto. }
    destruct (IH Fs' s1 a (Fx ++ [c] ++ F) Hfresh1 Hown1 Hnd1 Hall1 HndFs')
      as (s' & F' & Hrun & Hown' & Hnd' & Hfresh' & Hle & HF' & Hframe).
    { intros y Hy.
      destruct (Forall2_owns_live _ _ _ Hall y Hy) as [o Ho].
      assert (y ∉ F ++ [a]) as Hn by (apply Hdisj, elem_of_app; by right).
      rewrite !elem_of_app, !list_elem_of_singleton in *.
      intros [[HyFx|[->|?]]|?]; [|by eapply Hold|tauto..].
      by apply (HdisjFx y HyFx). }
    exists s', F'. split; [done|]. split; [done|]. split; [done|].
    split; [done|]. subst s1; simpl in *. split; [lia|]. split.
    + intros y. rewrite HF', ?elem_of_app, ?elem_of_cons, ?list_elem_of_singleton.
      fold c. split.
      * intros [[?|[->|?]]|[?|?]]; auto; right; right; lia.
      * intros [?|[[?|?]|?]]; auto.
        destruct (decide (y = c)) as [->|?]; [auto|]. right; right; lia.
    + intros y Hya Hy. fold c in Hy. rewrite Hframe by (simpl; lia).
      apply Hsame; [done|lia].
Qed.

(** X20.  In a fresh store, a new list onto which elements are pushed that
    are null or own their trees, with no object in common, is destroyed
    whole by [delete]: the deletion completes with some bound on the
    nesting, and it leaves the store as it was before the list was built,
    without the objects of the elements: the list object, every cell and
    every element are released, none twice, and nothing else. *)
Theorem pushed_list_is_destroyed_whole xs Fs s :
  fresh_store s ->
  Forall2 (owns (live s)) xs Fs ->
  NoDup (concat Fs) ->
  exists s1 l k s2,
    pushed xs s = Done (At l) s1 /\
    delete_list k (At l) s1 = Done tt s2 /\
    brk s2 = brk s1 /\
    forall y, live s2 !! y
              = if decide (y ∈ concat Fs) then None else live s !! y.
Proof.
  intros Hfresh Hall Hnd.
  set (l := brk s).
  set (s0 := mkStore (<[l := SQLNodeList NULL NULL 0]> (live s)) (Pos.succ l)).
  assert (forall y o, live s !! y = Some o -> (y < l)%positive) as Hold
    by (intros y o Hy; by apply (fresh_store_live _ _ _ Hfresh) in Hy).
  assert (fresh_store s0) as Hfresh0.
  { intros y Hy. subst s0. simpl in *. rewrite lookup_insert_ne by lia.
    apply Hfresh. fold l. lia. }
  assert (forall y, y ∈ concat Fs -> (y < l)%positive) as HFs.
  { intros y Hy. destruct (Forall2_owns_live _ _ _ Hall y Hy) as [o Ho].
    by eapply Hold. }
  destruct (PushFront_each_owns xs Fs s0 l [] Hfresh0)
    as (s1 & F' & Hrun & Hown & Hnd' & Hfresh1 & Hle & HF' & Hframe).
  { eapply (owns_list_object _ l NULL NULL 0 []);
      [subst s0; simpl; apply lookup_insert_eq | constructor]. }
  { apply NoDup_singleton. }
  { eapply Forall2_owns_agree; [exact Hall|].
    intros y Hy. subst s0. simpl. rewrite lookup_insert_ne; [done|].
    apply HFs in Hy. lia. }
  { done. }
  { intros y Hy ->%list_elem_of_singleton. apply HFs in Hy. lia. }
  destruct (proj1 (proj2 (delete_owned (live s1))) _ _ Hown Hnd') as [k Hk].
  specialize (Hk k ltac:(lia) (live s1) (brk s1) ltac:(done)).
  exists s1, l, k, (mkStore (remove_all (F' ++ [l]) (live s1)) (brk s1)).
  split.
  { unfold pushed, bind, SQLNodeList_new, new. fold l. fold s0. by rewrite Hrun. }
  split; [by destruct s1|]. split; [done|].
  intros y. simpl. rewrite lookup_remove_all.
  subst s0. simpl in *.
  destruct (decide (y ∈ concat Fs)) as [Hy|Hy].
  - rewrite decide_True; [done|]. apply elem_of_app. left. apply HF'. auto.
  - destruct (decide (y ∈ F' ++ [l])) as [Hin|Hnin].
    + symmetry. apply Hfresh. fold l.
      apply elem_of_app in Hin as [Hin| ->%list_elem_of_singleton]; [|lia].
      apply HF' in Hin as [Hnil|[?|?]]; [by apply elem_of_nil in Hnil|done|lia].
    + rewrite elem_of_app, list_elem_of_singleton, HF' in Hnin.
      destruct (decide (y < l)%positive) as [Hlt|Hge].
      * rewrite Hframe by lia. rewrite lookup_insert_ne by lia. done.
      * rewrite (Hfresh y) by (fold l; lia). apply Hfresh1.
        destruct (decide (brk s1 <= y)%positive); [done|].
        exfalso. apply Hnin. left. right. right. lia.
Qed.

(** ** Members replaced without being destroyed *)

Lemma FillSelectAttributions_live s a lim sel tab wh gr hv ord win sl' tl' wl' lim' :
  live s !! a = Some (SelectStmt lim sel tab wh gr hv ord win) ->
  FillSelectAttributions (At a) sl' tl' wl' lim' s
  = Done tt (mkStore (<[a := SelectStmt lim' sl' tl' wh gr hv ord wl']> (live s))
                     (brk s)).
Proof.
  intros H. unfold FillSelectAttributions, bind, load, store_at. by rewrite H, H.
Qed.

Lemma FillWindowSpection_live s a pl ol fr pl' ol' fr' :
  live s !! a = Some (WindowDefNode pl ol fr) ->
  FillWindowSpection (At a) pl' ol' fr' s
  = Done tt (mkStore (<[a := WindowDefNode pl' ol' fr']> (live s)) (brk s)).
Proof.
  intros H. unfold FillWindowSpection, bind, load, store_at. by rewrite H, H.
Qed.

Lemma delete_node_childless s a o k :
  live s !! a = Some o ->
  o = SelectStmt NULL NULL NULL NULL NULL NULL NULL NULL \/
  o = WindowDefNode NULL NULL NULL ->
  delete_node (S k) (At a) s = Done tt (mkStore (delete a (live s)) (brk s)).
Proof.
  intros H [-> | ->]; cbn [delete_node]; unfold bind at 1; unfold load; rewrite H;
    destruct k; cbn [delete_node delete_list]; unfold bind, ret, release;
    by rewrite H.
Qed.

(** X11.  [FillSelectAttributions] and [FillWindowSpection] overwrite the
    members and destroy nothing.  A new statement (a new window
    definition) that is filled with any children, filled again with null
    pointers and then destroyed leaves every object that was allocated
    before still allocated: the children given first are not released. *)
Theorem Fill_replaces_without_destroying s sl tl wl lim pl ol fr k :
  live s !! brk s = None ->
  refilled_select sl tl wl lim (S k) s
  = Done tt (mkStore (live s) (Pos.succ (brk s))) /\
  refilled_window pl ol fr (S k) s
  = Done tt (mkStore (live s) (Pos.succ (brk s))).
Proof.
  intros Hfresh. unfold refilled_select, refilled_window. split.
  - unfold bind at 1. unfold SelectStmt_new, new.
    set (s1 := mkStore _ _).
    unfold bind at 1.
    erewrite (FillSelectAttributions_live s1) by (subst s1; apply lookup_insert_eq).
    set (s2 := mkStore _ _).
    unfold bind at 1.
    erewrite (FillSelectAttributions_live s2) by (subst s2; apply lookup_insert_eq).
    set (s3 := mkStore _ _).
    erewrite (delete_node_childless s3);
      [ | subst s3; apply lookup_insert_eq | by left ].
    subst s3 s2 s1. simpl. f_equal. f_equal.
    rewrite !insert_insert_eq. by apply delete_insert_id.
  - unfold bind at 1. unfold WindowDefNode_new, new.
    set (s1 := mkStore _ _).
    unfold bind at 1.
    erewrite (FillWindowSpection_live s1) by (subst s1; apply lookup_insert_eq).
    set (s2 := mkStore _ _).
    unfold bind at 1.
    erewrite (FillWindowSpection_live s2) by (subst s2; apply lookup_insert_eq).
    set (s3 := mkStore _ _).
    erewrite (delete_node_childless s3);
      [ | subst s3; apply lookup_insert_eq | by right ].
    subst s3 s2 s1. simpl. f_equal. f_equal.
    rewrite !insert_insert_eq. by apply delete_insert_id.
Qed.

End ListExtras.

(** * Further properties of the printer, of the literals and of the
    mutators *)

Section PrinterExtras.
Import Ast Text.
#[local] Open Scope string_scope.

Context (NameOfSQLNodeType : SQLNodeType -> string)
        (show_float show_double : N -> string)
        (insert_SQLNode : SQLNode -> option string)
        (chars : gmap positive string).

#[local] Abbreviation Print :=
  (Ast.Print NameOfSQLNodeType show_float show_double insert_SQLNode chars).
#[local] Abbreviation PrintList :=
  (Ast.PrintList NameOfSQLNodeType show_float show_double insert_SQLNode chars).
#[local] Abbreviation PrintCells :=
  (Ast.PrintCells NameOfSQLNodeType show_float show_double insert_SQLNode chars).
#[local] Abbreviation printable :=
  (Ast.printable show_float show_double insert_SQLNode chars).
#[local] Abbreviation printable_list :=
  (Ast.printable_list show_float show_double insert_SQLNode chars).
#[local] Abbreviation printable_cells :=
  (Ast.printable_cells show_float show_double insert_SQLNode chars).
#[local] Abbreviation ConstNode_value :=
  (Ast.ConstNode_value show_float show_double chars).

Tactic Notation "unfold_Print" "in" hyp(H) :=
  cbn [Ast.Print Ast.PrintList Ast.PrintCells] in H.
Tactic Notation "unfold_printable" :=
  cbn [Ast.printable Ast.printable_ptr Ast.printable_target
       Ast.printable_lptr Ast.printable_list Ast.printable_cells].

(** ** Where the printer is defined *)

Lemma is_Some_None_inv {A} (P : Prop) : is_Some (@None A) -> P.
Proof. by intros [x [=]]. Qed.

(** The pieces of a defined print are defined. *)
Ltac split_cat H :=
  repeat match type of H with
         | is_Some (_ +++ _) =>
             let H1 := fresh "Hpiece" in
             apply cat_is_Some_inv in H as [H1 H]
         end.

Ltac use_IH :=
  match goal with
  | IH : forall c, _ = _ -> forall tab, is_Some _ -> _ |- _ =>
      eapply IH; [reflexivity | eassumption]
  end.

(** One pointer member: its case in the print against its case in
    [printable]. *)
Ltac member_printable :=
  match goal with
  | Hp : is_Some (match ?p with _ => _ end) |- ?G =>
      match G with context [p] => idtac end;
      destruct p; cbv beta match in Hp; cbn;
      first [ reflexivity
            | exact (is_Some_None_inv _ Hp)
            | split_cat Hp;
              first [ use_IH
                    | apply bool_decide_eq_true_2; assumption ] ]
  end.

(** The printer is defined on printable trees only. *)
Lemma printable_defined :
  (forall n, forall tab, is_Some (Print n tab) -> printable n = true) /\
  (forall d t ln loc, forall tab, is_Some (Print (Node t ln loc d) tab) ->
                      printable (Node t ln loc d) = true) /\
  (forall p c, p = To c -> forall tab, is_Some (Print c tab) ->
               printable c = true) /\
  (forall p l, p = ToList l -> forall tab, is_Some (PrintList l tab) ->
               printable_list l = true) /\
  (forall l, forall tab, is_Some (PrintList l tab) -> printable_list l = true) /\
  (forall c, forall tab, is_Some (PrintCells c tab) -> printable_cells c = true).
Proof.
  apply ast_mutind.
  - (* Node *) intros t ln loc d IH. apply IH.
  - (* SelectStmt *)
    intros d lim IHlim sl IHsl tl IHtl wh IHwh gr IHgr hv IHhv ord IHord wl IHwl
           t ln loc tab H.
    unfold_Print in H. split_cat H. unfold_printable.
    repeat (apply andb_true_intro; split); member_printable.
  - (* ResTarget *)
    intros ind _ val IHval name t ln loc tab H.
    unfold_Print in H. split_cat H. unfold_printable.
    member_printable.
  - (* WindowDefNode *)
    intros name pl IHpl ol IHol fr IHfr t ln loc tab H.
    unfold_Print in H. split_cat H. unfold_printable.
    repeat (apply andb_true_intro; split); member_printable.
  - (* FrameBound *)
    intros bt off IHoff t ln loc tab H.
    unfold_Print in H. split_cat H. unfold_printable.
    member_printable.
  - (* FrameNode *)
    intros ft st IHst en IHen t ln loc tab H.
    unfold_Print in H. split_cat H. unfold_printable.
    repeat (apply andb_true_intro; split); member_printable.
  - (* LimitNode *) reflexivity.
  - (* SQLExprNode *) reflexivity.
  - (* ColumnRefNode *) reflexivity.
  - (* OrderByNode *)
    intros st ob IHob t ln loc tab H.
    unfold_Print in H. split_cat H. unfold_printable.
    member_printable.
  - (* TableNode *) reflexivity.
  - (* FuncNode *)
    intros fn args IHargs over IHover t ln loc tab H.
    unfold_Print in H. split_cat H. unfold_printable.
    apply andb_true_intro; split.
    + destruct args as [| |l]; cbv beta match in Hpiece4 |- *;
        [reflexivity | exact (is_Some_None_inv _ Hpiece4) |].
      destruct (0 =? Size l)%N; [reflexivity|]. use_IH.
    + member_printable.
  - (* ConstNode *)
    intros v t ln loc tab H.
    unfold_Print in H. split_cat H. unfold_printable.
    by apply bool_decide_eq_true_2.
  - (* OtherSqlNode *) reflexivity.
  - (* UnknowSqlNode *) reflexivity.
  - (* NULL *) discriminate.
  - (* Indeterminate *) discriminate.
  - (* To *) intros n IH c [= <-]. apply IH.
  - (* LNULL *) discriminate.
  - (* LIndeterminate *) discriminate.
  - (* ToList *) intros l IH l' [= <-]. apply IH.
  - (* NodeList *)
    intros sz hd IH tab H. destruct hd as [|np nx]; [reflexivity|].
    rewrite PrintList_Linked in H. rewrite printable_list_Linked.
    destruct (0 =? sz)%N; [reflexivity|].
    rewrite <- printable_cells_Linked. apply (IH (tab ++ TAB)).
    rewrite PrintCells_Linked. split_cat H.
    repeat apply cat_is_Some; assumption.
  - (* End *) reflexivity.
  - (* Linked *)
    intros np IHnp nx IHnx tab H.
    rewrite PrintCells_Linked in H. rewrite printable_cells_Linked.
    split_cat H. apply andb_true_intro; split.
    + destruct np; cbv beta match in Hpiece; cbn;
        [exact (is_Some_None_inv _ Hpiece) .. | use_IH].
    + by eapply IHnx.
Qed.

(** X12.  The debug print of a node is defined exactly on the printable
    trees, whatever the tab and the names of the kinds: every pointer that
    [Print] tests against null is null or points to a printable object, the
    value of a result target and the element of every list cell that is
    printed point to one, no pointer read is indeterminate, the array of
    every text literal is alive, and a literal's kind tag selects the
    member of the union that was written. *)
Theorem Print_defined_iff_printable n tab :
  is_Some (Print n tab) <-> printable n = true.
Proof.
  split.
  - apply (proj1 printable_defined).
  - intros H. by apply Print_printable.
Qed.

(** ** The print of a list *)

Lemma cat_assoc a b c : (a +++ b) +++ c = a +++ (b +++ c).
Proof. destruct a, b, c; simpl; try done. by rewrite append_assoc. Qed.

Lemma PrintCells_lines nx space :
  PrintCells nx space
  = lines (map (fun p => match p with
                         | To c => Print c space
                         | _ => None
                         end) (cells nx)).
Proof.
  induction nx as [|np nx IH]; [reflexivity|].
  rewrite PrintCells_Linked. cbn [cells map lines].
  by rewrite IH.
Qed.

(** X13.  [SQLNodeList::Print]: a list whose [size_] is 0 or whose [head_]
    is null prints as the tab followed by [[]].  Any other list prints as
    the tab and [[], a line feed, then for each cell reachable from the
    head, in order, the print of its element at one more tab followed by a
    line feed, then the tab and [[]]]; the first element is printed like
    the others, [size_] does not bound the loop, and the print is undefined
    when an element is null or its print is. *)
Theorem PrintList_lines sz hd tab :
  PrintList (NodeList sz hd) tab
  = if (0 =? sz)%N || match hd with End => true | _ => false end
    then emit (tab ++ "[]")
    else emit (tab ++ "[" ++ NL) +++
         lines (map (fun p => match p with
                              | To c => Print c (tab ++ TAB)
                              | _ => None
                              end) (cells hd)) +++
         emit (tab ++ "]").
Proof.
  destruct hd as [|np nx].
  - rewrite orb_true_r. reflexivity.
  - rewrite orb_false_r, PrintList_Linked.
    destruct (0 =? sz)%N; [reflexivity|].
    cbn [cells map lines].
    rewrite PrintCells_lines. by rewrite !cat_assoc.
Qed.

(** ** Literals *)

Lemma to_int_not_nil z :
  Z.to_int z <> Decimal.Pos Decimal.Nil /\ Z.to_int z <> Decimal.Neg Decimal.Nil.
Proof.
  destruct z as [|p|p]; simpl; split; try discriminate.
  - intros [= H]. by apply Unsigned.to_uint_nonnil in H.
  - intros [= H]. by apply Unsigned.to_uint_nonnil in H.
Qed.

(** The digits written for an integer read back as the integer. *)
Lemma read_decimal_decimal z : read_decimal (decimal z) = Some z.
Proof.
  unfold read_decimal, decimal.
  destruct (to_int_not_nil z) as [H1 H2].
  rewrite NilZero.isi by done. simpl. by rewrite DecimalZ.of_to.
Qed.

Lemma append_inv_head (a b c : string) : a ++ b = a ++ c -> b = c.
Proof. induction a as [|x a IH]; simpl; [done|]. intros [= H]. auto. Qed.

(** X14.  The print of an [int] or [long] literal is the tab, the name of
    its kind, a line feed, the tab, a tab and [value: ] followed by digits
    that read back as the value.  Two [int] literals, or two [long]
    literals, with the same print have the same value. *)
Theorem integer_literal_print_reads_back tab :
  (forall v, exists digits,
      Print (ConstNode_int v) tab
      = Some (tab ++ NameOfSQLNodeType kInt ++ NL ++
              tab ++ TAB ++ "value: " ++ digits) /\
      read_decimal digits = Some v) /\
  (forall v, exists digits,
      Print (ConstNode_long v) tab
      = Some (tab ++ NameOfSQLNodeType kBigInt ++ NL ++
              tab ++ TAB ++ "value: " ++ digits) /\
      read_decimal digits = Some v) /\
  (forall v w, Print (ConstNode_int v) tab = Print (ConstNode_int w) tab -> v = w) /\
  (forall v w, Print (ConstNode_long v) tab = Print (ConstNode_long w) tab -> v = w).
Proof.
  assert (forall v, Print (ConstNode_int v) tab
      = Some (tab ++ NameOfSQLNodeType kInt ++ NL ++
              tab ++ TAB ++ "value: " ++ decimal v)) as Hint.
  { intros v. unfold ConstNode_int. cbn. unfold SQLNode_Print, SPACE_ED.
    f_equal. flatten_text. }
  assert (forall v, Print (ConstNode_long v) tab
      = Some (tab ++ NameOfSQLNodeType kBigInt ++ NL ++
              tab ++ TAB ++ "value: " ++ decimal v)) as Hlong.
  { intros v. unfold ConstNode_long. cbn. unfold SQLNode_Print, SPACE_ED.
    f_equal. flatten_text. }
  assert (forall v w, decimal v = decimal w -> v = w) as Hinj.
  { intros v w H. apply (f_equal read_decimal) in H.
    rewrite !read_decimal_decimal in H. by injection H. }
  assert (forall name d,
             tab ++ name ++ NL ++ tab ++ TAB ++ "value: " ++ d
             = (tab ++ name ++ NL ++ tab ++ TAB ++ "value: ") ++ d) as Hpre
    by (intros; by rewrite !append_assoc).
  split; [|split; [|split]].
  - intros v. exists (decimal v). split; [apply Hint | apply read_decimal_decimal].
  - intros v. exists (decimal v). split; [apply Hlong | apply read_decimal_decimal].
  - intros v w. rewrite !Hint, !Hpre. intros [= H]. apply Hinj.
    by apply append_inv_head in H.
  - intros v w. rewrite !Hlong, !Hpre. intros [= H]. apply Hinj.
    by apply append_inv_head in H.
Qed.

Lemma text_value_defined p :
  is_Some (ConstNode_value kString (vstr p)) <-> is_Some (read_chars chars p).
Proof.
  cbn [Ast.ConstNode_value]. split.
  - intros H. by apply cat_is_Some_inv in H as [_ H].
  - intros H. apply cat_is_Some; [apply emit_is_Some | done].
Qed.

(** X15.  For a literal built by a constructor of [ConstNode], the
    accessor of a member of the union has a value exactly when the kind tag
    is the one of that member: [GetInt] for [kInt], [GetLong] for
    [kBigInt], [GetStr] for [kString], [GetFloat] for [kFloat], [GetDouble]
    for [kDouble], and none for [kNull].  [ConstNode::Print] reads the
    member its [switch] on the tag selects, so the print is defined unless
    the literal is a text whose array is dead. *)
Theorem constructed_literal_tag n :
  constructed_literal n ->
  (is_Some (GetInt n) <-> GetType n = kInt) /\
  (is_Some (GetLong n) <-> GetType n = kBigInt) /\
  (is_Some (GetStr n) <-> GetType n = kString) /\
  (is_Some (GetFloat n) <-> GetType n = kFloat) /\
  (is_Some (GetDouble n) <-> GetType n = kDouble) /\
  (forall tab,
      is_Some (Print n tab) <->
      forall p, GetStr n = Some p -> is_Some (read_chars chars p)).
Proof.
  intros Hn.
  assert (forall A (x : A) (P : Prop), P -> is_Some (Some x) <-> P) as Hyes
    by (intros; split; eauto).
  assert (forall A (P : Prop), ~ P -> is_Some (@None A) <-> P) as Hno
    by (intros A P HP; split; [intros [? [=]] | done]).
  repeat split; try (destruct Hn; simpl; first [by apply Hyes | by apply Hno]).
  - intros H p Hp. apply (proj1 printable_defined) in H.
    destruct Hn; try discriminate; injection Hp as <-.
    + apply bool_decide_eq_true in H. by apply text_value_defined.
    + apply bool_decide_eq_true in H. by apply text_value_defined.
  - intros H. apply Print_printable.
    destruct Hn; try reflexivity.
    + apply bool_decide_eq_true_2, text_value_defined. by apply H.
    + apply bool_decide_eq_true_2, text_value_defined. by apply H.
Qed.

(** ** What the print does not show *)

(** One pointer member of a node, with its induction hypothesis. *)
Ltac forget_member :=
  match goal with
  | IH : forall c, ?p = _ -> _ |- context [forget_ptr ?p] =>
      destruct p; cbn [forget_ptr];
      try (rewrite (IH _ eq_refl)); reflexivity
  | IH : forall c, ?p = _ -> _ |- context [forget_lptr ?p] =>
      destruct p; cbn [forget_lptr];
      try (rewrite (IH _ eq_refl)); reflexivity
  end.

(** The members of a node one by one. *)
Ltac forget_members :=
  repeat match goal with
         | |- _ +++ _ = _ +++ _ => apply (f_equal2 cat)
         end;
  try reflexivity; forget_member.

Lemma Print_forget_all :
  (forall n, forall tab, Print (forget n) tab = Print n tab) /\
  (forall d t ln loc, forall tab,
      Print (Node t 0 0 (forget_derived d)) tab = Print (Node t ln loc d) tab) /\
  (forall p c, p = To c -> forall tab, Print (forget c) tab = Print c tab) /\
  (forall p l, p = ToList l -> forall tab,
      PrintList (forget_list l) tab = PrintList l tab) /\
  (forall l, forall tab, PrintList (forget_list l) tab = PrintList l tab) /\
  (forall c, forall tab, PrintCells (forget_cells c) tab = PrintCells c tab).
Proof.
  apply ast_mutind.
  - (* Node *) intros t ln loc d IH tab. apply IH.
  - (* SelectStmt *)
    intros d lim IHlim sl IHsl tl IHtl wh IHwh gr IHgr hv IHhv ord IHord wl IHwl
           t ln loc tab.
    cbn [forget_derived Ast.Print]. forget_members.
  - (* ResTarget *)
    intros ind _ val IHval name t ln loc tab.
    cbn [forget_derived Ast.Print]. forget_members.
  - (* WindowDefNode *)
    intros name pl IHpl ol IHol fr IHfr t ln loc tab.
    cbn [forget_derived Ast.Print]. forget_members.
  - (* FrameBound *)
    intros bt off IHoff t ln loc tab.
    cbn [forget_derived Ast.Print]. forget_members.
  - (* FrameNode *)
    intros ft st IHst en IHen t ln loc tab.
    cbn [forget_derived Ast.Print]. forget_members.
  - (* LimitNode *) reflexivity.
  - (* SQLExprNode *) reflexivity.
  - (* ColumnRefNode *) reflexivity.
  - (* OrderByNode *)
    intros st ob IHob t ln loc tab.
    cbn [forget_derived Ast.Print]. forget_members.
  - (* TableNode *) reflexivity.
  - (* FuncNode *)
    intros fn args IHargs over IHover t ln loc tab.
    cbn [forget_derived Ast.Print].
    repeat match goal with
           | |- _ +++ _ = _ +++ _ => apply (f_equal2 cat)
           end; try reflexivity.
    + destruct args as [| |l]; cbn [forget_lptr]; try reflexivity.
      assert (Size (forget_list l) = Size l) as -> by (by destruct l).
      by rewrite (IHargs _ eq_refl).
    + forget_member.
  - (* ConstNode *) reflexivity.
  - (* OtherSqlNode *) reflexivity.
  - (* UnknowSqlNode *) reflexivity.
  - (* NULL *) discriminate.
  - (* Indeterminate *) discriminate.
  - (* To *) intros n IH c [= <-]. apply IH.
  - (* LNULL *) discriminate.
  - (* LIndeterminate *) discriminate.
  - (* ToList *) intros l IH l' [= <-]. apply IH.
  - (* NodeList *)
    intros sz hd IH tab. destruct hd as [|np nx]; [reflexivity|].
    cbn [forget_list forget_cells]. rewrite !PrintList_Linked.
    destruct (0 =? sz)%N; [reflexivity|].
    specialize (IH (tab ++ TAB)). cbn [forget_cells] in IH.
    rewrite !PrintCells_Linked in IH.
    rewrite <- !(cat_assoc _ (PrintCells _ _) (emit (tab ++ "]"))).
    rewrite <- !(cat_assoc _ (emit NL +++ _) (emit (tab ++ "]"))).
    by rewrite IH.
  - (* End *) reflexivity.
  - (* Linked *)
    intros np IHnp nx IHnx tab. cbn [forget_cells].
    rewrite !PrintCells_Linked, IHnx.
    destruct np; cbn [forget_ptr]; try reflexivity.
    by rewrite (IHnp _ eq_refl).
Qed.

(** X21.  The debug print does not show the line and the location of a
    node, the [distinct_opt_] of a statement, the count of a limit or the
    [indirection_] of a result target: a tree and the tree in which these
    members are reset, in the node and in every child the printer visits,
    have the same print, defined or not, at every tab. *)
Theorem Print_forget n tab : Print (forget n) tab = Print n tab.
Proof. apply Print_forget_all. Qed.

(** ** Mutators and accessors *)

(** X16.  A window definition produced by the constructor and any number
    of calls of [SetName] and [FillWindowSpection] has kind [kWindowDef]
    and position 0, 0; [GetName] returns the last name set (the empty
    string when none was), [GetPartitions], [GetOrders] and [GetFrame] the
    members of the last fill (null when there was none): neither mutator
    writes the members of the other.  Its print, when defined, shows that
    name after [window_name: ]. *)
Theorem constructed_window_members n name pl ol fr :
  constructed_window n name pl ol fr ->
  (GetType n = kWindowDef /\ GetLineNum n = 0%N /\ GetLocation n = 0%N) /\
  (WindowDefNode_GetName n = Some name /\ GetPartitions n = Some pl /\
   GetOrders n = Some ol /\ GetFrame n = Some fr) /\
  (forall tab out,
      Print n tab = Some out ->
      exists rest,
        out = tab ++ NameOfSQLNodeType kWindowDef ++ NL ++
              (tab ++ TAB) ++ "window_name: " ++ name ++ NL ++ rest).
Proof.
  intros Hn.
  assert (n = Node kWindowDef 0 0 (WindowDefNode name pl ol fr)) as ->.
  { induction Hn as [|n name pl ol fr name' _ ->|n name pl ol fr pl' ol' fr' _ ->];
      reflexivity. }
  split; [done|]. split; [done|].
  intros tab out H. cbn [Ast.Print] in H. unfold SQLNode_Print, SPACE_ED in H.
  apply cat_emit_inv in H as (r1 & H & ->).
  apply cat_emit_inv in H as (r2 & H & ->).
  apply cat_emit_inv in H as (r3 & H & ->).
  exists r3. flatten_text.
Qed.

(** X17.  A frame produced by either constructor and any number of calls
    of [SetFrameType] has kind [kFrames] and position 0, 0;
    [GetFrameType] returns the last type set ([kFrameRange] after
    [FrameNode()] alone), [GetStart] and [GetEnd] the bounds given to the
    constructor.  Its print, when defined, shows the name of that type
    after [frames_type_ : ]. *)
Theorem constructed_frame_members n ft s e :
  constructed_frame n ft s e ->
  (GetType n = kFrames /\ GetLineNum n = 0%N /\ GetLocation n = 0%N) /\
  (GetFrameType n = Some ft /\ GetStart n = Some s /\ GetEnd n = Some e) /\
  (forall tab out,
      Print n tab = Some out ->
      exists rest,
        out = tab ++ NameOfSQLNodeType kFrames ++ NL ++
              (tab ++ TAB) ++ "frames_type_ : " ++ NameOfSQLNodeType ft ++ NL ++
              rest).
Proof.
  intros Hn.
  assert (n = Node kFrames 0 0 (FrameNode ft s e)) as ->.
  { induction Hn as [| |n ft s e ft' _ ->]; reflexivity. }
  split; [done|]. split; [done|].
  intros tab out H. cbn [Ast.Print] in H. unfold SQLNode_Print, SPACE_ED in H.
  apply cat_emit_inv in H as (r1 & H & ->).
  apply cat_emit_inv in H as (r2 & H & ->).
  apply cat_emit_inv in H as (r3 & H & ->).
  exists r3. flatten_text.
Qed.

(** X18.  After [FillSelectAttributions] on a statement with any history
    of fills, [GetSelectList], [GetTableRefList], [GetWindowList] and
    [GetLimit] return the four arguments of the call, and the kind and the
    position of the statement are [kSelectStmt], 0 and 0 still. *)
Theorem FillSelectAttributions_members n sl tl wl lim :
  constructed_select n ->
  GetSelectList (FillSelectAttributions n sl tl wl lim) = Some sl /\
  GetTableRefList (FillSelectAttributions n sl tl wl lim) = Some tl /\
  GetWindowList (FillSelectAttributions n sl tl wl lim) = Some wl /\
  GetLimit (FillSelectAttributions n sl tl wl lim) = Some lim /\
  GetType (FillSelectAttributions n sl tl wl lim) = kSelectStmt /\
  GetLineNum (FillSelectAttributions n sl tl wl lim) = 0%N /\
  GetLocation (FillSelectAttributions n sl tl wl lim) = 0%N.
Proof.
  intros Hn.
  assert (exists d lim0 sl0 tl0 wl0,
      n = Node kSelectStmt 0 0
            (SelectStmt d lim0 sl0 tl0 NULL NULL NULL NULL wl0))
    as (d & lim0 & sl0 & tl0 & wl0 & ->).
  { induction Hn as [|n sl' tl' wl' lim' _ (d & lim0 & sl0 & tl0 & wl0 & ->)].
    - unfold SelectStmt_new. by eexists _, _, _, _, _.
    - simpl. by eexists _, _, _, _, _. }
  done.
Qed.

End PrinterExtras.

(** * Constructors that leave a pointer member unwritten *)

Section UninitialisedMembers.
#[local] Open Scope string_scope.

Context (NameOfSQLNodeType : SQLNodeType -> string)
        (show_float show_double : N -> string)
        (insert_SQLNode : Ast.SQLNode -> option string)
        (chars : gmap positive string).

(** X22.  [ResTarget()] and [ResTarget(line_num, location)] do not write
    [val_], and [FrameBound(bound_type)] does not write [offset_]; no
    member function writes them later.  An object built by one of them
    cannot be destroyed: in every store and with every bound on the
    nesting [delete] does not complete, and with a bound of one or more it
    is undefined.  It cannot be printed either: at every tab its print is
    undefined. *)
Theorem unwritten_member_makes_delete_and_print_undefined :
  (forall s fuel,
      (forall s', Store.bind Store.ResTarget_new (Store.delete_node fuel) s
                  <> Store.Done tt s') /\
      (forall s', Store.bind Store.ResTarget_new_pos (Store.delete_node fuel) s
                  <> Store.Done tt s') /\
      (forall s', Store.bind Store.FrameBound_new_type (Store.delete_node fuel) s
                  <> Store.Done tt s') /\
      Store.bind Store.ResTarget_new (Store.delete_node (S fuel)) s
      = Store.Undefined /\
      Store.bind Store.ResTarget_new_pos (Store.delete_node (S fuel)) s
      = Store.Undefined /\
      Store.bind Store.FrameBound_new_type (Store.delete_node (S fuel)) s
      = Store.Undefined) /\
  (forall tab,
      Ast.Print NameOfSQLNodeType show_float show_double insert_SQLNode chars
        Ast.ResTarget_new tab = None /\
      (forall line_num location,
          Ast.Print NameOfSQLNodeType show_float show_double insert_SQLNode chars
            (Ast.ResTarget_new_pos line_num location) tab = None) /\
      (forall bound_type,
          Ast.Print NameOfSQLNodeType show_float show_double insert_SQLNode chars
            (Ast.FrameBound_new_type bound_type) tab = None)).
Proof.
  split; [|by intros tab].
  intros s fuel.
  assert (forall o,
             o = Store.ResTarget Store.Indeterminate Store.Indeterminate \/
             o = Store.ResTarget Store.NULL Store.Indeterminate \/
             o = Store.FrameBound Store.Indeterminate ->
             Store.bind (Store.new o) (Store.delete_node (S fuel)) s
             = Store.Undefined) as Hundef.
  { intros o Ho. unfold Store.bind at 1, Store.new.
    cbn [Store.delete_node]. unfold Store.bind at 1, Store.load. simpl.
    rewrite lookup_insert_eq.
    destruct Ho as [-> | [-> | ->]];
      destruct fuel; reflexivity. }
  assert (forall o,
             o = Store.ResTarget Store.Indeterminate Store.Indeterminate \/
             o = Store.ResTarget Store.NULL Store.Indeterminate \/
             o = Store.FrameBound Store.Indeterminate ->
             forall s', Store.bind (Store.new o) (Store.delete_node fuel) s
                        <> Store.Done tt s') as Hnot.
  { intros o Ho s'. destruct fuel as [|fuel']; [discriminate|].
    unfold Store.bind at 1, Store.new.
    cbn [Store.delete_node]. unfold Store.bind at 1, Store.load. simpl.
    rewrite lookup_insert_eq.
    destruct Ho as [-> | [-> | ->]]; destruct fuel'; discriminate. }
  unfold Store.ResTarget_new, Store.ResTarget_new_pos, Store.FrameBound_new_type.
  repeat split; first [apply Hnot | apply Hundef]; auto.
Qed.

End UninitialisedMembers.


(** * The further properties at concrete inputs *)

Section ListExtraExamples.
Import Store Scenario.

Lemma PushFront_prepends_witness :
  exists s',
    PushFront (At 1) NULL one_empty_list = Done tt s' /\
    reported_size s' (At 1) = Some 1%N /\
    elements s' (At 1) = Some [NULL] /\
    tail_field s' (At 1) = Some (At 2) /\
    sound_list s' 1 [(2%positive, NULL)].
Proof.
  destruct (PushFront_prepends one_empty_list 1 [] NULL)
    as (s' & H1 & H2 & H3 & H4 & H5 & _).
  - intros l Hl. unfold one_empty_list in *. simpl in *.
    rewrite lookup_insert_ne by lia. apply lookup_empty.
  - exists NULL, 0. split; vm_compute; reflexivity.
  - reflexivity.
  - exists s'. repeat split; assumption.
Defined.

Lemma PushFront_each_reverses_witness :
  exists s' a,
    pushed [At 1; At 2] two_columns = Done (At a) s' /\
    reported_size s' (At a) = Some 2%N /\
    elements s' (At a) = Some [At 2; At 1] /\
    exists cells, sound_list s' a cells /\ cells.*2 = [At 2; At 1].
Proof.
  apply (PushFront_each_reverses [At 1; At 2] two_columns).
  - intros l Hl. unfold two_columns in *. simpl in *.
    rewrite !lookup_insert_ne by lia. apply lookup_empty.
  - reflexivity.
Defined.

Lemma append_all_concatenates_witness :
  exists s',
    append_all (At 4) [At 6] (final_store two_lists) = Done tt s' /\
    sound_list s' 4 [(5%positive, At 1); (8%positive, At 2); (7%positive, At 3)] /\
    reported_size s' (At 4) = Some 3%N /\
    elements s' (At 4) = Some [At 1; At 2; At 3].
Proof.
  apply (append_all_concatenates [6%positive]
           [[(8%positive, At 2); (7%positive, At 3)]]
           (final_store two_lists) 4 [(5%positive, At 1)]).
  - exists (At 5), 1. split; vm_compute; reflexivity.
  - discriminate.
  - constructor; [|constructor].
    split; [discriminate|]. split; [|discriminate].
    exists (At 8), 2. split; vm_compute; reflexivity.
  - compute_done.
  - reflexivity.
Defined.

Lemma AppendNodeList_adopts_contents_witness :
  exists s',
    AppendNodeList (At 5) (At 3) (final_store one_and_empty) = Done tt s' /\
    reported_size s' (At 5) = Some 1%N /\
    elements s' (At 5) = Some [At 1] /\
    tail_field s' (At 5) = Some (At 4) /\
    (sound_list s' 5 [(4%positive, At 1)] <-> 1 <= 1).
Proof.
  apply (AppendNodeList_adopts_contents (final_store one_and_empty) 5 3
           [(4%positive, At 1)]).
  - discriminate.
  - exists NULL, 0. split; vm_compute; reflexivity.
  - exists (At 4), 1. split; vm_compute; reflexivity.
Defined.

Lemma AppendNodeList_onto_itself_witness :
  exists s',
    AppendNodeList (At 6) (At 6) (final_store two_lists) = Done tt s' /\
    reported_size s' (At 6) = Some 4%N /\
    elements s' (At 6) = None /\
    exists h, GetHead (At 6) s' = Done h s' /\
              forall k, chain k (live s') h = None.
Proof.
  destruct (AppendNodeList_onto_itself (final_store two_lists) 6
              [(8%positive, At 2); (7%positive, At 3)])
    as (s' & H1 & H2 & H3 & H4).
  - exists (At 8), 2. split; vm_compute; reflexivity.
  - exists s'. split; [exact H1|]. split; [exact H2|]. split; [exact H3|].
    apply H4. discriminate.
Defined.

Lemma AppendNodeList_writes_target_only_witness :
  brk (final_store two_lists_appended) = brk (final_store two_lists) /\
  (forall x, is_Some (live (final_store two_lists_appended) !! x) <->
             is_Some (live (final_store two_lists) !! x)) /\
  (forall x, At 4 <> At x ->
             tail_field (final_store two_lists) (At 4) <> Some (At x) ->
             live (final_store two_lists_appended) !! x
             = live (final_store two_lists) !! x).
Proof.
  apply (AppendNodeList_writes_target_only (final_store two_lists)
           (At 4) (At 6) (final_store two_lists_appended)).
  vm_compute. reflexivity.
Defined.

Lemma delete_node_releases_owned_tree_witness :
  exists k, forall k', k <= k' ->
    exists s',
      delete_node k' (At 2) (mkStore (live bound_with_offset) 3) = Done tt s' /\
      brk s' = 3%positive /\
      forall x, live s' !! x
                = if decide (x ∈ [1%positive; 2%positive]) then None
                  else live bound_with_offset !! x.
Proof.
  apply (delete_node_releases_owned_tree (live bound_with_offset) 3 (At 2)
           ([1%positive] ++ [2%positive])).
  - apply owns_bound with (off := At 1).
    + vm_compute. reflexivity.
    + apply owns_leaf with (t := kInt). vm_compute. reflexivity.
  - compute_done.
Defined.

Lemma delete_list_releases_owned_list_witness :
  exists k, forall k', k <= k' ->
    exists s',
      delete_list k' (At 4) (mkStore (live (final_store two_lists)) 9)
      = Done tt s' /\
      brk s' = 9%positive /\
      forall x, live s' !! x
                = if decide (x ∈ [1%positive; 5%positive; 4%positive]) then None
                  else live (final_store two_lists) !! x.
Proof.
  apply (delete_list_releases_owned_list (live (final_store two_lists)) 9 (At 4)
           ([1%positive; 5%positive] ++ [4%positive])).
  - apply owns_list_object with (h := At 5) (t := At 5) (n := 1%N).
    + vm_compute. reflexivity.
    + apply (owns_cells_cell _ 5 (At 1) NULL [1%positive] []).
      * vm_compute. reflexivity.
      * apply owns_leaf with (t := kColumn). vm_compute. reflexivity.
      * apply owns_cells_null.
  - compute_done.
Defined.

Lemma delete_twice_is_undefined_witness :
  live (mkStore ∅ 2) !! 1%positive = None /\
  (forall k', delete_node (S k') (At 1) (mkStore ∅ 2) = Undefined) /\
  (forall k', delete_list (S k') (At 1) (mkStore ∅ 2) = Undefined).
Proof.
  apply (delete_twice_is_undefined 1 1 one_literal (mkStore ∅ 2)).
  left. vm_compute. reflexivity.
Defined.

Lemma delete_after_AppendNodeList_is_double_witness :
  exists s1 k s2,
    AppendNodeList (At 4) (At 6) (final_store two_lists) = Done tt s1 /\
    delete_list k (At 4) s1 = Done tt s2 /\
    (forall x, x ∈ [1%positive; 5%positive] ++ [4%positive]
                   ++ [2%positive; 8%positive; 3%positive; 7%positive] ->
               live s2 !! x = None) /\
    live s2 !! 6%positive = live (final_store two_lists) !! 6%positive /\
    (forall x, x ∉ ([1%positive; 5%positive] ++ [4%positive])
                   ++ [2%positive; 8%positive; 3%positive; 7%positive]
                   ++ [6%positive] ->
               live s2 !! x = live (final_store two_lists) !! x) /\
    (forall k', delete_list (S k') (At 6) s2 = Undefined).
Proof.
  apply (delete_after_AppendNodeList_is_double (final_store two_lists) 4 6
           [(5%positive, At 1)] [(8%positive, At 2); (7%positive, At 3)]
           [1%positive; 5%positive]
           [2%positive; 8%positive; 3%positive; 7%positive]).
  - discriminate.
  - exists (At 5), 1. split; vm_compute; reflexivity.
  - exists (At 8), 2. split; vm_compute; reflexivity.
  - discriminate.
  - apply owns_list_object with (h := At 5) (t := At 5) (n := 1%N).
    + vm_compute. reflexivity.
    + apply (owns_cells_cell _ 5 (At 1) NULL [1%positive] []).
      * vm_compute. reflexivity.
      * apply owns_leaf with (t := kColumn). vm_compute. reflexivity.
      * apply owns_cells_null.
  - apply owns_list_object with (h := At 8) (t := At 7) (n := 2%N).
    + vm_compute. reflexivity.
    + apply (owns_cells_cell _ 8 (At 2) (At 7) [2%positive]
               [3%positive; 7%positive]).
      * vm_compute. reflexivity.
      * apply owns_leaf with (t := kColumn). vm_compute. reflexivity.
      * apply (owns_cells_cell _ 7 (At 3) NULL [3%positive] []).
        -- vm_compute. reflexivity.
        -- apply owns_leaf with (t := kColumn). vm_compute. reflexivity.
        -- apply owns_cells_null.
  - compute_done.
Defined.

Lemma PushFront_writes_target_only_witness :
  brk (mkStore (<[1%positive := SQLNodeList (At 2) (At 2) 1]>
                  (<[2%positive := SQLLinkedNode NULL NULL]> ∅)) 3)
  = Pos.succ (brk one_empty_list) /\
  (exists h,
      live (mkStore (<[1%positive := SQLNodeList (At 2) (At 2) 1]>
                       (<[2%positive := SQLLinkedNode NULL NULL]> ∅)) 3)
        !! brk one_empty_list = Some (SQLLinkedNode NULL h) /\
      get_head (At 1) one_empty_list = Done h one_empty_list) /\
  (forall y, At 1 <> At y -> y <> brk one_empty_list ->
             live (mkStore (<[1%positive := SQLNodeList (At 2) (At 2) 1]>
                              (<[2%positive := SQLLinkedNode NULL NULL]> ∅)) 3)
               !! y = live one_empty_list !! y) /\
  (exists a h t n,
      At 1 = At a /\ a <> brk one_empty_list /\
      live one_empty_list !! a = Some (SQLNodeList h t n) /\
      live (mkStore (<[1%positive := SQLNodeList (At 2) (At 2) 1]>
                       (<[2%positive := SQLLinkedNode NULL NULL]> ∅)) 3)
        !! a = Some (SQLNodeList (At (brk one_empty_list))
                       (if decide (NULL = t) then At (brk one_empty_list)
                        else t)
                       (wrap64 (n + 1)))) /\
  (forall y,
      is_Some (live (mkStore (<[1%positive := SQLNodeList (At 2) (At 2) 1]>
                                (<[2%positive := SQLLinkedNode NULL NULL]> ∅)) 3)
                 !! y)
      <-> y = brk one_empty_list \/ is_Some (live one_empty_list !! y)).
Proof.
  apply (PushFront_writes_target_only one_empty_list (At 1) NULL).
  vm_compute. reflexivity.
Defined.

Lemma pushed_list_is_destroyed_whole_witness :
  exists s1 l k s2,
    pushed [At 1; At 2] two_columns = Done (At l) s1 /\
    delete_list k (At l) s1 = Done tt s2 /\
    brk s2 = brk s1 /\
    forall y, live s2 !! y
              = if decide (y ∈ [1%positive; 2%positive]) then None
                else live two_columns !! y.
Proof.
  apply (pushed_list_is_destroyed_whole [At 1; At 2]
           [[1%positive]; [2%positive]] two_columns).
  - intros l Hl. unfold two_columns in *. simpl in *.
    rewrite !lookup_insert_ne by lia. apply lookup_empty.
  - constructor; [|constructor; [|constructor]].
    + apply owns_leaf with (t := kColumn). vm_compute. reflexivity.
    + apply owns_leaf with (t := kColumn). vm_compute. reflexivity.
  - compute_done.
Defined.

Lemma Fill_replaces_without_destroying_witness :
  refilled_select (At 4) (At 6) NULL NULL 1 (final_store two_lists)
  = Done tt (mkStore (live (final_store two_lists))
                     (Pos.succ (brk (final_store two_lists)))) /\
  refilled_window (At 4) (At 6) NULL 1 (final_store two_lists)
  = Done tt (mkStore (live (final_store two_lists))
                     (Pos.succ (brk (final_store two_lists)))).
Proof.
  apply (Fill_replaces_without_destroying (final_store two_lists)
           (At 4) (At 6) NULL NULL (At 4) (At 6) NULL 0).
  vm_compute. reflexivity.
Defined.

End ListExtraExamples.

Section PrinterExtraExamples.
Import Ast Text.
#[local] Open Scope string_scope.

Lemma integer_literal_print_reads_back_witness :
  (exists digits,
      Ast.Print enumerator_name (fun _ => "") (fun _ => "") (fun _ => None) ∅
        (ConstNode_int 3) "+"
      = Some ("+" ++ enumerator_name kInt ++ NL ++
              "+" ++ TAB ++ "value: " ++ digits) /\
      read_decimal digits = Some 3%Z) /\
  3%Z = 3%Z.
Proof.
  destruct (integer_literal_print_reads_back enumerator_name (fun _ => "")
              (fun _ => "") (fun _ => None) ∅ "+") as (Hint & _ & Hinj & _).
  split; [apply Hint|]. apply Hinj. reflexivity.
Defined.

Lemma constructed_literal_tag_witness :
  (is_Some (GetInt (ConstNode_int 3)) <-> GetType (ConstNode_int 3) = kInt) /\
  (is_Some (GetLong (ConstNode_int 3)) <-> GetType (ConstNode_int 3) = kBigInt) /\
  (is_Some (GetStr (ConstNode_int 3)) <-> GetType (ConstNode_int 3) = kString) /\
  (is_Some (GetFloat (ConstNode_int 3)) <-> GetType (ConstNode_int 3) = kFloat) /\
  (is_Some (GetDouble (ConstNode_int 3)) <-> GetType (ConstNode_int 3) = kDouble) /\
  (forall tab,
      is_Some (Ast.Print enumerator_name (fun _ => "") (fun _ => "")
                 (fun _ => None) ∅ (ConstNode_int 3) tab) <->
      forall p, GetStr (ConstNode_int 3) = Some p -> is_Some (read_chars ∅ p)).
Proof.
  exact (constructed_literal_tag enumerator_name (fun _ => "") (fun _ => "")
           (fun _ => None) ∅ (ConstNode_int 3) (literal_int 3)).
Defined.

Lemma constructed_window_members_witness :
  (GetType (FillWindowSpection (SetName WindowDefNode_new "w") LNULL LNULL NULL)
   = kWindowDef /\
   GetLineNum (FillWindowSpection (SetName WindowDefNode_new "w") LNULL LNULL NULL)
   = 0%N /\
   GetLocation (FillWindowSpection (SetName WindowDefNode_new "w") LNULL LNULL NULL)
   = 0%N) /\
  (WindowDefNode_GetName
     (FillWindowSpection (SetName WindowDefNode_new "w") LNULL LNULL NULL)
   = Some "w" /\
   GetPartitions
     (FillWindowSpection (SetName WindowDefNode_new "w") LNULL LNULL NULL)
   = Some LNULL /\
   GetOrders
     (FillWindowSpection (SetName WindowDefNode_new "w") LNULL LNULL NULL)
   = Some LNULL /\
   GetFrame
     (FillWindowSpection (SetName WindowDefNode_new "w") LNULL LNULL NULL)
   = Some NULL) /\
  (forall tab out,
      Ast.Print enumerator_name (fun _ => "") (fun _ => "") (fun _ => None) ∅
        (FillWindowSpection (SetName WindowDefNode_new "w") LNULL LNULL NULL) tab
      = Some out ->
      exists rest,
        out = tab ++ enumerator_name kWindowDef ++ NL ++
              (tab ++ TAB) ++ "window_name: " ++ "w" ++ NL ++ rest).
Proof.
  apply (constructed_window_members enumerator_name (fun _ => "") (fun _ => "")
           (fun _ => None) ∅).
  apply window_filled with (name := "w") (pl := LNULL) (ol := LNULL) (fr := NULL).
  apply window_named with (name := "") (pl := LNULL) (ol := LNULL) (fr := NULL).
  apply window_new.
Defined.

Lemma constructed_frame_members_witness :
  (GetType (SetFrameType FrameNode_new kFrameRows) = kFrames /\
   GetLineNum (SetFrameType FrameNode_new kFrameRows) = 0%N /\
   GetLocation (SetFrameType FrameNode_new kFrameRows) = 0%N) /\
  (GetFrameType (SetFrameType FrameNode_new kFrameRows) = Some kFrameRows /\
   GetStart (SetFrameType FrameNode_new kFrameRows) = Some NULL /\
   GetEnd (SetFrameType FrameNode_new kFrameRows) = Some NULL) /\
  (forall tab out,
      Ast.Print enumerator_name (fun _ => "") (fun _ => "") (fun _ => None) ∅
        (SetFrameType FrameNode_new kFrameRows) tab = Some out ->
      exists rest,
        out = tab ++ enumerator_name kFrames ++ NL ++
              (tab ++ TAB) ++ "frames_type_ : " ++ enumerator_name kFrameRows
              ++ NL ++ rest).
Proof.
  apply (constructed_frame_members enumerator_name (fun _ => "") (fun _ => "")
           (fun _ => None) ∅).
  apply frame_typed with (ft := kFrameRange). apply frame_new.
Defined.

Lemma FillSelectAttributions_members_witness :
  GetSelectList (select_with_limit 10) = Some (ToList (NodeList 0 End)) /\
  GetTableRefList (select_with_limit 10) = Some LNULL /\
  GetWindowList (select_with_limit 10) = Some LNULL /\
  GetLimit (select_with_limit 10) = Some (To (LimitNode_new 10)) /\
  GetType (select_with_limit 10) = kSelectStmt /\
  GetLineNum (select_with_limit 10) = 0%N /\
  GetLocation (select_with_limit 10) = 0%N.
Proof.
  apply (FillSelectAttributions_members SelectStmt_new
           (ToList (NodeList 0 End)) LNULL LNULL (To (LimitNode_new 10))).
  apply constructed_new.
Defined.

End PrinterExtraExamples.
